(** * Klipper MCU port: shallow embedding of the motion, heater, G-code and
    scheduler cores, with the properties of the design document checked
    against the C sources.

    Numeric conventions.
    - [uint32_t] / [int32_t] values are [Z] with the wrap-around written out.
    - [double] values of toolhead.c, trapq.c and kin_cartesian.c are Rocq's
      primitive binary64 floats, so the arithmetic evaluates as the C does.
    - [float] values of heater.c and gcode.c are exact rationals [Q]: the
      comparisons and clamps of the source are kept, binary32 rounding of
      the intermediate results is not modelled. *)

From Stdlib Require Import ZArith List Bool Lia Permutation.
From Stdlib Require Import QArith Qabs Lqa.
From Stdlib Require Import Floats.
From Stdlib Require Import Ascii String.
Import ListNotations.

Set Implicit Arguments.

(* ================================================================== *)
(** * src/sched.c : cooperative timer scheduler *)
(* ================================================================== *)

Module Sched.
Local Open Scope Z_scope.

(** [sched_time_t] is [uint32_t]. *)
Definition sched_time_t := Z.

Definition wrap32 (z : Z) : Z := z mod 2 ^ 32.

(** The cast [(int32_t)] of a 32-bit pattern. *)
Definition to_int32 (z : Z) : Z :=
  let w := wrap32 z in if w <? 2 ^ 31 then w else w - 2 ^ 32.

(** [sched_time_diff]: [(int32_t)(t1 - t2)]. *)
Definition sched_time_diff (t1 t2 : sched_time_t) : Z := to_int32 (t1 - t2).

Section Scheduler.

(** [F] names the callbacks a timer can point to ([sched_timer_fn_t]
    values); [W] is the rest of the machine a callback may touch. *)
Variable F : Type.
Variable W : Type.

(** [struct sched_timer]; [tid] stands for the address of the object,
    [func = None] for a NULL callback pointer.  The [next] pointer is the
    list structure itself. *)
Record sched_timer_t : Type := mk_timer {
  tid : nat;
  waketime : sched_time_t;
  func : option F
}.

Record sched_state : Type := mk_sched {
  s_timer_list : list sched_timer_t;
  s_shutdown_flag : bool;
  world : W
}.

(** The hardware clock [timer_read_time()], whose reading may find the
    hardware changed, and the behaviour of each callback: it receives its
    wake time, may change the machine and the timer list (a callback may
    register further timers), and returns the next wake time as a
    [uint32_t]. *)
Variable timer_read_time : W -> sched_time_t * W.
Variable call : F -> sched_time_t -> sched_state -> sched_time_t * sched_state.

Definition set_timers (st : sched_state) (l : list sched_timer_t) : sched_state :=
  mk_sched l (s_shutdown_flag st) (world st).

Definition set_world (st : sched_state) (w : W) : sched_state :=
  mk_sched (s_timer_list st) (s_shutdown_flag st) w.

Definition set_waketime (t : sched_timer_t) (w : sched_time_t) : sched_timer_t :=
  mk_timer (tid t) w (func t).

(** The walk of [sched_add_timer]: stop in front of the first timer that
    wakes strictly later. *)
Fixpoint insert_timer (t : sched_timer_t) (l : list sched_timer_t)
  : list sched_timer_t :=
  match l with
  | [] => [t]
  | c :: r =>
      if sched_time_diff (waketime t) (waketime c) <? 0
      then t :: c :: r
      else c :: insert_timer t r
  end.

(** [sched_add_timer]; a NULL [func] is refused.  The critical section
    has no effect in this sequential model. *)
Definition sched_add_timer (t : sched_timer_t) (st : sched_state) : sched_state :=
  match func t with
  | None => st
  | Some _ => set_timers st (insert_timer t (s_timer_list st))
  end.

(** The walk of [sched_del_timer]: unlink the first node that is the
    object [id]. *)
Fixpoint remove_timer (id : nat) (l : list sched_timer_t) : list sched_timer_t :=
  match l with
  | [] => []
  | c :: r => if Nat.eqb (tid c) id then r else c :: remove_timer id r
  end.

Definition sched_del_timer (id : nat) (st : sched_state) : sched_state :=
  set_timers st (remove_timer id (s_timer_list st)).

(** [sched_get_time] and [sched_is_before]: has [time] been reached? *)
Definition sched_get_time (st : sched_state) : sched_time_t * sched_state :=
  let '(now, w) := timer_read_time (world st) in (now, set_world st w).

Definition sched_is_before (st : sched_state) (time : sched_time_t)
  : bool * sched_state :=
  let '(now, st') := sched_get_time st in
  (sched_time_diff time now <=? 0, st').

(** One turn of the [for (;;)] of [sched_main]. *)
Inductive turn : Type :=
| Stop (st : sched_state)        (* [break] *)
| Again (st : sched_state)       (* next iteration *)
| Crash.                         (* call through a NULL pointer *)

Definition sched_main_turn (st : sched_state) : turn :=
  match s_timer_list st with
  | [] => Stop st
  | timer :: rest =>
      let '(due, st0) := sched_is_before st (waketime timer) in
      if negb due then Stop st0
      else
        let st1 := set_timers st0 rest in
        match func timer with
        | None => Crash
        | Some f =>
            let '(next_waketime, st2) := call f (waketime timer) st1 in
            if next_waketime =? 0 then Again st2
            else Again (sched_add_timer (set_waketime timer next_waketime) st2)
        end
  end.

(** The loop runs as long as the head timer is due; [None] when [fuel]
    turns were not enough. *)
Fixpoint sched_main_loop (fuel : nat) (st : sched_state) : option sched_state :=
  match fuel with
  | O => None
  | S n =>
      match sched_main_turn st with
      | Stop st' => Some st'
      | Again st' => sched_main_loop n st'
      | Crash => None
      end
  end.

(** [sched_main]. *)
Definition sched_main (fuel : nat) (st : sched_state) : option sched_state :=
  if s_shutdown_flag st then Some st else sched_main_loop fuel st.

End Scheduler.
End Sched.

(* ================================================================== *)
(** * chelper/trapq.c : trapezoidal motion queue over a static pool *)
(* ================================================================== *)

Set Warnings "-inexact-float".

(** C's [a > b] and [a >= b] on doubles. *)
Notation "a >? b" := (PrimFloat.ltb b a) (at level 70, no associativity) : float_scope.
Notation "a >=? b" := (PrimFloat.leb b a) (at level 70, no associativity) : float_scope.

Module Trapq.
Local Open Scope float_scope.

(** [struct coord]. *)
Record coord : Set := mk_coord { x : float; y : float; z : float; e : float }.

(** [struct move] without its list node: the node is the position of the
    move in the [moves] or [history] list of its queue. *)
Record move : Set := mk_move {
  print_time : float;
  move_t : float;
  start_v : float;
  half_accel : float;
  cruise_v : float;
  accel_t : float;
  cruise_t : float;
  decel_t : float;
  start_pos : coord;
  axes_r : coord
}.

Definition TRAPQ_MAX_MOVES : nat := 32.

(** A queued move is a slot of [move_pool] together with its contents. *)
Definition node : Set := (nat * move)%type.

(** [struct trapq]: the two intrusive lists. *)
Record trapq : Set := mk_trapq {
  moves : list node;
  history : list node
}.

(** [move_pool_used] after [trapq_pool_init]. *)
Definition trapq_pool_init : list bool := repeat false TRAPQ_MAX_MOVES.

(** The scan of [move_alloc]: the first index, counted from [i], whose flag
    is clear. *)
Fixpoint first_free (used : list bool) (i : nat) : option nat :=
  match used with
  | [] => None
  | u :: r => if u then first_free r (S i) else Some i
  end.

Fixpoint set_used (used : list bool) (i : nat) (v : bool) : list bool :=
  match used, i with
  | [], _ => []
  | _ :: r, O => v :: r
  | u :: r, S k => u :: set_used r k v
  end.

(** [move_alloc]: [None] is the NULL of an exhausted pool; the slot is
    zeroed by the [memset], so only its index matters. *)
Definition move_alloc (used : list bool) : option (nat * list bool) :=
  match first_free used 0 with
  | None => None
  | Some i => Some (i, set_used used i true)
  end.

(** [move_free] of the move in slot [idx]. *)
Definition move_free (used : list bool) (idx : nat) : list bool :=
  if Nat.ltb idx TRAPQ_MAX_MOVES then set_used used idx false else used.

(** [move_get_distance]. *)
Definition move_get_distance (m : move) (move_time : float) : float :=
  if move_time <=? 0 then 0
  else
    let move_time := if move_time >=? move_t m then move_t m else move_time in
    let dist := 0 in
    let t := move_time in
    (* acceleration phase *)
    let '(dist, t) :=
      if (t >? 0) && (accel_t m >? 0) then
        let at_ := if t <? accel_t m then t else accel_t m in
        (dist + (start_v m * at_ + half_accel m * at_ * at_), t - at_)
      else (dist, t) in
    (* cruise phase *)
    let '(dist, t) :=
      if (t >? 0) && (cruise_t m >? 0) then
        let ct := if t <? cruise_t m then t else cruise_t m in
        (dist + cruise_v m * ct, t - ct)
      else (dist, t) in
    (* deceleration phase *)
    if (t >? 0) && (decel_t m >? 0) then
      let dt := if t <? decel_t m then t else decel_t m in
      dist + (cruise_v m * dt - half_accel m * dt * dt)
    else dist.

(** [move_get_coord]. *)
Definition move_get_coord (m : move) (move_time : float) : coord :=
  let dist := move_get_distance m move_time in
  mk_coord (x (start_pos m) + x (axes_r m) * dist)
           (y (start_pos m) + y (axes_r m) * dist)
           (z (start_pos m) + z (axes_r m) * dist)
           (e (start_pos m) + e (axes_r m) * dist).

(** [trapq_append] is a [void] function: all it hands back is the memory
    it may have changed, the pool flags and the queue. *)
Definition trapq_append (used : list bool) (tq : trapq) (print_time : float)
    (accel_t cruise_t decel_t : float) (start_pos axes_r : coord)
    (start_v cruise_v accel : float) : list bool * trapq :=
  match move_alloc used with
  | None => (used, tq)       (* pool exhausted: plain [return] *)
  | Some (slot, used') =>
      let m := mk_move print_time (accel_t + cruise_t + decel_t)
                       start_v (accel * 0.5) cruise_v
                       accel_t cruise_t decel_t start_pos axes_r in
      (used', mk_trapq (moves tq ++ [(slot, m)]) (history tq))
  end.

Definition move_end (n : node) : float := print_time (snd n) + move_t (snd n).

(** [trapq_finalize_moves]: every active move that ends at or before
    [print_time] goes to the tail of the history, in queue order. *)
Definition trapq_finalize_moves (tq : trapq) (print_time : float) : trapq :=
  mk_trapq (filter (fun n => negb (move_end n <=? print_time)) (moves tq))
           (history tq ++ filter (fun n => move_end n <=? print_time) (moves tq)).

(** [trapq_free_moves]: history entries that end strictly before
    [print_time] are unlinked and their slots released. *)
Definition trapq_free_moves (used : list bool) (tq : trapq) (print_time : float)
  : list bool * trapq :=
  let gone := filter (fun n => move_end n <? print_time) (history tq) in
  (fold_left (fun u n => move_free u (fst n)) gone used,
   mk_trapq (moves tq)
            (filter (fun n => negb (move_end n <? print_time)) (history tq))).

Fixpoint find_move (l : list node) (print_time : float) : option move :=
  match l with
  | [] => None
  | n :: r =>
      if (print_time >=? Trapq.print_time (snd n)) && (print_time <=? move_end n)
      then Some (snd n) else find_move r print_time
  end.

(** [trapq_get_position]: [None] is the return value -1. *)
Definition trapq_get_position (tq : trapq) (print_time : float) : option coord :=
  match find_move (moves tq) print_time with
  | Some m => Some (move_get_coord m (print_time - Trapq.print_time m))
  | None =>
      match find_move (history tq) print_time with
      | Some m => Some (move_get_coord m (print_time - Trapq.print_time m))
      | None => None
      end
  end.

Definition trapq_has_moves (tq : trapq) : bool :=
  match moves tq with [] => false | _ => true end.

End Trapq.

(* ================================================================== *)
(** * chelper/kin_cartesian.c : direction of a move *)
(* ================================================================== *)

Module Kin.
Import Trapq.
Local Open Scope float_scope.

(** [cartesian_calc_direction]: the length and the unit vector. *)
Definition cartesian_calc_direction (start end_ : coord) : float * coord :=
  let dx := x end_ - x start in
  let dy := y end_ - y start in
  let dz := z end_ - z start in
  let de := e end_ - e start in
  let dist := PrimFloat.sqrt (dx * dx + dy * dy + dz * dz + de * de) in
  if dist <? 1e-9 then (0, mk_coord 0 0 0 0)
  else
    let inv_dist := 1 / dist in
    (dist, mk_coord (dx * inv_dist) (dy * inv_dist) (dz * inv_dist) (de * inv_dist)).

End Kin.

(* ================================================================== *)
(** * src/endstop.c : endstop sampling *)
(* ================================================================== *)

Module Endstop.
Local Open Scope Z_scope.

Inductive endstop_id_t : Set := ENDSTOP_X | ENDSTOP_Y | ENDSTOP_Z.
Inductive stepper_id_t : Set := STEPPER_X | STEPPER_Y | STEPPER_Z | STEPPER_E.

Definition ENDSTOP_SAMPLE_INTERVAL : Z := 1000.

Definition endstop_id_eqb (a b : endstop_id_t) : bool :=
  match a, b with
  | ENDSTOP_X, ENDSTOP_X | ENDSTOP_Y, ENDSTOP_Y | ENDSTOP_Z, ENDSTOP_Z => true
  | _, _ => false
  end.

Section Endstops.

(** [CB] names the functions stored in [callback] (the argument pointer
    is NULL at every registration of the firmware and is left out); [R]
    is what a sample can touch outside [s_endstops]. *)
Variable CB : Type.
Variable R : Type.

(** [endstop_state_t]. *)
Record endstop_state_t : Type := mk_endstop {
  pin : Z;
  invert : bool;
  configured : bool;
  triggered : bool;
  homing : bool;
  stepper_id : stepper_id_t;
  callback : option CB
}.

(** [s_endstops], indexed by [endstop_id_t]. *)
Definition endstops : Type := endstop_id_t -> endstop_state_t.

Definition upd (es : endstops) (id : endstop_id_t) (v : endstop_state_t)
  : endstops :=
  fun j => if endstop_id_eqb j id then v else es j.

Definition set_triggered (e : endstop_state_t) (v : bool) : endstop_state_t :=
  mk_endstop (pin e) (invert e) (configured e) v (homing e) (stepper_id e)
             (callback e).

Variable gpio_in_read : R -> Z -> bool.
Variable stepper_stop : R -> stepper_id_t -> R.
Variable run_callback : CB -> endstop_id_t -> R -> R.

(** [endstop_read_state]. *)
Definition endstop_read_state (e : endstop_state_t) (r : R) : bool :=
  if negb (configured e) then false
  else
    let value := gpio_in_read r (pin e) in
    if invert e then negb value else value.

(** The body of the [for] of [endstop_timer_callback] for one switch. *)
Definition sample_endstop (id : endstop_id_t) (p : endstops * R) : endstops * R :=
  let '(es, r) := p in
  let endstop := es id in
  if negb (configured endstop) then (es, r)
  else
    let state := endstop_read_state endstop r in
    if state && negb (triggered endstop) then
      let es := upd es id (set_triggered endstop true) in
      let r := if homing endstop then stepper_stop r (stepper_id endstop) else r in
      let r := match callback endstop with
               | Some cb => run_callback cb id r
               | None => r
               end in
      (es, r)
    else if negb state && triggered endstop then
      (upd es id (set_triggered endstop false), r)
    else (es, r).

(** [endstop_timer_callback]: the sum is a [uint32_t]. *)
Definition endstop_timer_callback (waketime : Z) (p : endstops * R)
  : Z * (endstops * R) :=
  (Sched.wrap32 (waketime + ENDSTOP_SAMPLE_INTERVAL),
   sample_endstop ENDSTOP_Z (sample_endstop ENDSTOP_Y (sample_endstop ENDSTOP_X p))).

(** [endstop_is_triggered]. *)
Definition endstop_is_triggered (es : endstops) (id : endstop_id_t) : bool :=
  triggered (es id).

(** [endstop_home_start]. *)
Definition endstop_home_start (es : endstops) (id : endstop_id_t) : endstops :=
  let e := es id in
  upd es id (mk_endstop (pin e) (invert e) (configured e) false true
                        (stepper_id e) (callback e)).

(** [endstop_home_end]. *)
Definition endstop_home_end (es : endstops) (id : endstop_id_t) : endstops :=
  let e := es id in
  upd es id (mk_endstop (pin e) (invert e) (configured e) (triggered e) false
                        (stepper_id e) (callback e)).

(** [endstop_set_callback]. *)
Definition endstop_set_callback (es : endstops) (id : endstop_id_t) (cb : CB)
  : endstops :=
  let e := es id in
  upd es id (mk_endstop (pin e) (invert e) (configured e) (triggered e)
                        (homing e) (stepper_id e) (Some cb)).

(** [s_endstops] after [endstop_init]. *)
Definition endstop_init : endstops :=
  fun _ => mk_endstop 0 false false false false STEPPER_X None.

(** [endstop_config]. *)
Definition endstop_config (es : endstops) (id : endstop_id_t)
    (cfg_pin : Z) (cfg_invert : bool) (cfg_stepper : stepper_id_t) : endstops :=
  let e := es id in
  upd es id (mk_endstop cfg_pin cfg_invert true (triggered e) (homing e)
                        cfg_stepper (callback e)).

End Endstops.
End Endstop.

(* ================================================================== *)
(** * src/stepper.c : step pulses and the stepper timer *)
(* ================================================================== *)

Module Stepper.
Import Endstop.
Local Open Scope Z_scope.

(** [stepper_dir_t]. *)
Inductive stepper_dir_t : Set := STEPPER_DIR_FORWARD | STEPPER_DIR_BACKWARD.

(** [stepper_config_t]. *)
Record stepper_config_t : Set := mk_stepper_config {
  step_pin : Z;
  dir_pin : Z;
  enable_pin : Z;
  invert_step : bool;
  invert_dir : bool;
  invert_enable : bool
}.

(** [stepper_state_t]; [dir] only ever holds one of the two directions. *)
Record stepper_state_t : Set := mk_stepper {
  config : stepper_config_t;
  position : Z;
  dir : stepper_dir_t;
  enabled : bool;
  configured : bool;
  interval : Z;
  count : Z;
  next_step_time : Z
}.

(** What [stepper_add_move] reads of a [stepper_move_t]. *)
Record stepper_move_t : Set := mk_stepper_move {
  move_interval : Z;
  move_count : Z;
  move_dir : Z
}.

(** The HAL calls and the calls of the scheduler for [s_stepper_timer]. *)
Inductive stepper_event : Set :=
| Step_setup (pin : Z) (v : bool)
| Step_write (pin : Z) (v : bool)
| Timer_add (waketime : Z)
| Timer_del.

(** [s_steppers], indexed by [stepper_id_t]. *)
Definition steppers : Set := stepper_id_t -> stepper_state_t.

Definition stepper_id_eqb (a b : stepper_id_t) : bool :=
  match a, b with
  | STEPPER_X, STEPPER_X | STEPPER_Y, STEPPER_Y
  | STEPPER_Z, STEPPER_Z | STEPPER_E, STEPPER_E => true
  | _, _ => false
  end.

Definition upd (st : steppers) (id : stepper_id_t) (s : stepper_state_t) : steppers :=
  fun j => if stepper_id_eqb j id then s else st j.

Definition zero_config : stepper_config_t := mk_stepper_config 0 0 0 false false false.

(** [s_steppers] after [stepper_init]; the configuration is left as it
    is. *)
Definition stepper_init (st : steppers) : steppers :=
  fun j => mk_stepper (config (st j)) 0 STEPPER_DIR_FORWARD false false 0 0 0.

(** [stepper_do_step]: the pulse and the position, an [int32_t]. *)
Definition stepper_do_step (s : stepper_state_t) : stepper_state_t * list stepper_event :=
  if negb (configured s) || negb (enabled s) then (s, [])
  else
    let step_value := negb (invert_step (config s)) in
    (mk_stepper (config s)
       (match dir s with
        | STEPPER_DIR_FORWARD => Sched.to_int32 (position s + 1)
        | STEPPER_DIR_BACKWARD => Sched.to_int32 (position s - 1)
        end)
       (dir s) (enabled s) (configured s) (interval s) (count s) (next_step_time s),
     [Step_write (step_pin (config s)) step_value;
      Step_write (step_pin (config s)) (negb step_value)]).

(** [stepper_config] with a non-NULL [config]. *)
Definition stepper_config (st : steppers) (id : stepper_id_t) (cfg : stepper_config_t)
  : steppers * list stepper_event :=
  let s := st id in
  (upd st id (mk_stepper cfg (position s) (dir s) (enabled s) true (interval s)
                         (count s) (next_step_time s)),
   [Step_setup (step_pin cfg) (invert_step cfg);
    Step_setup (dir_pin cfg) (invert_dir cfg);
    Step_setup (enable_pin cfg) (negb (invert_enable cfg))]).

(** [stepper_enable]. *)
Definition stepper_enable (st : steppers) (id : stepper_id_t) (enable : bool)
  : steppers * list stepper_event :=
  let s := st id in
  if negb (configured s) then (st, [])
  else
    let pin_value := negb enable in
    let pin_value := if invert_enable (config s) then negb pin_value else pin_value in
    (upd st id (mk_stepper (config s) (position s) (dir s) enable (configured s)
                           (interval s) (count s) (next_step_time s)),
     [Step_write (enable_pin (config s)) pin_value]).

(** [stepper_set_dir]. *)
Definition stepper_set_dir (st : steppers) (id : stepper_id_t) (d : stepper_dir_t)
  : steppers * list stepper_event :=
  let s := st id in
  if negb (configured s) then (st, [])
  else
    let pin_value := match d with STEPPER_DIR_FORWARD => false | _ => true end in
    let pin_value := if invert_dir (config s) then negb pin_value else pin_value in
    (upd st id (mk_stepper (config s) (position s) d (enabled s) (configured s)
                           (interval s) (count s) (next_step_time s)),
     [Step_write (dir_pin (config s)) pin_value]).

(** [stepper_step]. *)
Definition stepper_step (st : steppers) (id : stepper_id_t)
  : steppers * list stepper_event :=
  let '(s, ev) := stepper_do_step (st id) in (upd st id s, ev).

(** [stepper_get_position], [stepper_set_position]. *)
Definition stepper_get_position (st : steppers) (id : stepper_id_t) : Z :=
  position (st id).

Definition stepper_set_position (st : steppers) (id : stepper_id_t) (p : Z) : steppers :=
  let s := st id in
  upd st id (mk_stepper (config s) p (dir s) (enabled s) (configured s)
                        (interval s) (count s) (next_step_time s)).

(** [stepper_stop]. *)
Definition stepper_stop (st : steppers) (id : stepper_id_t) : steppers :=
  let s := st id in
  upd st id (mk_stepper (config s) (position s) (dir s) (enabled s) (configured s)
                        0 0 (next_step_time s)).

(** [stepper_stop_all]. *)
Definition stepper_stop_all (st : steppers) : steppers * list stepper_event :=
  (stepper_stop (stepper_stop (stepper_stop (stepper_stop st STEPPER_X) STEPPER_Y)
                              STEPPER_Z) STEPPER_E,
   [Timer_del]).

(** [stepper_is_moving]. *)
Definition stepper_is_moving (st : steppers) (id : stepper_id_t) : bool :=
  0 <? count (st id).

Section Clock.

(** The hardware clock behind [sched_get_time] and [sched_is_before]. *)
Variable W : Type.
Variable timer_read_time : W -> Z * W.

(** [sched_is_before]. *)
Definition sched_is_before (time : Z) (w : W) : bool * W :=
  let '(now, w) := timer_read_time w in
  (Sched.sched_time_diff time now <=? 0, w).

(** [stepper_add_move] with a non-NULL [move]. *)
Definition stepper_add_move (st : steppers) (id : stepper_id_t) (move : stepper_move_t)
    (w : W) : Z * steppers * W * list stepper_event :=
  let s := st id in
  if negb (configured s) then (-2, st, w, [])
  else
    let st := upd st id (mk_stepper (config s) (position s) (dir s) (enabled s)
                           (configured s) (move_interval move) (move_count move)
                           (next_step_time s)) in
    let '(st, ev) :=
      stepper_set_dir st id
        (if 0 <=? move_dir move then STEPPER_DIR_FORWARD else STEPPER_DIR_BACKWARD) in
    let '(now, w) := timer_read_time w in
    let s := st id in
    let next := Sched.wrap32 (now + interval s) in
    (0,
     upd st id (mk_stepper (config s) (position s) (dir s) (enabled s) (configured s)
                           (interval s) (count s) next),
     w, ev ++ [Timer_add next]).

(** The locals of [stepper_timer_callback] with what it has done so
    far. *)
Record walk : Type := mk_walk {
  w_steppers : steppers;
  w_world : W;
  min_next_time : Z;
  has_active : bool;
  w_events : list stepper_event
}.

(** The body of the [for] of [stepper_timer_callback] for stepper [i]. *)
Definition stepper_turn (a : walk) (i : stepper_id_t) : walk :=
  let s := w_steppers a i in
  if count s =? 0 then a
  else
    let '(due, w) := sched_is_before (next_step_time s) (w_world a) in
    let '(s, ev) :=
      if due then
        let '(s, ev) := stepper_do_step s in
        let c := Sched.wrap32 (count s - 1) in
        (mk_stepper (config s) (position s) (dir s) (enabled s) (configured s)
                    (interval s) c
                    (if 0 <? c then Sched.wrap32 (next_step_time s + interval s)
                     else next_step_time s),
         ev)
      else (s, []) in
    let st := upd (w_steppers a) i s in
    if 0 <? count s then
      let next_time := next_step_time s in
      mk_walk st w
              (if negb (has_active a)
                  || (Sched.sched_time_diff next_time (min_next_time a) <? 0)
               then next_time else min_next_time a)
              true (w_events a ++ ev)
    else mk_walk st w (min_next_time a) (has_active a) (w_events a ++ ev).

(** [stepper_timer_callback]: the next wake time, 0 for none. *)
Definition stepper_timer_callback (st : steppers) (w : W)
  : Z * steppers * W * list stepper_event :=
  let a := fold_left stepper_turn [STEPPER_X; STEPPER_Y; STEPPER_Z; STEPPER_E]
                     (mk_walk st w 0 false []) in
  (if has_active a then min_next_time a else 0, w_steppers a, w_world a, w_events a).

End Clock.
End Stepper.

(* ================================================================== *)
(** * app/toolhead.c : lookahead planner and motion front end *)
(* ================================================================== *)

Module Toolhead.
Import Trapq Kin.
Local Open Scope float_scope.

Definition MIN_MOVE_DISTANCE : float := 0.000001.
Definition HOMING_SPEED : float := 10.0.
Definition HOMING_RETRACT : float := 5.0.
Definition HOMING_TIMEOUT : float := 30.0.
Definition LOOKAHEAD_SIZE : nat := 16.

Definition TOOLHEAD_OK : Z := 0.
Definition TOOLHEAD_ERR_NULL : Z := -1.
Definition TOOLHEAD_ERR_LIMIT : Z := -2.
Definition TOOLHEAD_ERR_QUEUE : Z := -3.
Definition TOOLHEAD_ERR_HOMING : Z := -5.

(** [lookahead_move_t]; the field [max_velocity] of the C struct is
    [la_max_velocity] here, the name [max_velocity] being the one of the
    configuration. *)
Record lookahead_move_t : Set := mk_la {
  la_start_pos : coord;
  la_end_pos : coord;
  distance : float;
  la_max_velocity : float;
  max_start_v : float;
  max_cruise_v : float;
  max_end_v : float;
  la_start_v : float;
  la_cruise_v : float;
  end_v : float;
  valid : bool
}.

(** [toolhead_config_t]. *)
Record toolhead_config_t : Set := mk_config {
  max_velocity : float;
  max_accel : float;
  max_accel_to_decel : float;
  square_corner_velocity : float
}.

(** [home_state_t] and [home_context_t]. *)
Inductive home_state_t : Set :=
| HOME_STATE_IDLE | HOME_STATE_FAST | HOME_STATE_RETRACT
| HOME_STATE_SLOW | HOME_STATE_DONE | HOME_STATE_ERROR.

Record home_context_t : Set := mk_home_ctx {
  state : home_state_t;
  axis_mask : Z;
  start_time : float;
  triggered : bool
}.

(** The static variables of toolhead.c, with the pool flags of trapq.c.
    [s_min_pos] and [s_max_pos] are arrays indexed by axis, kept as a
    [coord].  The stepper kinematics objects are not modelled:
    [generate_steps] only leaves its argument in [steps_flushed].
    [emitted] is a ghost log of the staging records in the order they were
    handed to [trapq_append]. *)
Record toolhead : Set := mk_toolhead {
  s_current_pos : coord;
  s_commanded_pos : coord;
  s_p_trapq : option trapq;
  move_pool_used : list bool;
  s_print_time : float;
  s_config : toolhead_config_t;
  s_initialized : bool;
  s_lookahead : list lookahead_move_t;
  s_lookahead_head : nat;
  s_lookahead_tail : nat;
  s_lookahead_count : nat;
  s_home_ctx : home_context_t;
  s_min_pos : coord;
  s_max_pos : coord;
  steps_flushed : float;
  emitted : list lookahead_move_t
}.

Definition zero_coord : coord := mk_coord 0 0 0 0.

Definition zero_la : lookahead_move_t :=
  mk_la zero_coord zero_coord 0 0 0 0 0 0 0 0 false.

(** [config_init_defaults] with the constants of config.h. *)
Definition default_config : toolhead_config_t := mk_config 200 3000 (3000 * 0.5) 5.
Definition default_min_pos : coord := mk_coord 0 0 0 (-1e9).
Definition default_max_pos : coord := mk_coord 220 220 250 1e9.

(** Field updates. *)
Definition set_positions (st : toolhead) (cur cmd : coord) : toolhead :=
  mk_toolhead cur cmd (s_p_trapq st) (move_pool_used st) (s_print_time st)
    (s_config st) (s_initialized st) (s_lookahead st) (s_lookahead_head st)
    (s_lookahead_tail st) (s_lookahead_count st) (s_home_ctx st)
    (s_min_pos st) (s_max_pos st) (steps_flushed st) (emitted st).

Definition set_ring (st : toolhead) (buf : list lookahead_move_t)
    (head tail count : nat) : toolhead :=
  mk_toolhead (s_current_pos st) (s_commanded_pos st) (s_p_trapq st)
    (move_pool_used st) (s_print_time st) (s_config st) (s_initialized st)
    buf head tail count (s_home_ctx st)
    (s_min_pos st) (s_max_pos st) (steps_flushed st) (emitted st).

Definition set_queue (st : toolhead) (tq : option trapq) (used : list bool)
  : toolhead :=
  mk_toolhead (s_current_pos st) (s_commanded_pos st) tq used (s_print_time st)
    (s_config st) (s_initialized st) (s_lookahead st) (s_lookahead_head st)
    (s_lookahead_tail st) (s_lookahead_count st) (s_home_ctx st)
    (s_min_pos st) (s_max_pos st) (steps_flushed st) (emitted st).

Definition set_print_time (st : toolhead) (t : float) : toolhead :=
  mk_toolhead (s_current_pos st) (s_commanded_pos st) (s_p_trapq st)
    (move_pool_used st) t (s_config st) (s_initialized st) (s_lookahead st)
    (s_lookahead_head st) (s_lookahead_tail st) (s_lookahead_count st)
    (s_home_ctx st) (s_min_pos st) (s_max_pos st) (steps_flushed st) (emitted st).

Definition set_home_ctx (st : toolhead) (h : home_context_t) : toolhead :=
  mk_toolhead (s_current_pos st) (s_commanded_pos st) (s_p_trapq st)
    (move_pool_used st) (s_print_time st) (s_config st) (s_initialized st)
    (s_lookahead st) (s_lookahead_head st) (s_lookahead_tail st)
    (s_lookahead_count st) h (s_min_pos st) (s_max_pos st)
    (steps_flushed st) (emitted st).

Definition set_min_pos (st : toolhead) (m : coord) : toolhead :=
  mk_toolhead (s_current_pos st) (s_commanded_pos st) (s_p_trapq st)
    (move_pool_used st) (s_print_time st) (s_config st) (s_initialized st)
    (s_lookahead st) (s_lookahead_head st) (s_lookahead_tail st)
    (s_lookahead_count st) (s_home_ctx st) m (s_max_pos st)
    (steps_flushed st) (emitted st).

Definition set_config (st : toolhead) (c : toolhead_config_t) : toolhead :=
  mk_toolhead (s_current_pos st) (s_commanded_pos st) (s_p_trapq st)
    (move_pool_used st) (s_print_time st) c (s_initialized st)
    (s_lookahead st) (s_lookahead_head st) (s_lookahead_tail st)
    (s_lookahead_count st) (s_home_ctx st) (s_min_pos st) (s_max_pos st)
    (steps_flushed st) (emitted st).

Definition set_steps_flushed (st : toolhead) (t : float) : toolhead :=
  mk_toolhead (s_current_pos st) (s_commanded_pos st) (s_p_trapq st)
    (move_pool_used st) (s_print_time st) (s_config st) (s_initialized st)
    (s_lookahead st) (s_lookahead_head st) (s_lookahead_tail st)
    (s_lookahead_count st) (s_home_ctx st) (s_min_pos st) (s_max_pos st)
    t (emitted st).

Definition log_emitted (st : toolhead) (m : lookahead_move_t) : toolhead :=
  mk_toolhead (s_current_pos st) (s_commanded_pos st) (s_p_trapq st)
    (move_pool_used st) (s_print_time st) (s_config st) (s_initialized st)
    (s_lookahead st) (s_lookahead_head st) (s_lookahead_tail st)
    (s_lookahead_count st) (s_home_ctx st) (s_min_pos st) (s_max_pos st)
    (steps_flushed st) (emitted st ++ [m]).

(** Array read and write of [s_lookahead]. *)
Definition la_get (buf : list lookahead_move_t) (i : nat) : lookahead_move_t :=
  nth i buf zero_la.

Fixpoint la_set (buf : list lookahead_move_t) (i : nat) (v : lookahead_move_t)
  : list lookahead_move_t :=
  match buf, i with
  | [], _ => []
  | _ :: r, O => v :: r
  | b :: r, S k => b :: la_set r k v
  end.

(** [calc_move_distance]. *)
Definition calc_move_distance (start end_ : coord) : float :=
  let dx := x end_ - x start in
  let dy := y end_ - y start in
  let dz := z end_ - z start in
  let de := e end_ - e start in
  PrimFloat.sqrt (dx * dx + dy * dy + dz * dz + de * de).

(** [calc_trapezoidal_profile]: the three out-parameters
    [(accel_t, cruise_t, decel_t)].  [cruise_t] has no initial value in
    the caller; every path assigns it. *)
Definition calc_trapezoidal_profile (distance start_v cruise_v end_v accel : float)
  : float * float * float :=
  let '(accel_t, accel_dist) :=
    if cruise_v >? start_v then
      let at_ := (cruise_v - start_v) / accel in
      (at_, (start_v + cruise_v) * 0.5 * at_)
    else (0, 0) in
  let '(decel_t, decel_dist) :=
    if cruise_v >? end_v then
      let dt := (cruise_v - end_v) / accel in
      (dt, (cruise_v + end_v) * 0.5 * dt)
    else (0, 0) in
  let cruise_dist := distance - accel_dist - decel_dist in
  if cruise_dist <? 0 then
    let peak_v_sq := (start_v * start_v + end_v * end_v) * 0.5 + accel * distance in
    let peak_v := PrimFloat.sqrt peak_v_sq in
    let peak_v := if peak_v <? start_v then start_v else peak_v in
    let peak_v := if peak_v <? end_v then end_v else peak_v in
    let accel_t := if peak_v >? start_v then (peak_v - start_v) / accel else 0 in
    let decel_t := if peak_v >? end_v then (peak_v - end_v) / accel else 0 in
    (accel_t, 0, decel_t)
  else
    (accel_t, cruise_dist / cruise_v, decel_t).

(** [calc_junction_velocity].  The configuration fields are [float]s; the
    C forms [deviation] in single precision before widening it, here the
    quotient is taken in double precision.  Collinear moves, the only ones
    in the runs below, leave through the [dot > 0.999] exit before it. *)
Definition calc_junction_velocity (cfg : toolhead_config_t)
    (prev_dir next_dir : coord) (max_v : float) : float :=
  let dot := x prev_dir * x next_dir + y prev_dir * y next_dir
             + z prev_dir * z next_dir in
  if dot <? -0.999 then 0
  else if dot >? 0.999 then max_v
  else
    let sin_half_theta := PrimFloat.sqrt ((1 - dot) * 0.5) in
    let deviation := square_corner_velocity cfg * square_corner_velocity cfg
                     / max_accel cfg in
    let junction_v := PrimFloat.sqrt (max_accel cfg * deviation / sin_half_theta) in
    if junction_v >? max_v then max_v else junction_v.

(** [lookahead_push]: [None] is the return value -1. *)
Definition lookahead_push (st : toolhead) (move : lookahead_move_t)
  : option toolhead :=
  if Nat.leb LOOKAHEAD_SIZE (s_lookahead_count st) then None
  else Some (set_ring st (la_set (s_lookahead st) (s_lookahead_tail st) move)
                      (s_lookahead_head st)
                      ((s_lookahead_tail st + 1) mod LOOKAHEAD_SIZE)
                      (S (s_lookahead_count st))).

(** [lookahead_pop]. *)
Definition lookahead_pop (st : toolhead) : option (lookahead_move_t * toolhead) :=
  match s_lookahead_count st with
  | O => None
  | S c =>
      Some (la_get (s_lookahead st) (s_lookahead_head st),
            set_ring st (s_lookahead st)
                     ((s_lookahead_head st + 1) mod LOOKAHEAD_SIZE)
                     (s_lookahead_tail st) c)
  end.

Definition with_max_end_v (m : lookahead_move_t) (v : float) : lookahead_move_t :=
  mk_la (la_start_pos m) (la_end_pos m) (distance m) (la_max_velocity m)
        (max_start_v m) (max_cruise_v m) v (la_start_v m) (la_cruise_v m)
        (end_v m) (valid m).

Definition with_max_start_v (m : lookahead_move_t) (v : float) : lookahead_move_t :=
  mk_la (la_start_pos m) (la_end_pos m) (distance m) (la_max_velocity m)
        v (max_cruise_v m) (max_end_v m) (la_start_v m) (la_cruise_v m)
        (end_v m) (valid m).

Definition with_velocities (m : lookahead_move_t) (sv cv ev : float)
  : lookahead_move_t :=
  mk_la (la_start_pos m) (la_end_pos m) (distance m) (la_max_velocity m)
        (max_start_v m) (max_cruise_v m) (max_end_v m) sv cv ev (valid m).

(** The reverse loop of [lookahead_process], [n] turns from index [idx]. *)
Fixpoint reverse_pass (cfg : toolhead_config_t) (n : nat) (idx : nat)
    (buf : list lookahead_move_t) : list lookahead_move_t :=
  match n with
  | O => buf
  | S k =>
      let prev_idx := (idx + LOOKAHEAD_SIZE - 1) mod LOOKAHEAD_SIZE in
      let curr := la_get buf idx in
      let prev := la_get buf prev_idx in
      let max_start_v_sq := max_end_v curr * max_end_v curr
                            + 2 * max_accel cfg * distance curr in
      let max_start_v := PrimFloat.sqrt max_start_v_sq in
      let max_start_v :=
        if max_start_v >? max_cruise_v curr then max_cruise_v curr
        else max_start_v in
      let prev_dir := snd (cartesian_calc_direction (la_start_pos prev) (la_end_pos prev)) in
      let curr_dir := snd (cartesian_calc_direction (la_start_pos curr) (la_end_pos curr)) in
      let junction_v := calc_junction_velocity cfg prev_dir curr_dir max_start_v in
      let curr_max_start_v :=
        if junction_v <? max_start_v then junction_v else max_start_v in
      let buf := la_set buf idx (with_max_start_v curr curr_max_start_v) in
      (* [prev] is read again after the write to [curr]: the two indices
         coincide only when the ring holds one slot *)
      let buf := la_set buf prev_idx
                        (with_max_end_v (la_get buf prev_idx) curr_max_start_v) in
      reverse_pass cfg k prev_idx buf
  end.

(** The forward loop of [lookahead_process]. *)
Fixpoint forward_pass (cfg : toolhead_config_t) (n : nat) (idx : nat)
    (prev_end_v : float) (buf : list lookahead_move_t) : list lookahead_move_t :=
  match n with
  | O => buf
  | S k =>
      let move := la_get buf idx in
      let start_v := prev_end_v in
      let max_cruise_v_sq := start_v * start_v
                             + 2 * max_accel cfg * distance move in
      let max_cruise_v := PrimFloat.sqrt max_cruise_v_sq in
      let max_cruise_v :=
        if max_cruise_v >? Toolhead.max_cruise_v move
        then Toolhead.max_cruise_v move else max_cruise_v in
      let cruise_v := max_cruise_v in
      let max_end_v_sq := cruise_v * cruise_v
                          - 2 * max_accel_to_decel cfg * distance move in
      let max_end_v := if max_end_v_sq >? 0 then PrimFloat.sqrt max_end_v_sq else 0 in
      let max_end_v :=
        if max_end_v >? Toolhead.max_end_v move
        then Toolhead.max_end_v move else max_end_v in
      let buf := la_set buf idx (with_velocities move start_v cruise_v max_end_v) in
      forward_pass cfg k ((idx + 1) mod LOOKAHEAD_SIZE) max_end_v buf
  end.

(** [lookahead_process]. *)
Definition lookahead_process (st : toolhead) : toolhead :=
  match s_lookahead_count st with
  | O => st
  | S c =>
      let idx := (s_lookahead_tail st + LOOKAHEAD_SIZE - 1) mod LOOKAHEAD_SIZE in
      let buf := s_lookahead st in
      let buf := la_set buf idx (with_max_end_v (la_get buf idx) 0) in
      let buf := reverse_pass (s_config st) c idx buf in
      let buf := forward_pass (s_config st) (S c) (s_lookahead_head st) 0 buf in
      set_ring st buf (s_lookahead_head st) (s_lookahead_tail st) (S c)
  end.

(** The body shared by the loop of [lookahead_flush] and by the draining
    loop of [toolhead_move]: profile, direction, [trapq_append], advance of
    the print time and of the current position.  With a NULL [s_p_trapq]
    the C would dereference it; no move is ever queued in that state. *)
Definition emit_move (m : lookahead_move_t) (st : toolhead) : toolhead :=
  let '(accel_t, cruise_t, decel_t) :=
    calc_trapezoidal_profile (distance m) (la_start_v m) (la_cruise_v m)
                             (end_v m) (max_accel (s_config st)) in
  let axes_r := snd (cartesian_calc_direction (la_start_pos m) (la_end_pos m)) in
  let st :=
    match s_p_trapq st with
    | None => st
    | Some tq =>
        let '(used, tq') :=
          trapq_append (move_pool_used st) tq (s_print_time st)
                       accel_t cruise_t decel_t (la_start_pos m) axes_r
                       (la_start_v m) (la_cruise_v m) (max_accel (s_config st)) in
        set_queue st (Some tq') used
    end in
  let st := set_print_time st (s_print_time st + (accel_t + cruise_t + decel_t)) in
  let st := set_positions st (la_end_pos m) (s_commanded_pos st) in
  log_emitted st m.

(** [while (lookahead_pop(&move) == 0)]: every successful pop lowers the
    count by one, so [n = s_lookahead_count] turns empty the ring. *)
Fixpoint lookahead_flush_loop (n : nat) (st : toolhead) : toolhead :=
  match n with
  | O => st
  | S k =>
      match lookahead_pop st with
      | None => st
      | Some (move, st1) => lookahead_flush_loop k (emit_move move st1)
      end
  end.

Definition lookahead_flush (st : toolhead) : toolhead :=
  lookahead_flush_loop (s_lookahead_count st) st.

(** [generate_steps]. *)
Definition generate_steps (st : toolhead) (flush_time : float) : toolhead :=
  set_steps_flushed st flush_time.

(** [toolhead_init] on the zeroed static storage. *)
Definition toolhead_init : toolhead :=
  mk_toolhead zero_coord zero_coord (Some (mk_trapq [] [])) trapq_pool_init 0
    default_config true (repeat zero_la LOOKAHEAD_SIZE) 0 0 0
    (mk_home_ctx HOME_STATE_IDLE 0 0 false)
    default_min_pos default_max_pos 0 [].

(** [toolhead_get_position] with a non-NULL argument. *)
Definition toolhead_get_position (st : toolhead) : coord := s_commanded_pos st.

(** [toolhead_set_position]. *)
Definition toolhead_set_position (st : toolhead) (p : coord) : toolhead :=
  set_positions st p p.

(** [while (s_lookahead_count > 2)] of [toolhead_move]. *)
Fixpoint drain_loop (n : nat) (st : toolhead) : toolhead :=
  match n with
  | O => st
  | S k =>
      if Nat.ltb 2 (s_lookahead_count st) then
        match lookahead_pop st with
        | None => st
        | Some (m, st1) => drain_loop k (emit_move m st1)
        end
      else st
  end.

(** [toolhead_move]; [p_end_pos = None] is the NULL pointer. *)
Definition toolhead_move (st : toolhead) (p_end_pos : option coord) (speed : float)
  : Z * toolhead :=
  match p_end_pos with
  | None => (TOOLHEAD_ERR_NULL, st)
  | Some end_pos =>
    match s_p_trapq st with
    | None => (TOOLHEAD_ERR_QUEUE, st)
    | Some _ =>
      let distance := calc_move_distance (s_commanded_pos st) end_pos in
      if distance <? MIN_MOVE_DISTANCE then (TOOLHEAD_OK, st)
      else
        let max_v := speed in
        let max_v := if max_v >? max_velocity (s_config st)
                     then max_velocity (s_config st) else max_v in
        let max_v := if max_v <? 0.001 then max_velocity (s_config st) else max_v in
        if (x end_pos <? x (s_min_pos st)) || (x end_pos >? x (s_max_pos st)) ||
           (y end_pos <? y (s_min_pos st)) || (y end_pos >? y (s_max_pos st)) ||
           (z end_pos <? z (s_min_pos st)) || (z end_pos >? z (s_max_pos st))
        then (TOOLHEAD_ERR_LIMIT, st)
        else
          let move := mk_la (s_commanded_pos st) end_pos distance max_v
                            max_v max_v max_v 0 max_v 0 true in
          let pushed :=
            match lookahead_push st move with
            | Some st1 => Some st1
            | None =>
                let st1 := lookahead_flush (lookahead_process st) in
                match lookahead_push st1 move with
                | Some st2 => Some st2
                | None => None
                end
            end in
          match pushed with
          | None => (TOOLHEAD_ERR_QUEUE, lookahead_flush (lookahead_process st))
          | Some st1 =>
              let st2 := set_positions st1 (s_current_pos st1) end_pos in
              if Nat.leb (LOOKAHEAD_SIZE - 2) (s_lookahead_count st2) then
                let st3 := lookahead_process st2 in
                let st4 := drain_loop (s_lookahead_count st3) st3 in
                (TOOLHEAD_OK, generate_steps st4 (s_print_time st4))
              else (TOOLHEAD_OK, st2)
          end
    end
  end.

(** [toolhead_flush]. *)
Definition toolhead_flush (st : toolhead) : toolhead :=
  let st := lookahead_process st in
  let st := lookahead_flush st in
  let st := generate_steps st (s_print_time st) in
  match s_p_trapq st with
  | None => st
  | Some tq =>
      let tq := trapq_finalize_moves tq (s_print_time st) in
      let '(used, tq) := trapq_free_moves (move_pool_used st) tq (s_print_time st - 1.0) in
      set_queue st (Some tq) used
  end.

(** [toolhead_has_moves]. *)
Definition toolhead_has_moves (st : toolhead) : bool :=
  if Nat.ltb 0 (s_lookahead_count st) then true
  else match s_p_trapq st with
       | Some tq => trapq_has_moves tq
       | None => false
       end.

(** ** Homing and waiting: toolhead.c against the scheduler, the endstops
    and the stepper driver *)

Section Machine.
Import Endstop.

(** [HW] is the state of the hardware and of the driver modules that
    toolhead.c and endstop.c reach only through calls: the clock, the
    GPIO levels, the stepper, PWM and ADC drivers.  Their timer callbacks
    are [hw_timer_callback n]; being file-local to their modules they
    see neither the statics of toolhead.c nor [s_endstops]. *)
Variable HW : Type.
Variable timer_read_time : HW -> Z * HW.
Variable gpio_in_read : HW -> Z -> bool.
Variable stepper_is_moving : HW -> stepper_id_t -> bool.
Variable stepper_stop : HW -> stepper_id_t -> HW.
Variable hw_timer_callback : nat -> Z -> HW -> Z * HW.

(** The one function toolhead.c stores in an endstop. *)
Inductive endstop_cb : Set := home_endstop_callback_fn.

(** The functions a [sched_timer_t] points to. *)
Inductive timer_fn : Set :=
| endstop_timer_fn
| hw_timer_fn (n : nat).

Record machine : Type := mk_machine {
  th : toolhead;
  es : endstops endstop_cb;
  hw : HW
}.

Definition system : Type := Sched.sched_state timer_fn machine.

(** The object [s_stepper_timer] of stepper.c. *)
Definition stepper_timer_tid : nat := 2.

Definition with_triggered (h : home_context_t) (v : bool) : home_context_t :=
  mk_home_ctx (state h) (axis_mask h) (start_time h) v.

Definition with_state (h : home_context_t) (s : home_state_t) : home_context_t :=
  mk_home_ctx s (axis_mask h) (start_time h) (Toolhead.triggered h).

(** [home_endstop_callback]. *)
Definition home_endstop_callback (id : endstop_id_t) (r : toolhead * HW)
  : toolhead * HW :=
  let '(t, h) := r in
  let t := set_home_ctx t (with_triggered (s_home_ctx t) true) in
  match id with
  | ENDSTOP_X => (t, stepper_stop h STEPPER_X)
  | ENDSTOP_Y => (t, stepper_stop h STEPPER_Y)
  | ENDSTOP_Z => (t, stepper_stop h STEPPER_Z)
  end.

Definition run_endstop_cb (cb : endstop_cb) (id : endstop_id_t)
    (r : toolhead * HW) : toolhead * HW :=
  match cb with home_endstop_callback_fn => home_endstop_callback id r end.

(** [gpio_in_read] and [stepper_stop] as the endstop sampling reaches
    them. *)
Definition machine_gpio (r : toolhead * HW) (pin : Z) : bool :=
  gpio_in_read (snd r) pin.

Definition machine_stepper_stop (r : toolhead * HW) (id : stepper_id_t)
  : toolhead * HW :=
  (fst r, stepper_stop (snd r) id).

(** What each timer callback does to the machine. *)
Definition call (f : timer_fn) (waketime : Z) (sys : system) : Z * system :=
  let m := Sched.world sys in
  match f with
  | endstop_timer_fn =>
      let '(next, (es', (t', h'))) :=
        endstop_timer_callback machine_gpio machine_stepper_stop
          run_endstop_cb waketime (es m, (th m, hw m)) in
      (next, Sched.set_world sys (mk_machine t' es' h'))
  | hw_timer_fn n =>
      let '(next, h') := hw_timer_callback n waketime (hw m) in
      (next, Sched.set_world sys (mk_machine (th m) (es m) h'))
  end.

Definition read_time (m : machine) : Z * machine :=
  let '(t, h) := timer_read_time (hw m) in (t, mk_machine (th m) (es m) h).

(** [sched_main()] as linked into the firmware. *)
Definition sched_main (fuel : nat) (sys : system) : option system :=
  Sched.sched_main read_time call fuel sys.

Definition upd_th (f : toolhead -> toolhead) (sys : system) : system :=
  let m := Sched.world sys in
  Sched.set_world sys (mk_machine (f (th m)) (es m) (hw m)).

Definition upd_es (f : endstops endstop_cb -> endstops endstop_cb)
    (sys : system) : system :=
  let m := Sched.world sys in
  Sched.set_world sys (mk_machine (th m) (f (es m)) (hw m)).

Definition upd_hw (f : HW -> HW) (sys : system) : system :=
  let m := Sched.world sys in
  Sched.set_world sys (mk_machine (th m) (es m) (f (hw m))).

Definition sys_th (sys : system) : toolhead := th (Sched.world sys).

(** [stepper_stop_all]. *)
Definition stepper_stop_all (sys : system) : system :=
  let sys := upd_hw (fun h =>
               stepper_stop (stepper_stop (stepper_stop (stepper_stop h
                 STEPPER_X) STEPPER_Y) STEPPER_Z) STEPPER_E) sys in
  Sched.sched_del_timer stepper_timer_tid sys.

Definition any_stepper_moving (sys : system) : bool :=
  let h := hw (Sched.world sys) in
  stepper_is_moving h STEPPER_X || stepper_is_moving h STEPPER_Y ||
  stepper_is_moving h STEPPER_Z || stepper_is_moving h STEPPER_E.

(** The [while] of [toolhead_wait_moves]. *)
Fixpoint wait_steppers (fuel : nat) (sys : system) : option system :=
  match fuel with
  | O => None
  | S n =>
      if any_stepper_moving sys then
        match sched_main n sys with
        | None => None
        | Some sys' => wait_steppers n sys'
        end
      else Some sys
  end.

(** [toolhead_wait_moves]; [s_move_complete_cb] is NULL, no code of the
    firmware registers one. *)
Definition toolhead_wait_moves (fuel : nat) (sys : system) : option system :=
  let sys := upd_th (fun t =>
               let t := lookahead_flush (lookahead_process t) in
               generate_steps t (s_print_time t)) sys in
  match wait_steppers fuel sys with
  | None => None
  | Some sys =>
      Some (upd_th (fun t => set_positions t (s_commanded_pos t) (s_commanded_pos t)) sys)
  end.

Definition AXIS_X_MASK : Z := 1.
Definition AXIS_Y_MASK : Z := 2.
Definition AXIS_Z_MASK : Z := 4.

Definition has_axis (axes_mask mask : Z) : bool :=
  negb (Z.eqb (Z.land axes_mask mask) 0).

(** [if (axes_mask & MASK) { ... }] over the three axes, X first. *)
Definition for_axes {A : Type} (axes_mask : Z) (f : endstop_id_t -> A -> A) (a : A) : A :=
  let a := if has_axis axes_mask AXIS_X_MASK then f ENDSTOP_X a else a in
  let a := if has_axis axes_mask AXIS_Y_MASK then f ENDSTOP_Y a else a in
  if has_axis axes_mask AXIS_Z_MASK then f ENDSTOP_Z a else a.

Definition set_axis (id : endstop_id_t) (v : float) (c : coord) : coord :=
  match id with
  | ENDSTOP_X => mk_coord v (y c) (z c) (e c)
  | ENDSTOP_Y => mk_coord (x c) v (z c) (e c)
  | ENDSTOP_Z => mk_coord (x c) (y c) v (e c)
  end.

Definition get_axis (id : endstop_id_t) (c : coord) : float :=
  match id with
  | ENDSTOP_X => x c
  | ENDSTOP_Y => y c
  | ENDSTOP_Z => z c
  end.

(** The body of the waiting loop of [toolhead_home] up to the call of
    [sched_main]: a latched endstop sets the flag. *)
Definition poll_selected (axes_mask : Z) (sys : system) : system :=
  for_axes axes_mask
    (fun id sys =>
       if endstop_is_triggered (es (Sched.world sys)) id
       then upd_th (fun t => set_home_ctx t (with_triggered (s_home_ctx t) true)) sys
       else sys) sys.

(** [while (!s_home_ctx.triggered && s_print_time < timeout_time)]. *)
Fixpoint home_wait_loop (fuel : nat) (axes_mask : Z) (timeout_time : float)
    (sys : system) : option system :=
  match fuel with
  | O => None
  | S n =>
      if negb (Toolhead.triggered (s_home_ctx (sys_th sys)))
         && (s_print_time (sys_th sys) <? timeout_time)
      then
        match sched_main n (poll_selected axes_mask sys) with
        | None => None
        | Some sys' => home_wait_loop n axes_mask timeout_time sys'
        end
      else Some sys
  end.

(** [toolhead_home] up to the start of the waiting loop. *)
Definition home_start (axes_mask : Z) (sys : system) : system :=
  let sys := upd_es (fun s =>
               for_axes axes_mask
                 (fun id s => endstop_home_start
                                (endstop_set_callback s id home_endstop_callback_fn) id)
                 s) sys in
  upd_th (fun t =>
    let t := set_home_ctx t (mk_home_ctx HOME_STATE_FAST axes_mask
                                         (s_print_time t) false) in
    let home_target :=
      for_axes axes_mask
        (fun id c => set_axis id (get_axis id (s_min_pos t) - 10.0) c)
        (s_commanded_pos t) in
    let t := set_min_pos t (mk_coord (-1e9) (-1e9) (-1e9) (-1e9)) in
    let t := snd (toolhead_move t (Some home_target) (HOMING_SPEED * 2.0)) in
    toolhead_flush t) sys.

(** [toolhead_home] after the waiting loop; [saved_min] is the array
    saved before the move. *)
Definition home_finish (fuel : nat) (axes_mask : Z) (saved_min : coord)
    (sys : system) : option (Z * system) :=
  let sys := stepper_stop_all sys in
  let sys := upd_th (fun t => set_min_pos t saved_min) sys in
  if negb (Toolhead.triggered (s_home_ctx (sys_th sys))) then
    let sys := upd_th (fun t =>
                 set_home_ctx t (with_state (s_home_ctx t) HOME_STATE_ERROR)) sys in
    let sys := upd_es (fun s => for_axes axes_mask
                                  (fun id s => endstop_home_end s id) s) sys in
    Some (TOOLHEAD_ERR_HOMING, sys)
  else
    let sys := upd_th (fun t =>
      let t := set_home_ctx t (mk_home_ctx HOME_STATE_RETRACT
                                 (axis_mask (s_home_ctx t))
                                 (start_time (s_home_ctx t)) false) in
      let retract_target :=
        for_axes axes_mask (fun id c => set_axis id HOMING_RETRACT c)
                 (s_commanded_pos t) in
      let t := set_positions t
                 (for_axes axes_mask (fun id c => set_axis id 0 c) (s_current_pos t))
                 (for_axes axes_mask (fun id c => set_axis id 0 c) (s_commanded_pos t)) in
      let t := snd (toolhead_move t (Some retract_target) HOMING_SPEED) in
      toolhead_flush t) sys in
    match toolhead_wait_moves fuel sys with
    | None => None
    | Some sys =>
        let sys := upd_es (fun s => for_axes axes_mask
                                      (fun id s => endstop_home_end s id) s) sys in
        let sys := upd_th (fun t =>
                     set_home_ctx t (with_state (s_home_ctx t) HOME_STATE_DONE)) sys in
        Some (TOOLHEAD_OK, sys)
    end.

(** [toolhead_home]; [None] when the loops have not ended within [fuel]
    turns each. *)
Definition toolhead_home (fuel : nat) (axes_mask : Z) (sys : system)
  : option (Z * system) :=
  match toolhead_wait_moves fuel sys with
  | None => None
  | Some sys =>
      let saved_min := s_min_pos (sys_th sys) in
      let sys := home_start axes_mask sys in
      let timeout_time := s_print_time (sys_th sys) + HOMING_TIMEOUT in
      match home_wait_loop fuel axes_mask timeout_time sys with
      | None => None
      | Some sys => home_finish fuel axes_mask saved_min sys
      end
  end.

End Machine.

End Toolhead.

(* ================================================================== *)
(** * app/heater.c : thermistor table, PID loop, heater interface *)
(* ================================================================== *)

Module Heater.
Local Open Scope Q_scope.

(** C's [a < b] on floats. *)
Definition Qltb (a b : Q) : bool := negb (Qle_bool b a).

Definition PID_DT : Q := 1 # 10.
Definition PID_INTEGRAL_MAX : Q := 100.
Definition PID_TARGET_CHANGE_THRESHOLD : Q := 10.

Definition HEATER_TEMP_MIN : Q := 0.
Definition HEATER_TEMP_MAX : Q := 300.
Definition HEATER_TEMP_INVALID : Q := -999.
Definition HEATER_TEMP_TOLERANCE : Q := 3.

Definition ADC_MAX_VALUE : Z := 4095.
Definition GPIO_INVALID : Z := 255.

Definition HEATER_HOTEND : Z := 0.
Definition HEATER_BED : Z := 1.
Definition HEATER_COUNT : Z := 2.

(** [s_ntc_table]: ADC value and temperature in tenths of a degree. *)
Definition s_ntc_table : list (Z * Z) :=
  [ (23, 3000); (31, 2900); (41, 2800); (54, 2700); (71, 2600); (93, 2500);
    (120, 2400); (154, 2300); (196, 2200); (248, 2100); (311, 2000);
    (386, 1900); (475, 1800); (578, 1700); (696, 1600); (829, 1500);
    (976, 1400); (1136, 1300); (1307, 1200); (1486, 1100); (1670, 1000);
    (1855, 900); (2037, 800); (2213, 700); (2379, 600); (2534, 500);
    (2676, 400); (2804, 300); (2918, 200); (3018, 100); (3105, 0);
    (3180, -100); (3244, -200) ]%Z.

Definition ntc_first_adc : Z := fst (hd (0, 0)%Z s_ntc_table).
Definition ntc_last_adc : Z := fst (last s_ntc_table (0, 0)%Z).

(** The [for] of [ntc_adc_to_temp]: the first pair of neighbours that
    encloses [adc_value], interpolated. *)
Fixpoint ntc_scan (tbl : list (Z * Z)) (adc_value : Z) : option Q :=
  match tbl with
  | (adc_low, temp_low) :: rest =>
      match rest with
      | (adc_high, temp_high) :: _ =>
          if ((adc_low <=? adc_value) && (adc_value <=? adc_high))%Z then
            let ratio := inject_Z (adc_value - adc_low) / inject_Z (adc_high - adc_low) in
            let temp := inject_Z temp_low + ratio * inject_Z (temp_high - temp_low) in
            Some (temp / 10)
          else ntc_scan rest adc_value
      | [] => None
      end
  | [] => None
  end.

(** [ntc_adc_to_temp]. *)
Definition ntc_adc_to_temp (adc_value : Z) : Q :=
  if ((adc_value <? 0) || (adc_value >? ADC_MAX_VALUE))%Z then HEATER_TEMP_INVALID
  else if (adc_value <? ntc_first_adc)%Z then HEATER_TEMP_MAX
  else if (adc_value >? ntc_last_adc)%Z then HEATER_TEMP_MIN
  else match ntc_scan s_ntc_table adc_value with
       | Some t => t
       | None => HEATER_TEMP_INVALID
       end.

(** [pid_params_t], [heater_config_t], [heater_state_t]. *)
Record pid_params_t : Set := mk_pid { kp : Q; ki : Q; kd : Q }.

Record heater_config_t : Set := mk_heater_config {
  adc_channel : Z;
  pwm_pin : Z;
  max_power : Q;
  pid : pid_params_t
}.

Record heater_state_t : Set := mk_heater_state {
  current_temp : Q;
  target_temp : Q;
  prev_error : Q;
  integral : Q;
  output : Q;
  initialized : bool;
  pwm_enabled : bool
}.

(** What pwmcmds.c was last told for a channel. *)
Record pwm_out : Set := mk_pwm { duty : Q; enabled : bool }.

(** The statics of heater.c and the heater channels of the PWM driver. *)
Record heaters : Set := mk_heaters {
  s_heater_state : list heater_state_t;
  s_module_initialized : bool;
  pwm : list pwm_out
}.

(** [s_heater_config]: pins PB4, PB5; gains of config.h. *)
Definition s_heater_config : list heater_config_t :=
  [ mk_heater_config 0 20 1 (mk_pid (222 # 10) (108 # 100) 114);
    mk_heater_config 1 21 1 (mk_pid 54 (1 # 2) 200) ].

Definition zero_state : heater_state_t := mk_heater_state 0 0 0 0 0 false false.
Definition zero_config : heater_config_t := mk_heater_config 0 0 0 (mk_pid 0 0 0).

(** Zero-initialised static storage. *)
Definition heaters_reset : heaters :=
  mk_heaters [zero_state; zero_state] false [mk_pwm 0 false; mk_pwm 0 false].

Fixpoint list_set {A : Type} (l : list A) (i : nat) (v : A) : list A :=
  match l, i with
  | [], _ => []
  | _ :: r, O => v :: r
  | a :: r, S k => a :: list_set r k v
  end.

(** [heater_id_t] is an unsigned enumeration: [id >= HEATER_COUNT] also
    catches what prints as a negative number. *)
Definition valid_id (id : Z) : bool := ((0 <=? id) && (id <? HEATER_COUNT))%Z.

Definition state_of (m : heaters) (id : Z) : heater_state_t :=
  nth (Z.to_nat id) (s_heater_state m) zero_state.

Definition config_of (id : Z) : heater_config_t :=
  nth (Z.to_nat id) s_heater_config zero_config.

Definition pwm_of (m : heaters) (id : Z) : pwm_out :=
  nth (Z.to_nat id) (pwm m) (mk_pwm 0 false).

Definition set_state (m : heaters) (id : Z) (s : heater_state_t) : heaters :=
  mk_heaters (list_set (s_heater_state m) (Z.to_nat id) s)
             (s_module_initialized m) (pwm m).

Definition set_pwm (m : heaters) (id : Z) (p : pwm_out) : heaters :=
  mk_heaters (s_heater_state m) (s_module_initialized m)
             (list_set (pwm m) (Z.to_nat id) p).

(** [get_adc_gpio]: [GPIO(port, pin)] is [(port << 4) | pin]. *)
Definition get_adc_gpio (channel : Z) : Z :=
  if (channel <=? 7)%Z then Z.lor (Z.shiftl 0 4) channel
  else if (channel <=? 9)%Z then Z.lor (Z.shiftl 1 4) (channel - 8)
  else if (channel <=? 15)%Z then Z.lor (Z.shiftl 2 4) (channel - 10)
  else GPIO_INVALID.

(** [pid_update]: the new state and the returned output. *)
Definition pid_update (state : heater_state_t) (params : pid_params_t)
    (current_temp dt : Q) : Q * heater_state_t :=
  let error := target_temp state - current_temp in
  let integral := integral state + error * dt in
  let integral :=
    if Qltb PID_INTEGRAL_MAX integral then PID_INTEGRAL_MAX
    else if Qltb integral (- PID_INTEGRAL_MAX) then - PID_INTEGRAL_MAX
    else integral in
  let derivative := (error - prev_error state) / dt in
  let output := kp params * error + ki params * integral + kd params * derivative in
  let '(output, integral) :=
    if Qltb output 0 then
      (0, if Qltb error 0 && Qltb integral 0 then integral - error * dt else integral)
    else if Qltb 1 output then
      (1, if Qltb 0 error && Qltb 0 integral then integral - error * dt else integral)
    else (output, integral) in
  (output,
   mk_heater_state (Heater.current_temp state) (target_temp state) error integral
                   output (initialized state) (pwm_enabled state)).

(** [heater_set_pwm]. *)
Definition heater_set_pwm (m : heaters) (id : Z) (duty : Q) : heaters :=
  if negb (valid_id id) then m
  else
    let max_power := max_power (config_of id) in
    let duty := if Qltb max_power duty then max_power else duty in
    set_pwm m id (mk_pwm duty (enabled (pwm_of m id))).

(** [pwm_enable] of a heater channel.  The first enabling also starts the
    software-PWM timer of pwmcmds.c, which only drives output pins; that
    timer is one of the driver timers of the machine and is not part of
    this module's state. *)
Definition pwm_enable (m : heaters) (id : Z) (en : bool) : heaters :=
  set_pwm m id (mk_pwm (duty (pwm_of m id)) en).

(** [heater_init]; [pwm_init] clears the channels of the PWM driver. *)
Definition heater_init (m : heaters) : heaters :=
  if s_module_initialized m then m
  else
    mk_heaters [ mk_heater_state 0 0 0 0 0 true false;
                 mk_heater_state 0 0 0 0 0 true false ]
               true [mk_pwm 0 false; mk_pwm 0 false].

(** [heater_set_temp]. *)
Definition heater_set_temp (m : heaters) (id : Z) (target : Q) : heaters :=
  if negb (valid_id id) then m
  else
    let target :=
      if Qltb target HEATER_TEMP_MIN then HEATER_TEMP_MIN
      else if Qltb HEATER_TEMP_MAX target then HEATER_TEMP_MAX
      else target in
    let s := state_of m id in
    let old_target := target_temp s in
    let target_diff := target - old_target in
    let target_diff := if Qltb target_diff 0 then - target_diff else target_diff in
    let '(prev_error, integral) :=
      if Qltb PID_TARGET_CHANGE_THRESHOLD target_diff then (0, 0)
      else (prev_error s, integral s) in
    if Qle_bool target 0 then
      let m := set_state m id (mk_heater_state (current_temp s) target 0 0 0
                                               (initialized s) (pwm_enabled s)) in
      let m := heater_set_pwm m id 0 in
      let m := pwm_enable m id false in
      let s := state_of m id in
      set_state m id (mk_heater_state (current_temp s) (target_temp s)
                        (Heater.prev_error s) (Heater.integral s) (output s)
                        (initialized s) false)
    else
      let m := set_state m id (mk_heater_state (current_temp s) target prev_error
                                 integral (output s) (initialized s)
                                 (pwm_enabled s)) in
      if negb (pwm_enabled s) then
        let m := pwm_enable m id true in
        let s := state_of m id in
        set_state m id (mk_heater_state (current_temp s) (target_temp s)
                          (Heater.prev_error s) (Heater.integral s) (output s)
                          (initialized s) true)
      else m.

(** [heater_get_temp]; [adc_read] is the converter as it reads at the
    moment of the call. *)
Definition heater_get_temp (adc_read : Z -> Z) (m : heaters) (id : Z) : Q * heaters :=
  if negb (valid_id id) then (HEATER_TEMP_INVALID, m)
  else
    let m := if s_module_initialized m then m else heater_init m in
    let gpio := get_adc_gpio (adc_channel (config_of id)) in
    if (gpio =? GPIO_INVALID)%Z then (HEATER_TEMP_INVALID, m)
    else
      let adc_value := adc_read gpio in
      if (adc_value <? 0)%Z then (HEATER_TEMP_INVALID, m)
      else
        let temp := ntc_adc_to_temp adc_value in
        if negb (Qeq_bool temp HEATER_TEMP_INVALID) then
          let s := state_of m id in
          (temp, set_state m id (mk_heater_state temp (target_temp s) (prev_error s)
                                   (integral s) (output s) (initialized s)
                                   (pwm_enabled s)))
        else (temp, m).

(** [heater_get_target]. *)
Definition heater_get_target (m : heaters) (id : Z) : Q :=
  if negb (valid_id id) then 0 else target_temp (state_of m id).

(** [heater_is_at_target]. *)
Definition heater_is_at_target (adc_read : Z -> Z) (m : heaters) (id : Z)
  : bool * heaters :=
  if negb (valid_id id) then (false, m)
  else
    let '(current, m) := heater_get_temp adc_read m id in
    let target := target_temp (state_of m id) in
    if Qle_bool target 0 then (true, m)
    else
      let diff := current - target in
      let diff := if Qltb diff 0 then - diff else diff in
      (Qle_bool diff HEATER_TEMP_TOLERANCE, m).

(** The body of the [for] of [heater_task] for heater [i]. *)
Definition heater_task_one (adc_read : Z -> Z) (m : heaters) (i : Z) : heaters :=
  let '(current_temp, m) := heater_get_temp adc_read m i in
  if Qeq_bool current_temp HEATER_TEMP_INVALID then heater_set_pwm m i 0
  else if Qle_bool (target_temp (state_of m i)) 0 then
    let s := state_of m i in
    let m := set_state m i (mk_heater_state (Heater.current_temp s) (target_temp s)
                              (prev_error s) (integral s) 0 (initialized s)
                              (pwm_enabled s)) in
    heater_set_pwm m i 0
  else
    let '(output, s) := pid_update (state_of m i) (pid (config_of i)) current_temp PID_DT in
    heater_set_pwm (set_state m i s) i output.

(** [heater_task]. *)
Definition heater_task (adc_read : Z -> Z) (m : heaters) : heaters :=
  if negb (s_module_initialized m) then m
  else heater_task_one adc_read (heater_task_one adc_read m HEATER_HOTEND) HEATER_BED.

(** [heater_get_output]. *)
Definition heater_get_output (m : heaters) (id : Z) : Q :=
  if negb (valid_id id) then -1 else output (state_of m id).

End Heater.

(* ================================================================== *)
(** * app/fan.c : fan speed *)
(* ================================================================== *)

Module Fan.
Local Open Scope Q_scope.
Import Heater.

Definition FAN_COUNT : Z := 2.
Definition FAN_SPEED_MIN : Q := 0.
Definition FAN_SPEED_MAX : Q := 1.

(** [fan_state_t] with the duty last given to the PWM channel. *)
Record fan_state_t : Set := mk_fan {
  speed : Q;
  fan_pwm_enabled : bool;
  fan_duty : Q
}.

Definition fans : Set := list fan_state_t.

Definition fans_reset : fans := [mk_fan 0 false 0; mk_fan 0 false 0].

Definition clamp_speed (v : Q) : Q :=
  if Qltb v FAN_SPEED_MIN then FAN_SPEED_MIN
  else if Qltb FAN_SPEED_MAX v then FAN_SPEED_MAX else v.

(** [fan_set_speed]; the lazy [fan_init] only zeroes what is zero at
    reset. *)
Definition fan_set_speed (m : fans) (id : Z) (speed : Q) : fans :=
  if negb ((0 <=? id) && (id <? FAN_COUNT))%Z then m
  else
    let speed := clamp_speed speed in
    let old := nth (Z.to_nat id) m (mk_fan 0 false 0) in
    if Qle_bool speed 0 then list_set m (Z.to_nat id) (mk_fan speed false (clamp_speed 0))
    else list_set m (Z.to_nat id) (mk_fan speed true (clamp_speed speed)).

(** [fan_get_speed]. *)
Definition fan_get_speed (m : fans) (id : Z) : Q :=
  if negb ((0 <=? id) && (id <? FAN_COUNT))%Z then -1
  else speed (nth (Z.to_nat id) m (mk_fan 0 false 0)).

End Fan.

(* ================================================================== *)
(** * src/pwmcmds.c : the PWM driver *)
(* ================================================================== *)

Module Pwm.
Local Open Scope Z_scope.

(** [pwm_channel_t]. *)
Definition PWM_CHANNEL_HEATER_HOTEND : Z := 0.
Definition PWM_CHANNEL_HEATER_BED : Z := 1.
Definition PWM_CHANNEL_FAN_PART : Z := 2.
Definition PWM_CHANNEL_FAN_HOTEND : Z := 3.
Definition PWM_CHANNEL_COUNT : Z := 4.

Definition PWM_DEFAULT_CYCLE_TIME : Z := 1000.
Definition PWM_RESOLUTION : Z := 8.
Definition PWM_MAX_VALUE : Z := Z.shiftl 1 PWM_RESOLUTION - 1.

(** [pwm_state_t] and [pwm_config_t]. *)
Record pwm_state_t : Set := mk_channel {
  pin : Z;
  configured : bool;
  enabled : bool;
  value : Z;
  max_value : Z;
  cycle_time : Z;
  invert : bool
}.

Record pwm_config_t : Set := mk_pwm_config {
  cfg_pin : Z;
  cfg_cycle_time : Z;
  cfg_max_value : Z;
  cfg_invert : bool;
  cfg_use_hardware : bool
}.

(** What the driver does outside its statics: the HAL calls and the
    registration of [s_pwm_timer]. *)
Inductive pwm_event : Set :=
| Gpio_out_setup (pin : Z) (v : bool)
| Gpio_out_write (pin : Z) (v : bool)
| Pwm_setup (pin : Z) (cycle_time : Z) (v : Z)
| Sched_add_timer (waketime : Z).

(** The statics of pwmcmds.c; [s_pwm_counter] is the [static] local of
    the timer callback. *)
Record pwm_driver : Set := mk_driver {
  s_pwm_channels : list pwm_state_t;
  s_soft_pwm_enabled : bool;
  s_pwm_counter : Z
}.

Definition zero_channel : pwm_state_t := mk_channel 0 false false 0 0 0 false.

(** Zero-initialised static storage. *)
Definition driver_reset : pwm_driver :=
  mk_driver [zero_channel; zero_channel; zero_channel; zero_channel] false 0.

(** [id >= PWM_CHANNEL_COUNT] on the unsigned enumeration. *)
Definition valid_channel (id : Z) : bool := (0 <=? id) && (id <? PWM_CHANNEL_COUNT).

Definition channel (d : pwm_driver) (id : Z) : pwm_state_t :=
  nth (Z.to_nat id) (s_pwm_channels d) zero_channel.

Definition set_channel (d : pwm_driver) (id : Z) (c : pwm_state_t) : pwm_driver :=
  mk_driver (Heater.list_set (s_pwm_channels d) (Z.to_nat id) c)
            (s_soft_pwm_enabled d) (s_pwm_counter d).

(** [pwm_init]: every channel is cleared, whatever was configured. *)
Definition pwm_init (d : pwm_driver) : pwm_driver :=
  let cleared := mk_channel 0 false false 0 PWM_MAX_VALUE PWM_DEFAULT_CYCLE_TIME false in
  mk_driver [cleared; cleared; cleared; cleared] false (s_pwm_counter d).

(** [pwm_config] with a non-NULL [config]. *)
Definition pwm_config (d : pwm_driver) (id : Z) (config : pwm_config_t)
  : Z * pwm_driver * list pwm_event :=
  if negb (valid_channel id) then (-1, d, [])
  else
    let pwm := channel d id in
    let d := set_channel d id
               (mk_channel (cfg_pin config) true (enabled pwm) (value pwm)
                           (cfg_max_value config) (cfg_cycle_time config)
                           (cfg_invert config)) in
    (0, d,
     Gpio_out_setup (cfg_pin config) (cfg_invert config)
     :: (if cfg_use_hardware config
         then [Pwm_setup (cfg_pin config) (cfg_cycle_time config) 0] else [])).

(** [pwm_enable]; [now] is what [sched_get_time] reads. *)
Definition pwm_enable (d : pwm_driver) (id : Z) (enable : bool) (now : Z)
  : pwm_driver * list pwm_event :=
  if negb (valid_channel id) then (d, [])
  else
    let pwm := channel d id in
    let d := set_channel d id
               (mk_channel (pin pwm) (configured pwm) enable (value pwm)
                           (max_value pwm) (cycle_time pwm) (invert pwm)) in
    let off := if negb enable then [Gpio_out_write (pin pwm) (invert pwm)] else [] in
    if enable && negb (s_soft_pwm_enabled d) then
      (mk_driver (s_pwm_channels d) true (s_pwm_counter d),
       off ++ [Sched_add_timer (Sched.wrap32 (now + 1))])
    else (d, off).

(** [pwm_set_value]. *)
Definition pwm_set_value (d : pwm_driver) (id : Z) (v : Z) : pwm_driver :=
  if negb (valid_channel id) then d
  else
    let pwm := channel d id in
    let v := if v >? max_value pwm then max_value pwm else v in
    set_channel d id
      (mk_channel (pin pwm) (configured pwm) (enabled pwm) v
                  (max_value pwm) (cycle_time pwm) (invert pwm)).

(** The body of the [for] of [pwm_timer_callback] for one channel. *)
Definition drive_channel (counter : Z) (pwm : pwm_state_t) : list pwm_event :=
  if negb (configured pwm) || negb (enabled pwm) then []
  else
    let output := counter <? value pwm in
    let output := if invert pwm then negb output else output in
    [Gpio_out_write (pin pwm) output].

(** [pwm_timer_callback]: the counter is a [uint8_t], the wake time a
    [uint32_t]. *)
Definition pwm_timer_callback (d : pwm_driver) (waketime : Z)
  : Z * pwm_driver * list pwm_event :=
  let counter := (s_pwm_counter d + 1) mod 256 in
  (Sched.wrap32 (waketime + PWM_DEFAULT_CYCLE_TIME / PWM_MAX_VALUE),
   mk_driver (s_pwm_channels d) (s_soft_pwm_enabled d) counter,
   flat_map (fun id => drive_channel counter (channel d id))
            [PWM_CHANNEL_HEATER_HOTEND; PWM_CHANNEL_HEATER_BED;
             PWM_CHANNEL_FAN_PART; PWM_CHANNEL_FAN_HOTEND]).

(** [pwm_get_value]. *)
Definition pwm_get_value (d : pwm_driver) (id : Z) : Z :=
  if negb (valid_channel id) then -1
  else if negb (configured (channel d id)) then -2
  else value (channel d id).

(** ** The driver as heater.c and fan.c set it up *)

(** [GPIO_PB6], [GPIO_PB7]. *)
Definition FAN_PART_PIN : Z := Z.lor (Z.shiftl 1 4) 6.
Definition FAN_HOTEND_PIN : Z := Z.lor (Z.shiftl 1 4) 7.

Definition s_heater_pwm_channel : list Z :=
  [PWM_CHANNEL_HEATER_HOTEND; PWM_CHANNEL_HEATER_BED].
Definition s_fan_pwm_channel : list Z := [PWM_CHANNEL_FAN_PART; PWM_CHANNEL_FAN_HOTEND].
Definition s_fan_pins : list Z := [FAN_PART_PIN; FAN_HOTEND_PIN].

(** One turn of the [for] of an init function: [pwm_config] of channel
    [ch] on pin [p]. *)
Definition config_turn (cycle : Z) (acc : pwm_driver * list pwm_event) (chp : Z * Z)
  : pwm_driver * list pwm_event :=
  let '(ch, p) := chp in
  let '(_, d, ev) := pwm_config (fst acc) ch (mk_pwm_config p cycle 255 false false) in
  (d, snd acc ++ ev).

(** The driver calls of [heater_init] when the heater module is not yet
    initialised: [pwm_init], then [pwm_config] of the two heater
    channels. *)
Definition heater_init_pwm (d : pwm_driver) : pwm_driver * list pwm_event :=
  fold_left (config_turn 1000)
            (combine s_heater_pwm_channel
                     (map Heater.pwm_pin Heater.s_heater_config))
            (pwm_init d, []).

(** The driver calls of [fan_init] when the fan module is not yet
    initialised: [pwm_init] again, then [pwm_config] of the two fan
    channels. *)
Definition fan_init_pwm (d : pwm_driver) : pwm_driver * list pwm_event :=
  fold_left (config_turn 40) (combine s_fan_pwm_channel s_fan_pins) (pwm_init d, []).

(** The driver after the init sequence of [main]: [heater_init], then
    [fan_init]. *)
Definition main_init_pwm : pwm_driver :=
  fst (fan_init_pwm (fst (heater_init_pwm driver_reset))).

End Pwm.

(* ================================================================== *)
(** * src/stm32/serial.c : receive ring and line assembly *)
(* ================================================================== *)

Module Serial.
Local Open Scope nat_scope.
Local Open Scope char_scope.

Definition SERIAL_RX_BUFFER_SIZE : nat := 256.
Definition SERIAL_LINE_BUFFER_SIZE : nat := 128.

(** [ring_buffer_t]. *)
Record ring_buffer_t : Set := mk_ring {
  buffer : list ascii;
  head : nat;
  tail : nat;
  count : nat
}.

(** The receive side of the statics of serial.c. *)
Record serial : Set := mk_serial {
  s_rx_buffer : ring_buffer_t;
  s_line_buffer : list ascii;
  s_line_len : nat;
  s_line_ready : bool;
  s_initialized : bool
}.

(** [ring_buffer_put]: 0, or -1 on a full ring. *)
Definition ring_buffer_put (rb : ring_buffer_t) (byte : ascii) : Z * ring_buffer_t :=
  if Nat.leb SERIAL_RX_BUFFER_SIZE (count rb) then ((-1)%Z, rb)
  else
    (0%Z, mk_ring (Heater.list_set (buffer rb) (head rb) byte)
                  ((head rb + 1) mod SERIAL_RX_BUFFER_SIZE) (tail rb) (S (count rb))).

(** [ring_buffer_get]: the byte, or [None] for -1 on an empty ring. *)
Definition ring_buffer_get (rb : ring_buffer_t) : option (ascii * ring_buffer_t) :=
  match count rb with
  | O => None
  | S c =>
      Some (nth (tail rb) (buffer rb) zero,
            mk_ring (buffer rb) (head rb) ((tail rb + 1) mod SERIAL_RX_BUFFER_SIZE) c)
  end.

(** [process_rx_byte], the receive branch of the interrupt handler. *)
Definition process_rx_byte (st : serial) (byte : ascii) : serial :=
  let rx := snd (ring_buffer_put (s_rx_buffer st) byte) in
  if s_line_ready st then
    mk_serial rx (s_line_buffer st) (s_line_len st) (s_line_ready st) (s_initialized st)
  else if (Ascii.eqb byte "010" || Ascii.eqb byte "013")%bool then
    if Nat.ltb 0 (s_line_len st) then
      mk_serial rx (Heater.list_set (s_line_buffer st) (s_line_len st) zero)
                (s_line_len st) true (s_initialized st)
    else
      mk_serial rx (s_line_buffer st) (s_line_len st) (s_line_ready st) (s_initialized st)
  else if (Ascii.eqb byte "008" || Ascii.eqb byte "127")%bool then
    mk_serial rx (s_line_buffer st)
              (if Nat.ltb 0 (s_line_len st) then s_line_len st - 1 else s_line_len st)
              (s_line_ready st) (s_initialized st)
  else if Nat.ltb (s_line_len st) (SERIAL_LINE_BUFFER_SIZE - 1) then
    mk_serial rx (Heater.list_set (s_line_buffer st) (s_line_len st) byte)
              (S (s_line_len st)) (s_line_ready st) (s_initialized st)
  else
    mk_serial rx (s_line_buffer st) (s_line_len st) (s_line_ready st) (s_initialized st).

(** [serial_readline] with a non-NULL [line]: the return value, the
    characters written to [line] in front of the terminator ([None] when
    [line] is not written), and the state. *)
Definition serial_readline (st : serial) (maxlen : nat)
  : Z * option (list ascii) * serial :=
  if Nat.eqb maxlen 0 then ((-1)%Z, None, st)
  else if negb (s_initialized st) then ((-2)%Z, None, st)
  else if negb (s_line_ready st) then (0%Z, None, st)
  else
    let copy_len := s_line_len st in
    let copy_len := if Nat.leb maxlen copy_len then maxlen - 1 else copy_len in
    (Z.of_nat copy_len, Some (firstn copy_len (s_line_buffer st)),
     mk_serial (s_rx_buffer st) (s_line_buffer st) 0 false (s_initialized st)).

(** [serial_line_available]. *)
Definition serial_line_available (st : serial) : bool := s_line_ready st.

(** [serial_rx_clear]. *)
Definition serial_rx_clear (st : serial) : serial :=
  mk_serial (mk_ring (buffer (s_rx_buffer st)) 0 0 0) (s_line_buffer st) 0 false
            (s_initialized st).

End Serial.

(* ================================================================== *)
(** * app/gcode.c : line parser and command dispatcher *)
(* ================================================================== *)

Module Gcode.
Local Open Scope Q_scope.
Local Open Scope char_scope.

Definition GCODE_OK : Z := 0.
Definition GCODE_ERR_NULL : Z := -1.
Definition GCODE_ERR_EMPTY : Z := -2.
Definition GCODE_ERR_COMMENT : Z := -3.
Definition GCODE_ERR_INVALID : Z := -4.
Definition GCODE_ERR_PARAM : Z := -5.
Definition GCODE_ERR_UNKNOWN : Z := -6.

Inductive gcode_mode_t : Set := GCODE_MODE_ABSOLUTE | GCODE_MODE_RELATIVE.

(** [gcode_cmd_t]; [code] is an [int] whose overflow on a very long digit
    string is left out. *)
Record gcode_cmd_t : Set := mk_cmd {
  cmd : ascii;
  code : Z;
  x : Q; y : Q; z : Q; e : Q;
  f : Q;
  s : Q;
  has_x : bool; has_y : bool; has_z : bool; has_e : bool;
  has_f : bool; has_s : bool
}.

(** [gcode_cmd_clear]: the [memset]. *)
Definition gcode_cmd_clear : gcode_cmd_t :=
  mk_cmd zero 0 0 0 0 0 0 0 false false false false false false.

Definition is_digit (c : ascii) : bool :=
  (Nat.leb 48 (nat_of_ascii c) && Nat.leb (nat_of_ascii c) 57)%bool.

Definition digit_val (c : ascii) : Z := Z.of_nat (nat_of_ascii c) - 48.

(** [toupper] in the C locale. *)
Definition toupper (c : ascii) : ascii :=
  if (Nat.leb 97 (nat_of_ascii c) && Nat.leb (nat_of_ascii c) 122)%bool
  then ascii_of_nat (nat_of_ascii c - 32) else c.

(** A C string is the characters in front of its terminator;
    [*str == 0] is the empty string. *)
Fixpoint skip_whitespace (str : string) : string :=
  match str with
  | String c r =>
      if (Ascii.eqb c " " || Ascii.eqb c "009")%bool then skip_whitespace r else str
  | EmptyString => str
  end.

(** The [while (1)] of [parse_float]. *)
Fixpoint parse_float_loop (str : string) (result fraction divisor : Q)
    (has_digits in_fraction : bool) : Q * Q * bool * string :=
  match str with
  | String c r =>
      if is_digit c then
        if in_fraction then
          parse_float_loop r result (fraction + inject_Z (digit_val c) / divisor)
                           (divisor * 10) true in_fraction
        else
          parse_float_loop r (result * 10 + inject_Z (digit_val c)) fraction
                           divisor true in_fraction
      else if (Ascii.eqb c "." && negb in_fraction)%bool then
        parse_float_loop r result fraction divisor has_digits true
      else (result, fraction, has_digits, str)
  | EmptyString => (result, fraction, has_digits, str)
  end.

(** [parse_float]: the value and the end position, [None] for -1. *)
Definition parse_float (str : string) : option (Q * string) :=
  let str := skip_whitespace str in
  let '(negative, str) :=
    match str with
    | String "-" r => (true, r)
    | String "+" r => (false, r)
    | _ => (false, str)
    end in
  let '(result, fraction, has_digits, str) :=
    parse_float_loop str 0 0 10 false false in
  if negb has_digits then None
  else
    let result := result + fraction in
    let result := if negative then - result else result in
    Some (Qred result, str).

(** The digit loop of [parse_command]. *)
Fixpoint parse_code (str : string) (code : Z) : Z * string :=
  match str with
  | String c r => if is_digit c then parse_code r (code * 10 + digit_val c)%Z
                  else (code, str)
  | EmptyString => (code, str)
  end.

(** [parse_command]. *)
Definition parse_command (line : string) (p_cmd : gcode_cmd_t) : Z * gcode_cmd_t :=
  let p_pos := skip_whitespace line in
  let cmd_char := match p_pos with String c _ => toupper c | EmptyString => zero end in
  if (negb (Ascii.eqb cmd_char "G") && negb (Ascii.eqb cmd_char "M"))%bool
  then (GCODE_ERR_INVALID, p_cmd)
  else
    let p_pos := match p_pos with String _ r => r | EmptyString => p_pos end in
    let '(code, _) := parse_code p_pos 0 in
    (GCODE_OK,
     mk_cmd cmd_char code (x p_cmd) (y p_cmd) (z p_cmd) (e p_cmd) (f p_cmd) (s p_cmd)
            (has_x p_cmd) (has_y p_cmd) (has_z p_cmd) (has_e p_cmd)
            (has_f p_cmd) (has_s p_cmd)).

(** The [switch] of [parse_parameters]. *)
Definition store_param (c : gcode_cmd_t) (param_char : ascii) (value : Q)
  : gcode_cmd_t :=
  if Ascii.eqb param_char "X" then
    mk_cmd (cmd c) (code c) value (y c) (z c) (e c) (f c) (s c)
           true (has_y c) (has_z c) (has_e c) (has_f c) (has_s c)
  else if Ascii.eqb param_char "Y" then
    mk_cmd (cmd c) (code c) (x c) value (z c) (e c) (f c) (s c)
           (has_x c) true (has_z c) (has_e c) (has_f c) (has_s c)
  else if Ascii.eqb param_char "Z" then
    mk_cmd (cmd c) (code c) (x c) (y c) value (e c) (f c) (s c)
           (has_x c) (has_y c) true (has_e c) (has_f c) (has_s c)
  else if Ascii.eqb param_char "E" then
    mk_cmd (cmd c) (code c) (x c) (y c) (z c) value (f c) (s c)
           (has_x c) (has_y c) (has_z c) true (has_f c) (has_s c)
  else if Ascii.eqb param_char "F" then
    mk_cmd (cmd c) (code c) (x c) (y c) (z c) (e c) value (s c)
           (has_x c) (has_y c) (has_z c) (has_e c) true (has_s c)
  else if Ascii.eqb param_char "S" then
    mk_cmd (cmd c) (code c) (x c) (y c) (z c) (e c) (f c) value
           (has_x c) (has_y c) (has_z c) (has_e c) (has_f c) true
  else c.

(** The [while] loop of [parse_parameters]; every turn that does
    not leave the loop moves past one character, so [fuel] is the length
    of the line. *)
Fixpoint parse_parameters_loop (fuel : nat) (p_pos : string) (c : gcode_cmd_t)
  : gcode_cmd_t :=
  match fuel with
  | O => c
  | S n =>
      match skip_whitespace p_pos with
      | EmptyString => c
      | String ch r =>
          if (Ascii.eqb ch "010" || Ascii.eqb ch "013" || Ascii.eqb ch ";")%bool then c
          else
            let param_char := toupper ch in
            match parse_float r with
            | Some (value, p_end) =>
                parse_parameters_loop n p_end (store_param c param_char value)
            | None =>
                if (Ascii.eqb (cmd c) "G" && Z.eqb (code c) 28)%bool
                then parse_parameters_loop n r (store_param c param_char 0)
                else parse_parameters_loop n r c
            end
      end
  end.

(** [parse_parameters]. *)
Definition parse_parameters (line : string) (c : gcode_cmd_t) : Z * gcode_cmd_t :=
  let p_pos := skip_whitespace line in
  let p_pos :=
    match p_pos with
    | String ch r =>
        if (Ascii.eqb ch "G" || Ascii.eqb ch "g" || Ascii.eqb ch "M" || Ascii.eqb ch "m")%bool
        then snd (parse_code r 0) else p_pos
    | EmptyString => p_pos
    end in
  (GCODE_OK, parse_parameters_loop (String.length line) p_pos c).

(** [is_supported_gcode]. *)
Definition is_supported_gcode (cmd : ascii) (code : Z) : bool :=
  if Ascii.eqb cmd "G" then
    (Z.eqb code 0 || Z.eqb code 1 || Z.eqb code 28 || Z.eqb code 90 || Z.eqb code 91)%bool
  else if Ascii.eqb cmd "M" then
    (Z.eqb code 104 || Z.eqb code 109 || Z.eqb code 106 || Z.eqb code 107
     || Z.eqb code 114)%bool
  else false.

(** [gcode_parse_line] with non-NULL arguments. *)
Definition gcode_parse_line (line : string) : Z * gcode_cmd_t :=
  let p_cmd := gcode_cmd_clear in
  let p_pos := skip_whitespace line in
  match p_pos with
  | EmptyString => (GCODE_ERR_EMPTY, p_cmd)
  | String c _ =>
      if (Ascii.eqb c "010" || Ascii.eqb c "013")%bool then (GCODE_ERR_EMPTY, p_cmd)
      else if Ascii.eqb c ";" then (GCODE_ERR_COMMENT, p_cmd)
      else
        let '(ret, p_cmd) := parse_command p_pos p_cmd in
        if negb (Z.eqb ret GCODE_OK) then (ret, p_cmd)
        else if negb (is_supported_gcode (cmd p_cmd) (code p_cmd))
        then (GCODE_ERR_UNKNOWN, p_cmd)
        else parse_parameters p_pos p_cmd
  end.

(** The statics of gcode.c. *)
Record gcode_state : Set := mk_gstate {
  s_coord_mode : gcode_mode_t;
  s_pos_x : Q; s_pos_y : Q; s_pos_z : Q; s_pos_e : Q;
  s_feedrate : Q
}.

Definition gcode_initial : gcode_state :=
  mk_gstate GCODE_MODE_ABSOLUTE 0 0 0 0 3000.

(** What goes out on the serial line: a text followed by CR LF, or the
    [serial_printf] of M114 with its eight integer arguments. *)
Inductive serial_out : Set :=
| Line (msg : string)
| Position_report (args : list Z).

Definition HOME_X_AXIS : Z := 1.
Definition HOME_Y_AXIS : Z := 2.
Definition HOME_Z_AXIS : Z := 4.

(** The cast [(int)] of a float: truncation toward zero. *)
Definition to_int (q : Q) : Z := Z.quot (Qnum q) (Zpos (Qden q)).

Section Dispatcher.

(** The functions gcode.c calls through weak symbols, over the state [B]
    of whatever implements them.  [toolhead_get_position] also sees the
    statics of gcode.c, which the weak default reads.  [toolhead_home]
    may fail to return ([None]). *)
Variable B : Type.

Record backend : Type := mk_backend {
  toolhead_move : B -> Q -> Q -> Q -> Q -> Q -> Z * B;
  toolhead_home : B -> Z -> option (Z * B);
  toolhead_get_position : gcode_state -> B -> Q * Q * Q * Q;
  heater_set_temp : B -> Z -> Q -> B;
  heater_is_at_target : B -> Z -> bool * B;
  fan_set_speed : B -> Z -> Q -> B
}.

Variable K : backend.

Definition state : Type := (gcode_state * B)%type.

(** The target and the speed [execute_g0_g1] hands to [toolhead_move],
    with the feedrate it leaves behind. *)
Definition g0_g1_target (p_cmd : gcode_cmd_t) (st : state) : Q * Q * Q * Q :=
  let '(g, b) := st in
  let '(tx, ty, tz, te) := toolhead_get_position K g b in
  match s_coord_mode g with
  | GCODE_MODE_ABSOLUTE =>
      (if has_x p_cmd then x p_cmd else tx,
       if has_y p_cmd then y p_cmd else ty,
       if has_z p_cmd then z p_cmd else tz,
       if has_e p_cmd then e p_cmd else te)
  | GCODE_MODE_RELATIVE =>
      (if has_x p_cmd then tx + x p_cmd else tx,
       if has_y p_cmd then ty + y p_cmd else ty,
       if has_z p_cmd then tz + z p_cmd else tz,
       if has_e p_cmd then te + e p_cmd else te)
  end.

Definition g0_g1_feedrate (p_cmd : gcode_cmd_t) (g : gcode_state) : Q :=
  if has_f p_cmd then f p_cmd else s_feedrate g.

(** The call of [toolhead_move] in [execute_g0_g1], with its result. *)
Definition g0_g1_move (p_cmd : gcode_cmd_t) (st : state) : Z * B :=
  let '(g, b) := st in
  let '(tx, ty, tz, te) := g0_g1_target p_cmd st in
  let speed := g0_g1_feedrate p_cmd g / 60 in
  toolhead_move K b tx ty tz te speed.

(** [execute_g0_g1]: the result of [toolhead_move] is dropped. *)
Definition execute_g0_g1 (p_cmd : gcode_cmd_t) (st : state) : Z * state :=
  let '(g, b) := st in
  let '(tx, ty, tz, te) := g0_g1_target p_cmd st in
  let feedrate := g0_g1_feedrate p_cmd g in
  let '(_, b) := g0_g1_move p_cmd st in
  (0%Z, (mk_gstate (s_coord_mode g) tx ty tz te feedrate, b)).

(** [execute_g28]. *)
Definition execute_g28 (p_cmd : gcode_cmd_t) (st : state) : option (Z * state) :=
  let '(g, b) := st in
  let axes_mask := 0%Z in
  let axes_mask := if has_x p_cmd then Z.lor axes_mask HOME_X_AXIS else axes_mask in
  let axes_mask := if has_y p_cmd then Z.lor axes_mask HOME_Y_AXIS else axes_mask in
  let axes_mask := if has_z p_cmd then Z.lor axes_mask HOME_Z_AXIS else axes_mask in
  let axes_mask := if Z.eqb axes_mask 0
                   then Z.lor (Z.lor HOME_X_AXIS HOME_Y_AXIS) HOME_Z_AXIS
                   else axes_mask in
  match toolhead_home K b axes_mask with
  | None => None
  | Some (_, b) =>
      let on m := negb (Z.eqb (Z.land axes_mask m) 0) in
      Some (0%Z,
            (mk_gstate (s_coord_mode g)
                       (if on HOME_X_AXIS then 0 else s_pos_x g)
                       (if on HOME_Y_AXIS then 0 else s_pos_y g)
                       (if on HOME_Z_AXIS then 0 else s_pos_z g)
                       (s_pos_e g) (s_feedrate g), b))
  end.

Definition set_mode (g : gcode_state) (m : gcode_mode_t) : gcode_state :=
  mk_gstate m (s_pos_x g) (s_pos_y g) (s_pos_z g) (s_pos_e g) (s_feedrate g).

(** [execute_g90], [execute_g91]. *)
Definition execute_g90 (st : state) : Z * state :=
  (0%Z, (set_mode (fst st) GCODE_MODE_ABSOLUTE, snd st)).

Definition execute_g91 (st : state) : Z * state :=
  (0%Z, (set_mode (fst st) GCODE_MODE_RELATIVE, snd st)).

(** [execute_m104]. *)
Definition execute_m104 (p_cmd : gcode_cmd_t) (st : state) : Z * state :=
  let '(g, b) := st in
  let b := if has_s p_cmd then heater_set_temp K b Heater.HEATER_HOTEND (s p_cmd)
           else b in
  (0%Z, (g, b)).

(** [execute_m109]: the [while] tests [heater_is_at_target] once and its
    body is a [break]. *)
Definition execute_m109 (p_cmd : gcode_cmd_t) (st : state) : Z * state :=
  let '(g, b) := st in
  let b := if has_s p_cmd then heater_set_temp K b Heater.HEATER_HOTEND (s p_cmd)
           else b in
  let '(_, b) := heater_is_at_target K b Heater.HEATER_HOTEND in
  (0%Z, (g, b)).

(** [execute_m106]. *)
Definition execute_m106 (p_cmd : gcode_cmd_t) (st : state) : Z * state :=
  let '(g, b) := st in
  let speed :=
    if has_s p_cmd then
      let speed := s p_cmd / 255 in
      if Heater.Qltb 1 speed then 1
      else if Heater.Qltb speed 0 then 0 else speed
    else 1 in
  (0%Z, (g, fan_set_speed K b 0%Z speed)).

(** [execute_m107]. *)
Definition execute_m107 (st : state) : Z * state :=
  (0%Z, (fst st, fan_set_speed K (snd st) 0%Z 0)).

(** [execute_m114]: the arguments of the [serial_printf]. *)
Definition execute_m114 (st : state) : Z * serial_out :=
  let '(px, py, pz, pe) := toolhead_get_position K (fst st) (snd st) in
  let frac v := to_int ((v - inject_Z (to_int v)) * 100) in
  (0%Z, Position_report [to_int px; frac px; to_int py; frac py;
                         to_int pz; frac pz; to_int pe; frac pe]).

(** [gcode_execute]: return value, state, and what M114 printed. *)
Definition gcode_execute (p_cmd : gcode_cmd_t) (st : state)
  : option (Z * state * list serial_out) :=
  let ret (r : Z * state) := Some (fst r, snd r, []) in
  if Ascii.eqb (cmd p_cmd) "G" then
    if (Z.eqb (code p_cmd) 0 || Z.eqb (code p_cmd) 1)%bool then ret (execute_g0_g1 p_cmd st)
    else if Z.eqb (code p_cmd) 28 then
      match execute_g28 p_cmd st with
      | None => None
      | Some r => ret r
      end
    else if Z.eqb (code p_cmd) 90 then ret (execute_g90 st)
    else if Z.eqb (code p_cmd) 91 then ret (execute_g91 st)
    else Some (GCODE_ERR_UNKNOWN, st, [])
  else if Ascii.eqb (cmd p_cmd) "M" then
    if Z.eqb (code p_cmd) 104 then ret (execute_m104 p_cmd st)
    else if Z.eqb (code p_cmd) 109 then ret (execute_m109 p_cmd st)
    else if Z.eqb (code p_cmd) 106 then ret (execute_m106 p_cmd st)
    else if Z.eqb (code p_cmd) 107 then ret (execute_m107 st)
    else if Z.eqb (code p_cmd) 114 then
      let '(r, out) := execute_m114 st in Some (r, st, [out])
    else Some (GCODE_ERR_UNKNOWN, st, [])
  else Some (GCODE_ERR_UNKNOWN, st, []).

(** [gcode_process] once a line has been read into [s_line_buffer]:
    the state afterwards and the serial output, in order. *)
Definition gcode_process (line : string) (st : state)
  : option (state * list serial_out) :=
  let '(ret, cmd) := gcode_parse_line line in
  if Z.eqb ret GCODE_OK then
    match gcode_execute cmd st with
    | None => None
    | Some (ret, st, out) =>
        if Z.eqb ret GCODE_OK then Some (st, out ++ [Line "ok"])
        else Some (st, out ++ [Line "error: execution failed"])
    end
  else if (Z.eqb ret GCODE_ERR_EMPTY || Z.eqb ret GCODE_ERR_COMMENT)%bool
  then Some (st, [Line "ok"])
  else if Z.eqb ret GCODE_ERR_UNKNOWN then Some (st, [Line "error: unknown command"])
  else if Z.eqb ret GCODE_ERR_INVALID then Some (st, [Line "error: invalid command"])
  else Some (st, [Line "error: parse error"]).

End Dispatcher.

(** The weak definitions of gcode.c itself. *)
Definition weak_backend : backend unit :=
  mk_backend
    (fun b _ _ _ _ _ => (0%Z, b))
    (fun b _ => Some (0%Z, b))
    (fun g _ => (s_pos_x g, s_pos_y g, s_pos_z g, s_pos_e g))
    (fun b _ _ => b)
    (fun b _ => (true, b))
    (fun b _ _ => b).

End Gcode.

(* ================================================================== *)
(** * The linked firmware: gcode.c over toolhead.c, heater.c and fan.c *)
(* ================================================================== *)

Module Firmware.
Import Trapq.

Section Linked.

(** The hardware of [Toolhead.Machine], its ADC, and the bound on the
    turns of each waiting loop of a homing run. *)
Variable HW : Type.
Variable timer_read_time : HW -> Z * HW.
Variable gpio_in_read : HW -> Z -> bool.
Variable stepper_is_moving : HW -> Endstop.stepper_id_t -> bool.
Variable stepper_stop : HW -> Endstop.stepper_id_t -> HW.
Variable hw_timer_callback : nat -> Z -> HW -> Z * HW.
Variable adc_read : HW -> Z -> Z.
Variable fuel : nat.

Record firmware : Type := mk_firmware {
  sys : Toolhead.system HW;
  heat : Heater.heaters;
  fan : Fan.fans
}.

Definition fw_hw (b : firmware) : HW := Toolhead.hw (Sched.world (sys b)).

(** gcode.c declares [toolhead_move] over five [float]s and
    [toolhead_get_position] over four [float*]; toolhead.c defines both
    over a [struct coord*].  No file converts between the two, and C does
    not say what a call through the wrong prototype does: what the two
    motion calls of the dispatcher do on the linked firmware is left
    open. *)
Variable linked_move : firmware -> Q -> Q -> Q -> Q -> Q -> Z * firmware.
Variable linked_position : Gcode.gcode_state -> firmware -> Q * Q * Q * Q.

(** The calls whose prototypes agree: [toolhead_home], [heater_set_temp],
    [heater_is_at_target] and [fan_set_speed] reach toolhead.c, heater.c
    and fan.c. *)
Definition linked_backend : Gcode.backend firmware :=
  Gcode.mk_backend
    linked_move
    (fun b axes_mask =>
       match Toolhead.toolhead_home timer_read_time gpio_in_read stepper_is_moving
               stepper_stop hw_timer_callback fuel axes_mask (sys b) with
       | None => None
       | Some (rc, s) => Some (rc, mk_firmware s (heat b) (fan b))
       end)
    linked_position
    (fun b id target =>
       mk_firmware (sys b) (Heater.heater_set_temp (heat b) id target) (fan b))
    (fun b id =>
       let '(r, h) := Heater.heater_is_at_target (adc_read (fw_hw b)) (heat b) id in
       (r, mk_firmware (sys b) h (fan b)))
    (fun b id speed =>
       mk_firmware (sys b) (heat b) (Fan.fan_set_speed (fan b) id speed)).

(** The state [main] enters its loop with: [sched_init],
    [toolhead_init], [heater_init], [fan_init], [gcode_init].  main.c
    neither configures an endstop nor starts the sampling timer, so
    [s_endstops] is its zeroed storage and the timer list is empty. *)
Definition boot (h : HW) : firmware :=
  mk_firmware
    (Sched.mk_sched [] false
       (Toolhead.mk_machine Toolhead.toolhead_init
          (Endstop.endstop_init Toolhead.endstop_cb) h))
    (Heater.heater_init Heater.heaters_reset)
    Fan.fans_reset.

End Linked.
End Firmware.

Unset Implicit Arguments.

(* ================================================================== *)
(** * Predicates and runs the statements below are about *)
(* ================================================================== *)

Module SchedCases.
Import Sched.
Local Open Scope Z_scope.

(** A 1000-tick periodic timer whose wake time is 2^32 - 1000: the next
    wake time wraps to 0 and the pump leaves the list empty. *)
Definition wrap_clock (w : Z) : sched_time_t * Z := (w, w).
Definition wrap_call (_ : unit) (waketime : sched_time_t) (st : sched_state unit Z)
  : sched_time_t * sched_state unit Z := (wrap32 (waketime + 1000), st).
Definition wrap_timer : sched_timer_t unit := mk_timer 1 (2 ^ 32 - 1000) (Some tt).
Definition wrap_state : sched_state unit Z := mk_sched [wrap_timer] false (2 ^ 32 - 1000).

(** Wake times are compared inside a window of 2^31 ticks that starts at
    [base]: [offset] is how far into the window a timer wakes. *)
Definition offset (F : Type) (base : sched_time_t) (t : sched_timer_t F) : Z :=
  wrap32 (waketime t - base).

Definition in_window (F : Type) (base : sched_time_t) (l : list (sched_timer_t F))
  : Prop :=
  forall t, In t l -> offset F base t < 2 ^ 31.

(** The list wakes in order: no timer before one that wakes earlier. *)
Fixpoint ordered (F : Type) (base : sched_time_t) (l : list (sched_timer_t F)) : Prop :=
  match l with
  | a :: r =>
      match r with
      | b :: _ => offset F base a <= offset F base b
      | [] => True
      end /\ ordered F base r
  | [] => True
  end.

(** Two timers on either side of the wrap of the counter, and a third
    that wakes between them. *)
Definition before_wrap : sched_timer_t unit := mk_timer 1 (2 ^ 32 - 400) (Some tt).
Definition after_wrap : sched_timer_t unit := mk_timer 2 100 (Some tt).
Definition at_wrap : sched_timer_t unit := mk_timer 3 (2 ^ 32 - 100) (Some tt).
Definition two_timers : sched_state unit Z :=
  mk_sched [before_wrap; after_wrap] false 0.

End SchedCases.

Module PlannerCases.
Import Trapq Kin Toolhead.
Local Open Scope float_scope.

Definition full_pool : list bool := repeat true TRAPQ_MAX_MOVES.
Definition empty_queue : trapq := mk_trapq [] [].
Definition origin : coord := mk_coord 0 0 0 0.
Definition x_dir : coord := mk_coord 1 0 0 0.

(** [n] successive [toolhead_move] calls along X, each [step] further
    than the one before, with the return values in order. *)
Fixpoint line_x (n : nat) (from step speed : float) (st : toolhead)
  : list Z * toolhead :=
  match n with
  | O => ([], st)
  | S k =>
      let target := from + step in
      let '(rc, st1) := toolhead_move st (Some (mk_coord target 0 0 0)) speed in
      let '(rcs, st2) := line_x k target step speed st1 in
      (rc :: rcs, st2)
  end.

(** Fourteen 2.5 mm moves at 100 mm/s, then [toolhead_flush]. *)
Definition fourteen_moves : toolhead :=
  toolhead_flush (snd (line_x 14 0 2.5 100 toolhead_init)).

(** Twenty-six such moves and no flush: the planner drains twice. *)
Definition twenty_six_moves : toolhead := snd (line_x 26 0 2.5 100 toolhead_init).

Definition queued (st : toolhead) : list move :=
  match s_p_trapq st with
  | Some tq => map snd (history tq ++ moves tq)
  | None => []
  end.

(** One 7.5 mm move at 200 mm/s, flushed. *)
Definition short_fast_move : toolhead :=
  toolhead_flush (snd (toolhead_move toolhead_init (Some (mk_coord 7.5 0 0 0)) 200)).

(** Thirty-seven 2.5 mm moves in a row, none flushed by the caller. *)
Definition after_37_moves : toolhead := snd (line_x 37 0 2.5 100 toolhead_init).

Definition free_slots (st : toolhead) : nat :=
  List.length (filter negb (move_pool_used st)).

(** The [k]-th slot of the ring counted from [idx]. *)
Definition slot (idx k : nat) : nat := (idx + k) mod LOOKAHEAD_SIZE.

(** The shape of the lookahead ring: [LOOKAHEAD_SIZE] slots, the head
    index inside the array, the count within the capacity. *)
Definition ring_ok (st : toolhead) : Prop :=
  List.length (s_lookahead st) = LOOKAHEAD_SIZE /\
  (s_lookahead_head st < LOOKAHEAD_SIZE)%nat /\
  (s_lookahead_count st <= LOOKAHEAD_SIZE)%nat.

(** The states of the planner a caller can bring about: after
    [toolhead_init], any sequence of [toolhead_move],
    [toolhead_set_position] and [toolhead_flush]. *)
Inductive planned : toolhead -> Prop :=
| planned_init : planned toolhead_init
| planned_move st p speed : planned st -> planned (snd (toolhead_move st p speed))
| planned_set_position st p : planned st -> planned (toolhead_set_position st p)
| planned_flush st : planned st -> planned (toolhead_flush st).

(** The moves a [toolhead_flush] in state [st] hands to the queue. *)
Definition flushed_batch (st : toolhead) : list lookahead_move_t :=
  skipn (List.length (emitted st)) (emitted (toolhead_flush st)).

(** Five 2.5 mm moves waiting in the ring. *)
Definition five_waiting : toolhead := snd (line_x 5 0 2.5 100 toolhead_init).

(** The stored duration of a queued move is the sum of its phase times. *)
Definition duration_is_sum (m : move) : Prop :=
  move_t m = accel_t m + cruise_t m + decel_t m.

Definition queue_closed (st : toolhead) : Prop :=
  forall m, In m (queued st) -> duration_is_sum m.

(** The pool slots the queue holds, history first. *)
Definition slots_of (tq : trapq) : list nat := map fst (history tq ++ moves tq).

(** Pool and queue agree: no slot is linked twice, and the flag of a slot
    is set exactly when a queued move lives in it. *)
Definition pool_ok (used : list bool) (tq : trapq) : Prop :=
  List.length used = TRAPQ_MAX_MOVES /\
  NoDup (slots_of tq) /\
  forall i, nth i used false = true <-> In i (slots_of tq).

Definition planner_pool_ok (st : toolhead) : Prop :=
  exists tq, s_p_trapq st = Some tq /\ pool_ok (move_pool_used st) tq.

(** A pool whose first two slots are taken. *)
Definition two_taken : list bool := true :: true :: repeat false 30.

(** The moves waiting in the ring, oldest first. *)
Definition waiting (st : toolhead) : list lookahead_move_t :=
  map (fun k => la_get (s_lookahead st) (slot (s_lookahead_head st) k))
      (seq 0 (s_lookahead_count st)).

(** The ring with its write index where the count says it is. *)
Definition fifo_ok (st : toolhead) : Prop :=
  ring_ok st /\
  s_lookahead_tail st = slot (s_lookahead_head st) (s_lookahead_count st).


End PlannerCases.

Module HomingProps.
Import Toolhead.

Section Switches.

Variable HW : Type.
Variable gpio_in_read : HW -> Z -> bool.

Definition es_of (sys : system HW) : Endstop.endstops endstop_cb :=
  es (Sched.world sys).

(** A switch that never reads active, whatever the hardware does, and
    whose latch is clear. *)
Definition switch_idle (e : Endstop.endstop_state_t endstop_cb) : Prop :=
  forall r : toolhead * HW, Endstop.endstop_read_state (machine_gpio gpio_in_read) e r = false.

Definition quiet (s : Endstop.endstops endstop_cb) : Prop :=
  forall id, switch_idle (s id) /\ Endstop.triggered (s id) = false.

End Switches.

(** The axis limits of the planner. *)
Definition limits (t : toolhead) : Trapq.coord * Trapq.coord := (s_min_pos t, s_max_pos t).

(** The bit of an axis in the mask of [toolhead_home]. *)
Definition axis_bit (id : Endstop.endstop_id_t) : Z :=
  match id with
  | Endstop.ENDSTOP_X => AXIS_X_MASK
  | Endstop.ENDSTOP_Y => AXIS_Y_MASK
  | Endstop.ENDSTOP_Z => AXIS_Z_MASK
  end.

End HomingProps.

Module HomingCases.
Import Toolhead.
Local Open Scope Z_scope.

(** A rig for homing runs: the X switch on pin 0 feeds stepper X, the
    sampling timer of endstop.c is registered 1000 ticks ahead, the clock
    moves on 400 ticks at every reading, no stepper is moving. *)
Definition rig_clock (h : Z) : Z * Z := (h, Sched.wrap32 (h + 400)).
Definition rig_moving (_ : Z) (_ : Endstop.stepper_id_t) : bool := false.
Definition rig_stop (h : Z) (_ : Endstop.stepper_id_t) : Z := h.
Definition rig_timer (_ : nat) (_ : Z) (h : Z) : Z * Z := (0, h).

(** The switch held closed, and the switch left open. *)
Definition switch_closed (_ : Z) (_ : Z) : bool := true.
Definition switch_open (_ : Z) (_ : Z) : bool := false.

Definition endstop_timer_tid : nat := 1.

Definition rig : system Z :=
  Sched.mk_sched
    [Sched.mk_timer endstop_timer_tid 1000 (Some endstop_timer_fn)] false
    (mk_machine toolhead_init
       (Endstop.endstop_config (Endstop.endstop_init endstop_cb)
          Endstop.ENDSTOP_X 0 false Endstop.STEPPER_X)
       0).

End HomingCases.

Module HeaterProps.
Import Heater.
Local Open Scope Q_scope.

Definition Inv (s : heater_state_t) : Prop :=
  - PID_INTEGRAL_MAX <= integral s <= PID_INTEGRAL_MAX /\
  0 <= output s <= 1 /\
  HEATER_TEMP_MIN <= target_temp s <= HEATER_TEMP_MAX.

Definition duty_ok (p : pwm_out) : Prop := 0 <= duty p <= 1.

Definition module_inv (m : heaters) : Prop :=
  exists a b p q,
    s_heater_state m = [a; b] /\ pwm m = [p; q] /\
    Inv a /\ Inv b /\ duty_ok p /\ duty_ok q.

Definition ntc_in_range (adc : Z) : bool :=
  let t := ntc_adc_to_temp adc in
  Qeq_bool t HEATER_TEMP_INVALID || (Qle_bool (-20) t && Qle_bool t 300).

(** The bounds a heater satisfies after its turn of [heater_task]. *)
Definition tick_bounds (m : heaters) (i : Z) : Prop :=
  0 <= output (state_of m i) <= max_power (config_of i) /\
  Qabs (integral (state_of m i)) <= PID_INTEGRAL_MAX /\
  0 <= duty (pwm_of m i) <= max_power (config_of i).

(** The states of the module a run of the firmware can be in: zeroed
    storage, then any sequence of calls of the functions of heater.h with
    any arguments and any ADC readings. *)
Inductive reachable : heaters -> Prop :=
| reach_reset : reachable heaters_reset
| reach_init m : reachable m -> reachable (heater_init m)
| reach_set_temp m id target :
    reachable m -> reachable (heater_set_temp m id target)
| reach_get_temp m adc_read id :
    reachable m -> reachable (snd (heater_get_temp adc_read m id))
| reach_is_at_target m adc_read id :
    reachable m -> reachable (snd (heater_is_at_target adc_read m id))
| reach_task m adc_read : reachable m -> reachable (heater_task adc_read m).

(** The hotend set to 200 degrees after [heater_init]. *)
Definition heating_up : heaters :=
  heater_set_temp (heater_init heaters_reset) HEATER_HOTEND 200.

(** The target [heater_set_temp] stores for a requested one. *)
Definition clamp_target (t : Q) : Q :=
  if Qltb t HEATER_TEMP_MIN then HEATER_TEMP_MIN
  else if Qltb HEATER_TEMP_MAX t then HEATER_TEMP_MAX else t.

(** The other one of the two heaters. *)
Definition other_heater (id : Z) : Z := (1 - id)%Z.

(** A converter reading [heater_get_temp] cannot turn into a temperature. *)
Definition sensor_fault (adc_read : Z -> Z) (i : Z) : Prop :=
  let v := adc_read (get_adc_gpio (adc_channel (config_of i))) in
  (v < 0 \/ ADC_MAX_VALUE < v)%Z.

(** A heater that is switched off: no target, no output, no duty. *)
Definition is_off (m : heaters) (id : Z) : Prop :=
  target_temp (state_of m id) <= 0 /\
  output (state_of m id) = 0 /\
  duty (pwm_of m id) = 0.

(** The conversion does not rise from reading [k] to reading [k + 1]. *)
Definition ntc_falls_at (k : Z) : bool :=
  Qle_bool (ntc_adc_to_temp (k + 1)) (ntc_adc_to_temp k).

(** Proof steps shared by the heater lemmas; the two arguments are the
    lemmas that read [Qltb] as an order. *)
Ltac qbool_using lt_true lt_false :=
  repeat match goal with
         | H : Qltb _ _ = true |- _ => apply lt_true in H
         | H : Qltb _ _ = false |- _ => apply lt_false in H
         | H : Qle_bool _ _ = true |- _ => apply Qle_bool_iff in H
         | H : andb _ _ = true |- _ => apply andb_prop in H; destruct H
         end.

Ltac index_eval :=
  unfold state_of, config_of, pwm_of, set_state, set_pwm, pwm_enable in *;
  change (Z.to_nat 0) with 0%nat in *; change (Z.to_nat 1) with 1%nat in *;
  cbn [nth list_set s_heater_config s_heater_state pwm s_module_initialized
       max_power duty enabled] in *.

Ltac arith_done_using lt_true lt_false :=
  unfold Inv, duty_ok, PID_INTEGRAL_MAX, HEATER_TEMP_MIN, HEATER_TEMP_MAX in *;
  cbn [integral output target_temp duty] in *; qbool_using lt_true lt_false;
  repeat match goal with H : _ /\ _ |- _ => destruct H end;
  repeat split; try lra.

Ltac inv_done_using lt_true lt_false :=
  unfold module_inv;
  do 4 eexists; (split; [reflexivity|]); (split; [reflexivity|]);
  arith_done_using lt_true lt_false.

End HeaterProps.

Module Bench.
Import Trapq Toolhead Firmware.
Local Open Scope string_scope.

(** A bench: no switch closes, nothing moves, every ADC channel reads
    2048 (about 79 degrees).  The two motion calls whose prototypes do
    not agree are given gcode.c's own definitions; no statement about the
    bench sends a motion command. *)

Definition bench_clock (h : unit) : Z * unit := (0%Z, h).
Definition bench_gpio (_ : unit) (_ : Z) : bool := false.
Definition bench_moving (_ : unit) (_ : Endstop.stepper_id_t) : bool := false.
Definition bench_stop (h : unit) (_ : Endstop.stepper_id_t) : unit := h.
Definition bench_timer (_ : nat) (_ : Z) (h : unit) : Z * unit := (0%Z, h).
Definition bench_adc (_ : unit) (_ : Z) : Z := 2048%Z.
Definition bench_move (b : firmware unit) (_ _ _ _ _ : Q) : Z * firmware unit := (0%Z, b).
Definition bench_position (g : Gcode.gcode_state) (_ : firmware unit) : Q * Q * Q * Q :=
  (Gcode.s_pos_x g, Gcode.s_pos_y g, Gcode.s_pos_z g, Gcode.s_pos_e g).

Definition bench : Gcode.backend (firmware unit) :=
  linked_backend bench_clock bench_gpio bench_moving bench_stop bench_timer
                 bench_adc 100 bench_move bench_position.

Definition power_on : Gcode.state (firmware unit) := (Gcode.gcode_initial, boot tt).

(** The lines of a session, one after the other. *)
Fixpoint session (lines : list string) (st : Gcode.state (firmware unit))
  : option (Gcode.state (firmware unit) * list Gcode.serial_out) :=
  match lines with
  | [] => Some (st, [])
  | l :: rest =>
      match Gcode.gcode_process bench l st with
      | None => None
      | Some (st1, out1) =>
          match session rest st1 with
          | None => None
          | Some (st2, out2) => Some (st2, (out1 ++ out2)%list)
          end
      end
  end.

Definition state_after (lines : list string) : Gcode.state (firmware unit) :=
  match session lines power_on with
  | Some (st, _) => st
  | None => power_on
  end.

End Bench.

Module FanCases.
Import Heater Fan.
Local Open Scope Q_scope.

(** The other one of the two fans. *)
Definition other_fan (id : Z) : Z := (1 - id)%Z.

Definition fan_of (m : fans) (id : Z) : fan_state_t :=
  nth (Z.to_nat id) m (mk_fan 0 false 0).

End FanCases.

Module StepperCases.
Import Endstop Stepper.
Local Open Scope Z_scope.

Section Runs.

Variable W : Type.
Variable timer_read_time : W -> Z * W.

(** [n] callbacks of the stepper timer one after the other: the value the
    last one returned, and the steppers and the clock afterwards. *)
Fixpoint callbacks (n : nat) (st : steppers) (w : W) : Z * steppers * W :=
  match n with
  | O => (0, st, w)
  | S k =>
      let '(ret, st, w, _) := stepper_timer_callback timer_read_time st w in
      match k with
      | O => (ret, st, w)
      | S _ => callbacks k st w
      end
  end.

(** The clock has passed each of the [n] step times of a move that
    starts at [t0] with [iv] ticks between steps. *)
Definition all_due (t0 iv : Z) (n : nat) : Prop :=
  forall (k : nat) (w : W), (k < n)%nat ->
    fst (sched_is_before timer_read_time (Sched.wrap32 (t0 + Z.of_nat k * iv)) w) = true.

End Runs.

(** Where [n] steps take a stepper. *)
Definition stepped (s : stepper_state_t) (n : Z) : Z :=
  if configured s && enabled s then
    match dir s with
    | STEPPER_DIR_FORWARD => position s + n
    | STEPPER_DIR_BACKWARD => position s - n
    end
  else position s.

(** A bench clock that stands at 10000, and stepper X configured,
    enabled and given a move of five steps backwards from tick 100. *)
Definition late_clock (w : unit) : Z * unit := (10000, w).

Definition five_steps_back : steppers :=
  snd (fst (fst
    (stepper_add_move (fun w : unit => (0, w))
       (fst (stepper_enable
               (fst (stepper_config (stepper_init (fun _ =>
                                       mk_stepper zero_config 0 STEPPER_DIR_FORWARD
                                                  false false 0 0 0))
                                    STEPPER_X
                                    (mk_stepper_config 1 2 3 false false false)))
               STEPPER_X true))
       STEPPER_X (mk_stepper_move 100 5 (-1)) tt))).

End StepperCases.

Module SerialCases.
Import Serial.
Local Open Scope nat_scope.
Local Open Scope char_scope.

(** The bytes of a burst, received one after the other. *)
Definition receive (st : serial) (bytes : list ascii) : serial :=
  fold_left process_rx_byte bytes st.

(** A byte that is neither an end of line nor a backspace. *)
Definition plain (c : ascii) : bool :=
  negb (Ascii.eqb c "010" || Ascii.eqb c "013" || Ascii.eqb c "008" || Ascii.eqb c "127").

Definition end_of_line (c : ascii) : bool := (Ascii.eqb c "010" || Ascii.eqb c "013")%bool.

(** An initialised port with no line begun. *)
Definition idle (st : serial) : Prop :=
  s_initialized st = true /\ s_line_ready st = false /\ s_line_len st = 0 /\
  List.length (s_line_buffer st) = SERIAL_LINE_BUFFER_SIZE.

(** The port after [serial_init]. *)
Definition port_open : serial :=
  mk_serial (mk_ring (repeat zero SERIAL_RX_BUFFER_SIZE) 0 0 0)
            (repeat zero SERIAL_LINE_BUFFER_SIZE) 0 false true.

(** A line being assembled: the buffer holds the first 127 of the
    characters typed so far. *)
Definition assembling (st : serial) (typed : list ascii) : Prop :=
  s_line_ready st = false /\
  List.length (s_line_buffer st) = SERIAL_LINE_BUFFER_SIZE /\
  s_line_len st = Nat.min 127 (List.length typed) /\
  firstn (s_line_len st) (s_line_buffer st) = firstn 127 typed.

End SerialCases.

Module PwmCases.
Import Pwm.
Local Open Scope Z_scope.

(** The states of the driver while the firmware runs: after the init
    sequence both modules are flagged initialised, so neither [pwm_init]
    nor [pwm_config] is called again; heater.c and fan.c enable and
    disable channels and set values (through [pwm_set_duty], whose
    conversion is left open here: any value), and the timer ticks. *)
Inductive running : pwm_driver -> Prop :=
| run_boot : running main_init_pwm
| run_enable d id enable now :
    running d -> running (fst (pwm_enable d id enable now))
| run_set_value d id v : running d -> running (pwm_set_value d id v)
| run_tick d waketime :
    running d -> running (snd (fst (pwm_timer_callback d waketime))).

(** The pins an event drives. *)
Definition written_pin (e : pwm_event) : option Z :=
  match e with
  | Gpio_out_write p _ => Some p
  | Gpio_out_setup p _ => Some p
  | Pwm_setup p _ _ => Some p
  | Sched_add_timer _ => None
  end.

(** What survives of the set-up at run time. *)
Definition heaters_lost (d : pwm_driver) : Prop :=
  exists c0 c1 c2 c3,
    s_pwm_channels d = [c0; c1; c2; c3] /\
    configured c0 = false /\ pin c0 = 0 /\
    configured c1 = false /\ pin c1 = 0 /\
    pin c2 = FAN_PART_PIN /\ pin c3 = FAN_HOTEND_PIN.

(** The hotend heater switched fully on after the init sequence of
    [main], and after [heater_init] alone. *)
Definition hotend_on (d : pwm_driver) : pwm_driver :=
  pwm_set_value (fst (pwm_enable d PWM_CHANNEL_HEATER_HOTEND true 0))
                PWM_CHANNEL_HEATER_HOTEND 255.

(** [n] callbacks of the PWM timer one after the other, each at the wake
    time the one before returned: what they wrote. *)
Fixpoint ticks (n : nat) (d : pwm_driver) (waketime : Z) : list pwm_event :=
  match n with
  | O => []
  | S k =>
      let '(next, d', ev) := pwm_timer_callback d waketime in
      ev ++ ticks k d' next
  end.

(** How often a list of events writes level [v] to pin [p]. *)
Definition is_write (p : Z) (v : bool) (e : pwm_event) : bool :=
  match e with
  | Gpio_out_write q u => (q =? p) && Bool.eqb u v
  | _ => false
  end.

Definition count_writes (p : Z) (v : bool) (evs : list pwm_event) : Z :=
  Z.of_nat (List.length (filter (is_write p v) evs)).

(** Channel [id] is driven, not inverted, and no other driven channel
    has its pin. *)
Definition drives_alone (d : pwm_driver) (id : Z) : Prop :=
  valid_channel id = true /\
  List.length (s_pwm_channels d) = 4%nat /\
  configured (channel d id) = true /\ enabled (channel d id) = true /\
  invert (channel d id) = false /\
  forall j, valid_channel j = true -> j <> id ->
            configured (channel d j) = true -> enabled (channel d j) = true ->
            pin (channel d j) <> pin (channel d id).

(** The ticks among the next [n] on which the counter is below [v]. *)
Fixpoint highs (v : Z) (n : nat) (c : Z) : Z :=
  match n with
  | O => 0
  | S k =>
      let c' := (c + 1) mod 256 in
      (if c' <? v then 1 else 0) + highs v k c'
  end.

Fixpoint counter_after (n : nat) (c : Z) : Z :=
  match n with
  | O => c
  | S k => counter_after k ((c + 1) mod 256)
  end.

(** The part fan at half speed after the init sequence of [main]. *)
Definition fan_at_half : pwm_driver :=
  pwm_set_value (fst (pwm_enable main_init_pwm PWM_CHANNEL_FAN_PART true 0))
                PWM_CHANNEL_FAN_PART 127.

End PwmCases.

Module GcodeCases.
Import Gcode.
Local Open Scope string_scope.

(** A line with its letters in upper case. *)
Fixpoint upcase (s : string) : string :=
  match s with
  | EmptyString => EmptyString
  | String c r => String (toupper c) (upcase r)
  end.

(** The characters at which the parser stops reading a line. *)
Definition ends_line (c : ascii) : bool :=
  (Ascii.eqb c ";" || Ascii.eqb c "010" || Ascii.eqb c "013")%bool.

(** [cut s s']: [s] is [s'] followed by a character that ends the line
    and by anything after it. *)
Inductive cut : string -> string -> Prop :=
| cut_here t b : ends_line t = true -> cut (String t b) EmptyString
| cut_later c r r' : cut r r' -> cut (String c r) (String c r').

(** The sign test of [parse_float]. *)
Definition sign_split (str : string) : bool * string :=
  match str with
  | String "-" r => (true, r)
  | String "+" r => (false, r)
  | _ => (false, str)
  end.

(** What the digit loop of [parse_float] read, and where it stopped. *)
Definition read_of (x : Q * Q * bool * string) : Q * Q * bool := fst x.
Definition rest_of (x : Q * Q * bool * string) : string := snd x.

(** The answers [gcode_process] has for a line: [ok], [ok] after the
    position report of M114, or one of two refusals. *)
Definition answered (B : Type) (st st' : state B) (out : list serial_out) : Prop :=
  out = [Line "ok"] \/
  (st' = st /\ exists args, out = [Position_report args; Line "ok"]) \/
  (st' = st /\ (out = [Line "error: unknown command"] \/
               out = [Line "error: invalid command"])).

End GcodeCases.

Module EndstopCases.
Import Endstop.
Local Open Scope Z_scope.

(** What the sampling pass makes of one switch: a configured switch
    latches the level read, an unconfigured one is left alone. *)
Definition sampled (CB R : Type) (gpio_in_read : R -> Z -> bool)
    (e : endstop_state_t CB) (r : R) : endstop_state_t CB :=
  set_triggered e (if configured e then endstop_read_state gpio_in_read e r
                   else triggered e).

(** A bench that keeps a tally: the pins are the bits of a number, and every
    [stepper_stop] and every callback is counted. *)
Definition tally : Type := (Z * nat)%type.
Definition tally_pin (r : tally) (pin : Z) : bool := Z.testbit (fst r) pin.
Definition tally_stop (r : tally) (_ : stepper_id_t) : tally := (fst r, S (snd r)).
Definition tally_callback (_ : unit) (_ : endstop_id_t) (r : tally) : tally :=
  (fst r, S (snd r)).

(** Switch X on pin 0 and switch Y on pin 1, both with a callback; X is
    being homed. *)
Definition two_switches : endstops unit :=
  endstop_home_start
    (endstop_set_callback
       (endstop_set_callback
          (endstop_config
             (endstop_config (endstop_init unit) ENDSTOP_X 0 false STEPPER_X)
             ENDSTOP_Y 1 false STEPPER_Y)
          ENDSTOP_X tt)
       ENDSTOP_Y tt)
    ENDSTOP_X.

(** Both switches closed, and X alone; nothing counted yet. *)
Definition both_closed : tally := (3, O).
Definition x_closed : tally := (1, O).

End EndstopCases.


(* ================================================================== *)
(** * Properties of the scheduler *)
(* ================================================================== *)

Module SchedFacts.
Import Sched SchedCases.
Local Open Scope Z_scope.

Lemma insert_timer_In (F : Type) (t : sched_timer_t F) (l : list (sched_timer_t F)) :
  In t (insert_timer t l).
Proof.
  induction l as [|c r IH]; simpl.
  - now left.
  - destruct (sched_time_diff (waketime t) (waketime c) <? 0); simpl; auto.
Qed.

Lemma insert_timer_length (F : Type) (t : sched_timer_t F) (l : list (sched_timer_t F)) :
  List.length (insert_timer t l) = S (List.length l).
Proof.
  induction l as [|c r IH]; simpl; trivial.
  destruct (sched_time_diff (waketime t) (waketime c) <? 0); simpl; congruence.
Qed.

(** The wake time a periodic callback computes, [waketime + period] on the
    32-bit counter, is 0 exactly one period before the counter wraps. *)
Lemma periodic_wake_wraps_to_zero (waketime period : Z) :
  0 <= waketime < 2 ^ 32 -> 0 < period < 2 ^ 32 ->
  (wrap32 (waketime + period) = 0 <-> waketime = 2 ^ 32 - period).
Proof.
  intros Hw Hp. unfold wrap32. split.
  - intro H.
    assert (Hlt : waketime + period < 2 ^ 32 \/ 2 ^ 32 <= waketime + period) by lia.
    destruct Hlt as [Hlt|Hge].
    + rewrite Z.mod_small in H by lia. lia.
    + replace (waketime + period) with ((waketime + period - 2 ^ 32) + 1 * 2 ^ 32) in H by ring.
      rewrite Z.mod_add in H by lia.
      rewrite Z.mod_small in H by lia. lia.
  - intros ->. replace (2 ^ 32 - period + period) with (2 ^ 32) by ring.
    reflexivity.
Qed.

(** C10.  One turn of the pump on a due timer: when the callback returns 0
    the pump puts nothing back, the timer list is the one the callback
    left; when it returns any other value the pump registers the same
    timer object again with that value as its wake time. *)
Theorem zero_return_is_the_only_sentinel
    (F W : Type) (timer_read_time : W -> sched_time_t * W)
    (call : F -> sched_time_t -> sched_state F W -> sched_time_t * sched_state F W)
    (st st0 st2 : sched_state F W) (timer : sched_timer_t F)
    (rest : list (sched_timer_t F)) (f : F) (next_waketime : sched_time_t) :
  s_timer_list st = timer :: rest ->
  func timer = Some f ->
  sched_is_before timer_read_time st (waketime timer) = (true, st0) ->
  call f (waketime timer) (set_timers st0 rest) = (next_waketime, st2) ->
  (next_waketime = 0 ->
     sched_main_turn timer_read_time call st = Again st2) /\
  (next_waketime <> 0 ->
     let timer' := set_waketime timer next_waketime in
     sched_main_turn timer_read_time call st = Again (sched_add_timer timer' st2) /\
     s_timer_list (sched_add_timer timer' st2) = insert_timer timer' (s_timer_list st2) /\
     In timer' (s_timer_list (sched_add_timer timer' st2)) /\
     waketime timer' = next_waketime /\ tid timer' = tid timer).
Proof.
  intros Hl Hf Hdue Hcall.
  unfold sched_main_turn. rewrite Hl, Hdue. cbn [negb]. rewrite Hf, Hcall.
  split.
  - intros ->. reflexivity.
  - intro Hnz. cbv zeta. apply Z.eqb_neq in Hnz. rewrite Hnz.
    assert (Hadd : s_timer_list (sched_add_timer (set_waketime timer next_waketime) st2)
                   = insert_timer (set_waketime timer next_waketime) (s_timer_list st2)).
    { unfold sched_add_timer. cbn [set_waketime func]. rewrite Hf. reflexivity. }
    split; [reflexivity | split; [exact Hadd | split; [ | split; reflexivity]]].
    rewrite Hadd. apply insert_timer_In.
Qed.

Lemma zero_return_is_the_only_sentinel_witness :
  sched_main_turn wrap_clock wrap_call wrap_state
    = Again (mk_sched [] false (2 ^ 32 - 1000)) /\
  sched_main_loop wrap_clock wrap_call 2 wrap_state
    = Some (mk_sched [] false (2 ^ 32 - 1000)).
Proof.
  split.
  - apply (@zero_return_is_the_only_sentinel unit Z wrap_clock wrap_call
             wrap_state wrap_state (mk_sched [] false (2 ^ 32 - 1000))
             wrap_timer [] tt 0); reflexivity.
  - reflexivity.
Defined.

(** ** The clock wraps: when a timer is due *)

Lemma wrap32_range (z : Z) : 0 <= wrap32 z < 2 ^ 32.
Proof. unfold wrap32. apply Z.mod_pos_bound. lia. Qed.

Lemma wrap32_eqm (z : Z) : exists k, wrap32 z = z + k * 2 ^ 32.
Proof.
  unfold wrap32. exists (- (z / 2 ^ 32)).
  pose proof (Z.div_mod z (2 ^ 32)). lia.
Qed.

Lemma wrap32_unique (z r : Z) (k : Z) :
  0 <= r < 2 ^ 32 -> z = r + k * 2 ^ 32 -> wrap32 z = r.
Proof.
  intros Hr ->. unfold wrap32. rewrite Z.mod_add by lia. apply Z.mod_small. lia.
Qed.

Lemma due_on_a_wrapping_clock (time now : sched_time_t) :
  sched_time_diff time now <= 0 <-> wrap32 (now - time) <= 2 ^ 31.
Proof.
  unfold sched_time_diff, to_int32.
  pose proof (wrap32_range (time - now)) as Hw.
  destruct (wrap32_eqm (time - now)) as [k Hk].
  set (w := wrap32 (time - now)) in *.
  assert (Hcases : w = 0 \/ 0 < w) by lia.
  destruct Hcases as [H0 | Hpos].
  - rewrite (wrap32_unique (now - time) 0 k) by lia.
    rewrite H0. cbn. lia.
  - rewrite (wrap32_unique (now - time) (2 ^ 32 - w) (k - 1)) by lia.
    destruct (w <? 2 ^ 31) eqn:E.
    + apply Z.ltb_lt in E. lia.
    + apply Z.ltb_ge in E. lia.
Qed.

(** X4.  [sched_is_before] answers yes exactly when the clock reads from 0
    up to 2^31 ticks past the wake time, counted on the wrapping 32-bit
    counter: a wake time is in the past for half a turn of the counter
    and in the future for the other half. *)
Theorem timer_is_due_within_half_a_turn (F W : Type)
    (timer_read_time : W -> sched_time_t * W) (st : sched_state F W)
    (time : sched_time_t) :
  fst (sched_is_before timer_read_time st time) = true <->
  wrap32 (fst (timer_read_time (world st)) - time) <= 2 ^ 31.
Proof.
  unfold sched_is_before, sched_get_time.
  destruct (timer_read_time (world st)) as [now w]. cbn [fst].
  rewrite Z.leb_le. apply due_on_a_wrapping_clock.
Qed.

(** ** The timer list stays in wake order *)

(** Inside a window of 2^31 ticks the signed difference compares wake
    times as their distances from the start of the window do. *)
Lemma diff_in_window (F : Type) (base : sched_time_t) (a b : sched_timer_t F) :
  offset F base a < 2 ^ 31 -> offset F base b < 2 ^ 31 ->
  sched_time_diff (waketime a) (waketime b) = offset F base a - offset F base b.
Proof.
  unfold offset, sched_time_diff, to_int32. intros Ha Hb.
  pose proof (wrap32_range (waketime a - base)) as Ra.
  pose proof (wrap32_range (waketime b - base)) as Rb.
  destruct (wrap32_eqm (waketime a - base)) as [ka Hka].
  destruct (wrap32_eqm (waketime b - base)) as [kb Hkb].
  set (oa := wrap32 (waketime a - base)) in *.
  set (ob := wrap32 (waketime b - base)) in *.
  destruct (Z.lt_ge_cases oa ob) as [Hlt | Hge].
  - rewrite (wrap32_unique (waketime a - waketime b) (oa - ob + 2 ^ 32) (kb - ka - 1)) by lia.
    destruct (oa - ob + 2 ^ 32 <? 2 ^ 31) eqn:E.
    + apply Z.ltb_lt in E. lia.
    + lia.
  - rewrite (wrap32_unique (waketime a - waketime b) (oa - ob) (kb - ka)) by lia.
    destruct (oa - ob <? 2 ^ 31) eqn:E.
    + reflexivity.
    + apply Z.ltb_ge in E. lia.
Qed.

Lemma ordered_cons (F : Type) (base : sched_time_t) (a : sched_timer_t F)
    (l : list (sched_timer_t F)) :
  ordered F base l ->
  match l with b :: _ => offset F base a <= offset F base b | [] => True end ->
  ordered F base (a :: l).
Proof. intros Hl Hh. cbn [ordered]. split; assumption. Qed.

Lemma insert_timer_head (F : Type) (t : sched_timer_t F) (l : list (sched_timer_t F)) :
  exists h r, insert_timer t l = h :: r /\
    (h = t \/ exists r0, l = h :: r0).
Proof.
  destruct l as [|c r]; cbn [insert_timer].
  - exists t, []. auto.
  - destruct (sched_time_diff (waketime t) (waketime c) <? 0).
    + exists t, (c :: r). auto.
    + exists c, (insert_timer t r). split; [reflexivity|]. right. now exists r.
Qed.

Lemma insert_timer_ordered (F : Type) (base : sched_time_t) (t : sched_timer_t F)
    (l : list (sched_timer_t F)) :
  in_window F base (t :: l) -> ordered F base l -> ordered F base (insert_timer t l).
Proof.
  induction l as [|c r IH]; intros Hwin Hord.
  - cbn. auto.
  - cbn [insert_timer].
    assert (Ht : offset F base t < 2 ^ 31) by (apply Hwin; now left).
    assert (Hc : offset F base c < 2 ^ 31) by (apply Hwin; right; now left).
    rewrite (diff_in_window F base t c Ht Hc).
    destruct (offset F base t - offset F base c <? 0) eqn:E.
    + apply Z.ltb_lt in E. apply ordered_cons; [exact Hord | lia].
    + apply Z.ltb_ge in E. destruct Hord as [Hhd Htl].
      assert (Hwin' : in_window F base (t :: r)).
      { intros x [<- | Hx]; apply Hwin; [now left | right; now right]. }
      specialize (IH Hwin' Htl).
      apply ordered_cons; [exact IH|].
      destruct (insert_timer_head F t r) as (h & r' & -> & [-> | (r0 & ->)]).
      * lia.
      * exact Hhd.
Qed.

Lemma insert_timer_perm (F : Type) (t : sched_timer_t F) (l : list (sched_timer_t F)) :
  Permutation (insert_timer t l) (t :: l).
Proof.
  induction l as [|c r IH]; cbn [insert_timer]; [reflexivity|].
  destruct (sched_time_diff (waketime t) (waketime c) <? 0); [reflexivity|].
  rewrite IH. apply perm_swap.
Qed.

(** X5.  [sched_add_timer] keeps the list in wake order and loses no
    timer: when all wake times lie within one window of 2^31 ticks and the
    list wakes in order, so does the list with the new timer in it, and
    it holds the old timers and the new one. *)
Theorem add_timer_keeps_the_list_in_wake_order (F W : Type) (base : sched_time_t)
    (t : sched_timer_t F) (st : sched_state F W) :
  func t <> None ->
  in_window F base (t :: s_timer_list st) ->
  ordered F base (s_timer_list st) ->
  ordered F base (s_timer_list (sched_add_timer t st)) /\
  Permutation (s_timer_list (sched_add_timer t st)) (t :: s_timer_list st).
Proof.
  intros Hf Hwin Hord. unfold sched_add_timer.
  destruct (func t) as [f|]; [|congruence].
  cbn [s_timer_list set_timers]. split.
  - now apply insert_timer_ordered.
  - apply insert_timer_perm.
Qed.

Lemma add_timer_keeps_the_list_in_wake_order_witness :
  ordered unit (2 ^ 32 - 500) (s_timer_list (sched_add_timer at_wrap two_timers)) /\
  Permutation (s_timer_list (sched_add_timer at_wrap two_timers))
              (at_wrap :: s_timer_list two_timers).
Proof.
  apply (add_timer_keeps_the_list_in_wake_order unit Z (2 ^ 32 - 500) at_wrap two_timers).
  - discriminate.
  - intros t [<- | [<- | [<- | []]]]; reflexivity.
  - cbn. repeat split; vm_compute; discriminate.
Defined.

(** ** Registering and cancelling *)

Lemma remove_inserted (F : Type) (t : sched_timer_t F) (l : list (sched_timer_t F)) :
  (forall c, In c l -> tid c <> tid t) ->
  remove_timer (tid t) (insert_timer t l) = l.
Proof.
  induction l as [|c r IH]; intro Hfresh; cbn [insert_timer remove_timer].
  - now rewrite Nat.eqb_refl.
  - destruct (sched_time_diff (waketime t) (waketime c) <? 0); cbn [remove_timer].
    + now rewrite Nat.eqb_refl.
    + assert (Hc : tid c <> tid t) by (apply Hfresh; now left).
      apply Nat.eqb_neq in Hc. rewrite Hc. f_equal. apply IH.
      intros x Hx. apply Hfresh. now right.
Qed.

(** X6.  Cancelling a timer that was just registered gives back the
    scheduler as it was, when no other timer in the list is the same
    object. *)
Theorem deleting_an_added_timer_restores_the_list (F W : Type)
    (t : sched_timer_t F) (st : sched_state F W) :
  (forall c, In c (s_timer_list st) -> tid c <> tid t) ->
  sched_del_timer (tid t) (sched_add_timer t st) = st.
Proof.
  intro Hfresh. unfold sched_del_timer, sched_add_timer.
  destruct (func t) as [f|].
  - cbn [s_timer_list set_timers s_shutdown_flag world].
    rewrite (remove_inserted F t _ Hfresh). destruct st; reflexivity.
  - assert (E : remove_timer (tid t) (s_timer_list st) = s_timer_list st).
    { induction (s_timer_list st) as [|c r IH]; [reflexivity|].
      cbn [remove_timer].
      assert (Hc : tid c <> tid t) by (apply Hfresh; now left).
      apply Nat.eqb_neq in Hc. rewrite Hc. f_equal. apply IH.
      intros x Hx. apply Hfresh. now right. }
    rewrite E. destruct st; reflexivity.
Qed.

Lemma deleting_an_added_timer_restores_the_list_witness :
  sched_del_timer (tid at_wrap) (sched_add_timer at_wrap two_timers) = two_timers.
Proof.
  apply (deleting_an_added_timer_restores_the_list unit Z at_wrap two_timers).
  intros c [<- | [<- | []]]; discriminate.
Defined.

End SchedFacts.

(* ================================================================== *)
(** * Properties of the trapezoidal queue *)
(* ================================================================== *)

Module TrapqFacts.
Import Trapq PlannerCases.

Lemma first_free_all_used (used : list bool) (i : nat) :
  forallb (fun u => u) used = true -> first_free used i = None.
Proof.
  revert i. induction used as [|u r IH]; intros i H; simpl in *; trivial.
  apply andb_prop in H. destruct H as [Hu Hr]. rewrite Hu. now apply IH.
Qed.

Lemma first_free_some_unused (used : list bool) (i : nat) :
  forallb (fun u => u) used = false -> exists k, first_free used i = Some k.
Proof.
  revert i. induction used as [|u r IH]; intros i H; simpl in *.
  - discriminate.
  - destruct u; simpl in H.
    + now apply IH.
    + now exists i.
Qed.

(** [move_alloc] gives NULL exactly when every slot is in use. *)
Lemma move_alloc_none_iff (used : list bool) :
  move_alloc used = None <-> forallb (fun u => u) used = true.
Proof.
  unfold move_alloc. split.
  - intro H. destruct (forallb (fun u => u) used) eqn:E; trivial.
    destruct (first_free_some_unused used 0 E) as [k Hk]. rewrite Hk in H. discriminate.
  - intro H. now rewrite (first_free_all_used used 0 H).
Qed.

(** The stored duration is the sum of the three phase times, as the
    caller passed them. *)
Lemma trapq_append_duration (used : list bool) (tq : trapq)
    (pt at_ ct dt : float) (sp ar : coord) (sv cv a : float)
    (slot : nat) (used' : list bool) :
  move_alloc used = Some (slot, used') ->
  exists m,
    snd (trapq_append used tq pt at_ ct dt sp ar sv cv a)
      = mk_trapq (moves tq ++ [(slot, m)]) (history tq) /\
    move_t m = (at_ + ct + dt)%float /\
    accel_t m = at_ /\ cruise_t m = ct /\ decel_t m = dt /\
    start_v m = sv /\ cruise_v m = cv.
Proof.
  intro H. unfold trapq_append. rewrite H. eexists. split; [reflexivity|].
  repeat split; reflexivity.
Qed.

(** [trapq_append] on an exhausted pool.  With every slot in use
    [move_alloc] gives NULL and [trapq_append] returns at its guard: the
    pool flags and both lists of the queue are what they were, and the
    segment is in neither. *)
Theorem append_on_exhausted_pool_is_silent (used : list bool) (tq : trapq)
    (pt at_ ct dt : float) (sp ar : coord) (sv cv a : float) :
  forallb (fun u => u) used = true ->
  move_alloc used = None /\
  trapq_append used tq pt at_ ct dt sp ar sv cv a = (used, tq).
Proof.
  intro H. apply move_alloc_none_iff in H. split; trivial.
  unfold trapq_append. now rewrite H.
Qed.

Lemma append_on_exhausted_pool_is_silent_witness :
  move_alloc full_pool = None /\
  trapq_append full_pool empty_queue 0 0.05 0 0.05 origin x_dir 0 150 3000
    = (full_pool, empty_queue).
Proof.
  apply (append_on_exhausted_pool_is_silent full_pool empty_queue
           0 0.05 0 0.05 origin x_dir 0 150 3000).
  reflexivity.
Defined.

(** ** The pool of moves *)

Lemma set_used_length (used : list bool) (i : nat) (v : bool) :
  List.length (set_used used i v) = List.length used.
Proof. revert i. induction used as [|u r IH]; intros [|i]; cbn; auto. Qed.

Lemma set_used_same (used : list bool) (i : nat) (v d : bool) :
  (i < List.length used)%nat -> nth i (set_used used i v) d = v.
Proof.
  revert i. induction used as [|u r IH]; intros [|i] H; cbn in *; try lia; auto.
  apply IH. lia.
Qed.

Lemma set_used_other (used : list bool) (i j : nat) (v d : bool) :
  i <> j -> nth j (set_used used i v) d = nth j used d.
Proof.
  revert i j. induction used as [|u r IH]; intros [|i] [|j] H; cbn; auto; try lia.
Qed.

Lemma set_used_undo (used : list bool) (i : nat) (v : bool) :
  nth i used v = v -> set_used (set_used used i (negb v)) i v = used.
Proof.
  revert i. induction used as [|u r IH]; intros [|i] H; cbn in *; auto.
  - now subst.
  - f_equal. now apply IH.
Qed.

Lemma first_free_spec (used : list bool) (k i : nat) :
  first_free used k = Some i ->
  (k <= i < k + List.length used)%nat /\
  nth (i - k) used true = false /\
  forall j, (j < i - k)%nat -> nth j used false = true.
Proof.
  revert k. induction used as [|u r IH]; intros k H; cbn in H; [discriminate|].
  destruct u.
  - destruct (IH _ H) as (Hr & Hfree & Hbelow). cbn [List.length].
    split; [lia|].
    replace (i - k)%nat with (S (i - S k)) by lia. cbn [nth].
    split; [exact Hfree|].
    intros [|j] Hj; [reflexivity|]. cbn [nth]. apply Hbelow. lia.
  - injection H as <-. cbn [List.length]. rewrite Nat.sub_diag.
    split; [lia|]. split; [reflexivity|]. intros j Hj. lia.
Qed.

(** What [move_alloc] does to the flags. *)
Lemma move_alloc_slot (used used' : list bool) (i : nat) :
  List.length used = TRAPQ_MAX_MOVES ->
  move_alloc used = Some (i, used') ->
  (i < TRAPQ_MAX_MOVES)%nat /\
  nth i used true = false /\
  nth i used' false = true /\
  (forall j, j <> i -> nth j used' false = nth j used false) /\
  List.length used' = TRAPQ_MAX_MOVES.
Proof.
  intros Hlen. unfold move_alloc.
  destruct (first_free used 0) as [k|] eqn:E; [|discriminate].
  intro H. injection H as <- <-.
  destruct (first_free_spec used 0 k E) as (Hr & Hfree & _).
  rewrite Nat.sub_0_r in *. cbn [Nat.add] in Hr. rewrite Hlen in Hr.
  split; [lia|]. split; [exact Hfree|].
  split; [apply set_used_same; rewrite Hlen; lia|].
  split; [intros j Hj; apply set_used_other; congruence|].
  now rewrite set_used_length.
Qed.

(** X7.  [move_alloc] hands out the lowest free slot of the pool and
    marks it, touching no other flag, and [move_free] of that slot puts
    the flags back as they were. *)
Theorem alloc_takes_the_lowest_free_slot_and_free_returns_it
    (used used' : list bool) (i : nat) :
  List.length used = TRAPQ_MAX_MOVES ->
  move_alloc used = Some (i, used') ->
  (i < TRAPQ_MAX_MOVES)%nat /\
  nth i used true = false /\
  (forall j, (j < i)%nat -> nth j used false = true) /\
  nth i used' false = true /\
  (forall j, j <> i -> nth j used' false = nth j used false) /\
  move_free used' i = used.
Proof.
  intros Hlen. unfold move_alloc.
  destruct (first_free used 0) as [k|] eqn:E; [|discriminate].
  intro H. injection H as <- <-.
  destruct (first_free_spec used 0 k E) as (Hr & Hfree & Hbelow).
  rewrite Nat.sub_0_r in *. cbn [Nat.add] in Hr. rewrite Hlen in Hr.
  split; [lia|]. split; [exact Hfree|]. split; [exact Hbelow|].
  split; [apply set_used_same; rewrite Hlen; lia|].
  split; [intros j Hj; apply set_used_other; congruence|].
  unfold move_free.
  destruct (Nat.ltb k TRAPQ_MAX_MOVES) eqn:Elt; [|apply Nat.ltb_ge in Elt; lia].
  apply (set_used_undo used k false).
  rewrite (nth_indep used false true) by lia. exact Hfree.
Qed.

Lemma alloc_takes_the_lowest_free_slot_and_free_returns_it_witness :
  move_alloc two_taken = Some (2%nat, true :: true :: true :: repeat false 29) /\
  move_free (true :: true :: true :: repeat false 29) 2 = two_taken.
Proof.
  split; [reflexivity|].
  apply (alloc_takes_the_lowest_free_slot_and_free_returns_it two_taken
           (true :: true :: true :: repeat false 29) 2); reflexivity.
Defined.

(** ** Retiring and releasing moves *)

Lemma filter_split_perm (A : Type) (f : A -> bool) (l : list A) :
  Permutation (filter f l ++ filter (fun x => negb (f x)) l) l.
Proof.
  induction l as [|a r IH]; cbn; [constructor|].
  destruct (f a); cbn.
  - now constructor.
  - rewrite <- Permutation_middle. now constructor.
Qed.

(** [trapq_finalize_moves] moves, it does not drop. *)
Lemma finalize_perm (tq : trapq) (t : float) :
  Permutation (history (trapq_finalize_moves tq t) ++ moves (trapq_finalize_moves tq t))
              (history tq ++ moves tq).
Proof.
  unfold trapq_finalize_moves. cbn [moves history].
  rewrite <- app_assoc. apply Permutation_app_head.
  apply (filter_split_perm node (fun n => (move_end n <=? t)%float)).
Qed.

(** X8.  [trapq_finalize_moves] loses no move: the queue afterwards holds
    the same moves as before; the moves that ended by [print_time] have
    gone to the end of the history in queue order, and the ones left
    active all end later. *)
Theorem finalize_retires_finished_moves_and_loses_none (tq : trapq) (t : float) :
  Permutation (history (trapq_finalize_moves tq t) ++ moves (trapq_finalize_moves tq t))
              (history tq ++ moves tq) /\
  (forall n, In n (moves (trapq_finalize_moves tq t)) ->
             In n (moves tq) /\ (move_end n <=? t)%float = false) /\
  (forall n, In n (moves tq) -> (move_end n <=? t)%float = true ->
             In n (history (trapq_finalize_moves tq t))) /\
  history (trapq_finalize_moves tq t)
    = history tq ++ filter (fun n => (move_end n <=? t)%float) (moves tq).
Proof.
  split; [apply finalize_perm|].
  unfold trapq_finalize_moves. cbn [moves history].
  split; [|split].
  - intros n Hin. apply filter_In in Hin. destruct Hin as [Hin Hf].
    split; [exact Hin|]. now apply negb_true_iff in Hf.
  - intros n Hin Hend. apply in_app_iff. right. apply filter_In. now split.
  - reflexivity.
Qed.

(** ** Pool accounting *)

Lemma pool_ok_slot_range (used : list bool) (tq : trapq) (i : nat) :
  pool_ok used tq -> In i (slots_of tq) -> (i < TRAPQ_MAX_MOVES)%nat.
Proof.
  intros (Hlen & _ & Hflag) Hin. apply Hflag in Hin.
  destruct (Nat.lt_ge_cases i (List.length used)) as [H | H]; [now rewrite <- Hlen|].
  rewrite nth_overflow in Hin by exact H. discriminate.
Qed.

Lemma trapq_append_pool_ok (used : list bool) (tq : trapq)
    (pt at_ ct dt : float) (sp ar : coord) (sv cv a : float) :
  pool_ok used tq ->
  pool_ok (fst (trapq_append used tq pt at_ ct dt sp ar sv cv a))
          (snd (trapq_append used tq pt at_ ct dt sp ar sv cv a)).
Proof.
  intros Hok. unfold trapq_append.
  destruct (move_alloc used) as [[i used']|] eqn:E; cbn [fst snd]; [|exact Hok].
  pose proof Hok as (Hlen & Hnd & Hflag).
  destruct (move_alloc_slot used used' i Hlen E)
    as (Hi & Hfree & Hset & Hother & Hlen').
  assert (Hnew : ~ In i (slots_of tq)).
  { intro Hin. apply Hflag in Hin.
    rewrite (nth_indep used false true) in Hin by (rewrite Hlen; exact Hi). congruence. }
  match goal with |- pool_ok _ ?q => set (tq' := q) end.
  assert (Hslots : Permutation (i :: slots_of tq) (slots_of tq')).
  { unfold slots_of, tq'. cbn [moves history].
    rewrite (app_assoc (history tq) (moves tq)).
    rewrite (map_app fst (history tq ++ moves tq)). cbn [map fst].
    apply Permutation_cons_append. }
  split; [exact Hlen'|]. split.
  - apply (Permutation_NoDup Hslots). now constructor.
  - intro j. split.
    + intro Hj. apply (Permutation_in _ Hslots).
      destruct (Nat.eq_dec j i) as [-> | Hne]; [now left|].
      right. apply Hflag. now rewrite <- Hother.
    + intro Hj. apply (Permutation_in _ (Permutation_sym Hslots)) in Hj.
      destruct Hj as [<- | Hj]; [exact Hset|].
      destruct (Nat.eq_dec j i) as [-> | Hne]; [exact Hset|].
      rewrite Hother by exact Hne. now apply Hflag.
Qed.

Lemma trapq_finalize_pool_ok (used : list bool) (tq : trapq) (t : float) :
  pool_ok used tq -> pool_ok used (trapq_finalize_moves tq t).
Proof.
  intros (Hlen & Hnd & Hflag).
  pose proof (finalize_perm tq t) as Hperm.
  assert (Hslots : Permutation (slots_of (trapq_finalize_moves tq t)) (slots_of tq)).
  { unfold slots_of. now apply Permutation_map. }
  split; [exact Hlen|]. split.
  - apply (Permutation_NoDup (Permutation_sym Hslots) Hnd).
  - intro j. rewrite Hflag. split; apply Permutation_in; [now symmetry | exact Hslots].
Qed.

(** Releasing the slots of a list of nodes clears exactly their flags. *)
Lemma release_flags (gone : list node) (used : list bool) (j : nat) :
  (forall n, In n gone -> (fst n < TRAPQ_MAX_MOVES)%nat) ->
  nth j (fold_left (fun u n => move_free u (fst n)) gone used) false
    = nth j used false && negb (existsb (fun n => Nat.eqb (fst n) j) gone).
Proof.
  revert used. induction gone as [|g r IH]; intros used Hr; cbn [fold_left existsb].
  - now rewrite andb_true_r.
  - rewrite IH by (intros n Hn; apply Hr; now right).
    assert (Hg : (fst g < TRAPQ_MAX_MOVES)%nat) by (apply Hr; now left).
    unfold move_free. apply Nat.ltb_lt in Hg. rewrite Hg.
    destruct (Nat.eqb (fst g) j) eqn:E.
    + apply Nat.eqb_eq in E. subst j. cbn [orb negb]. rewrite andb_false_r.
      destruct (Nat.lt_ge_cases (fst g) (List.length used)) as [H | H].
      * now rewrite set_used_same.
      * rewrite nth_overflow by (now rewrite set_used_length). reflexivity.
    + apply Nat.eqb_neq in E. rewrite set_used_other by exact E. reflexivity.
Qed.

Lemma release_length (gone : list node) (used : list bool) :
  List.length (fold_left (fun u n => move_free u (fst n)) gone used) = List.length used.
Proof.
  revert used. induction gone as [|g r IH]; intros used; cbn [fold_left]; [reflexivity|].
  rewrite IH. unfold move_free. destruct (Nat.ltb (fst g) TRAPQ_MAX_MOVES); [|reflexivity].
  apply set_used_length.
Qed.

Lemma NoDup_app_apart (l1 l2 : list nat) (a : nat) :
  NoDup (l1 ++ l2) -> In a l1 -> In a l2 -> False.
Proof.
  induction l1 as [|x r IH]; cbn; intros Hnd H1 H2; [contradiction|].
  inversion Hnd as [|y ys Hnotin Hnd']; subst.
  destruct H1 as [-> | H1].
  - apply Hnotin. apply in_app_iff. now right.
  - now apply IH.
Qed.

Lemma trapq_free_moves_pool_ok (used : list bool) (tq : trapq) (t : float) :
  pool_ok used tq ->
  pool_ok (fst (trapq_free_moves used tq t)) (snd (trapq_free_moves used tq t)).
Proof.
  intros Hok. pose proof Hok as (Hlen & Hnd & Hflag).
  unfold trapq_free_moves. cbn [fst snd].
  set (p := fun n : node => (move_end n <? t)%float).
  set (gone := filter p (history tq)).
  set (kept := filter (fun n => negb (p n)) (history tq)).
  assert (Hrange : forall n, In n gone -> (fst n < TRAPQ_MAX_MOVES)%nat).
  { intros n Hn. apply (pool_ok_slot_range used tq _ Hok).
    unfold slots_of. apply in_map. apply in_app_iff. left.
    apply filter_In in Hn. apply Hn. }
  assert (Hperm : Permutation (map fst gone ++ slots_of (mk_trapq (moves tq) kept))
                              (slots_of tq)).
  { unfold slots_of. cbn [moves history]. rewrite !map_app, app_assoc.
    apply Permutation_app_tail. rewrite <- map_app. apply Permutation_map.
    apply (filter_split_perm node p). }
  assert (Hnd2 : NoDup (map fst gone ++ slots_of (mk_trapq (moves tq) kept)))
    by apply (Permutation_NoDup (Permutation_sym Hperm) Hnd).
  split; [now rewrite release_length|]. split.
  - apply (NoDup_app_remove_l _ _ Hnd2).
  - intro j. rewrite (release_flags gone used j Hrange).
    rewrite andb_true_iff, negb_true_iff, Hflag. split.
    + intros [Hin Hnot].
      apply (Permutation_in _ (Permutation_sym Hperm)) in Hin.
      apply in_app_iff in Hin. destruct Hin as [Hin | Hin]; [|exact Hin].
      exfalso. apply in_map_iff in Hin. destruct Hin as (n & Hn & Hng).
      assert (Hex : existsb (fun n0 => Nat.eqb (fst n0) j) gone = true).
      { apply existsb_exists. exists n. split; [exact Hng|]. now apply Nat.eqb_eq. }
      congruence.
    + intro Hin. split.
      * apply (Permutation_in _ Hperm). apply in_app_iff. now right.
      * destruct (existsb (fun n => Nat.eqb (fst n) j) gone) eqn:Ex; [|reflexivity].
        exfalso. apply existsb_exists in Ex. destruct Ex as (n & Hng & Hn).
        apply Nat.eqb_eq in Hn. subst j.
        apply (NoDup_app_apart _ _ (fst n) Hnd2); [now apply in_map | exact Hin].
Qed.

End TrapqFacts.

(* ================================================================== *)
(** * Properties of the planner *)
(* ================================================================== *)

Module ToolheadFacts.
Import Trapq Kin Toolhead PlannerCases.
Local Open Scope float_scope.

(** ** C1: fourteen 2.5 mm moves at 100 mm/s, then [toolhead_flush] *)

(** C1 on the code.  The fourteenth call drains twelve moves and keeps
    two; the later flush resolves the two again from [prev_end_v = 0].
    The twelfth move was planned to end at 50 mm/s, the thirteenth, its
    neighbour in the queue and in time, starts at 0.  Without the flush
    the same happens at the next drain, on the twenty-sixth call. *)
Lemma junction_velocity_lost_between_batches :
  map (fun m => (la_start_v m, end_v m)) (emitted fourteen_moves)
    = [(0, 50); (50, 50); (50, 50); (50, 50); (50, 50); (50, 50); (50, 50);
       (50, 50); (50, 50); (50, 50); (50, 50); (50, 50); (0, 50); (50, 0)] /\
  map start_v (queued fourteen_moves)
    = [0; 50; 50; 50; 50; 50; 50; 50; 50; 50; 50; 50; 0; 50] /\
  (let m12 := nth 11 (queued fourteen_moves) (mk_move 0 0 0 0 0 0 0 0 zero_coord zero_coord) in
   let m13 := nth 12 (queued fourteen_moves) (mk_move 0 0 0 0 0 0 0 0 zero_coord zero_coord) in
   (print_time m12 + move_t m12 =? print_time m13) = true) /\
  end_v (nth 11 (emitted fourteen_moves) zero_la) = 50 /\
  la_start_v (nth 12 (emitted fourteen_moves) zero_la) = 0 /\
  (end_v (nth 11 (emitted fourteen_moves) zero_la)
     =? la_start_v (nth 12 (emitted fourteen_moves) zero_la)) = false /\
  map (fun m => (la_start_v m, end_v m))
      (firstn 2 (skipn 11 (emitted twenty_six_moves))) = [(50, 50); (0, 50)].
Proof. vm_compute. repeat split; reflexivity. Qed.

(** ** C8: one 7.5 mm move at 200 mm/s *)

(** C8 on the code.  The profile has no room to cruise: the phase times
    are those of the lowered peak (150 mm/s), yet the move is queued with
    the cruise velocity 200.  The duration is the sum of the phases, and
    the distance function at the full duration gives 10 mm for a 7.5 mm
    move. *)
Lemma short_move_profile_does_not_close :
  map (fun m => (distance m, la_start_v m, la_cruise_v m, end_v m))
      (emitted short_fast_move) = [(7.5, 0, 200, 0)] /\
  map (fun m => (accel_t m, cruise_t m, decel_t m, cruise_v m))
      (queued short_fast_move)
    = [(0.05, 0, 0.05, 200)] /\
  map (fun m => (move_t m =? accel_t m + cruise_t m + decel_t m))
      (queued short_fast_move) = [true] /\
  map (fun m => move_get_distance m (move_t m)) (queued short_fast_move) = [10].
Proof. vm_compute. repeat split; reflexivity. Qed.

(** ** C5: thirty-eight moves in a row *)

(** C5 on the code.  The 38th call drains twelve moves into a pool with
    eight free slots.  Four appends find the pool exhausted; the call
    still returns [TOOLHEAD_OK], and the queue holds 32 of the 36 moves
    handed to [trapq_append]. *)
Lemma exhausted_pool_goes_unreported :
  let r := toolhead_move after_37_moves (Some (mk_coord 95 0 0 0)) 100 in
  free_slots after_37_moves = 8%nat /\
  List.length (emitted after_37_moves) = 24%nat /\
  List.length (emitted (snd r)) = 36%nat /\
  fst r = TOOLHEAD_OK /\
  List.length (queued (snd r)) = 32%nat /\
  move_alloc (move_pool_used (snd r)) = None /\
  trapq_append full_pool empty_queue 0 0.05 0 0.05
               origin x_dir 0 150 3000
    = (full_pool, empty_queue).
Proof. vm_compute. repeat split; reflexivity. Qed.

(** ** A refused move changes nothing *)

Lemma emit_move_frame (m : lookahead_move_t) (st : toolhead) :
  s_commanded_pos (emit_move m st) = s_commanded_pos st /\
  s_lookahead_count (emit_move m st) = s_lookahead_count st /\
  s_lookahead_head (emit_move m st) = s_lookahead_head st /\
  s_lookahead_tail (emit_move m st) = s_lookahead_tail st /\
  s_lookahead (emit_move m st) = s_lookahead st.
Proof.
  unfold emit_move.
  destruct (calc_trapezoidal_profile _ _ _ _ _) as [[a c] d].
  destruct (s_p_trapq st) as [tq|].
  - destruct (trapq_append _ _ _ _ _ _ _ _ _ _ _) as [used tq']. repeat split.
  - repeat split.
Qed.

Lemma lookahead_pop_count (st st1 : toolhead) (m : lookahead_move_t) :
  lookahead_pop st = Some (m, st1) ->
  S (s_lookahead_count st1) = s_lookahead_count st /\
  s_commanded_pos st1 = s_commanded_pos st.
Proof.
  unfold lookahead_pop. destruct (s_lookahead_count st) as [|c] eqn:E; [discriminate|].
  intro H. injection H as _ <-. split; reflexivity.
Qed.

Lemma lookahead_flush_loop_frame (n : nat) (st : toolhead) :
  (s_lookahead_count st <= n)%nat ->
  s_lookahead_count (lookahead_flush_loop n st) = 0%nat /\
  s_commanded_pos (lookahead_flush_loop n st) = s_commanded_pos st.
Proof.
  revert st. induction n as [|n IH]; intros st Hle; simpl.
  - split; [lia | reflexivity].
  - destruct (lookahead_pop st) as [[m st1]|] eqn:Hpop.
    + destruct (lookahead_pop_count _ _ _ Hpop) as [Hc Hp].
      destruct (emit_move_frame m st1) as (Ecmd & Ecnt & _).
      destruct (IH (emit_move m st1)) as [IH1 IH2]; [rewrite Ecnt; lia|].
      split; [exact IH1 | congruence].
    + unfold lookahead_pop in Hpop.
      destruct (s_lookahead_count st); [split; reflexivity | discriminate].
Qed.

(** After [lookahead_flush] the ring is empty: the fuel of the model's
    loop is enough for the C loop to run to its end. *)
Lemma lookahead_flush_empties (st : toolhead) :
  s_lookahead_count (lookahead_flush st) = 0%nat /\
  s_commanded_pos (lookahead_flush st) = s_commanded_pos st /\
  lookahead_pop (lookahead_flush st) = None.
Proof.
  destruct (lookahead_flush_loop_frame (s_lookahead_count st) st (le_n _)) as [H1 H2].
  unfold lookahead_flush. repeat split; trivial.
  unfold lookahead_pop. now rewrite H1.
Qed.

Lemma lookahead_push_room (st : toolhead) (m : lookahead_move_t) :
  (s_lookahead_count st < LOOKAHEAD_SIZE)%nat -> lookahead_push st m <> None.
Proof.
  intro H. unfold lookahead_push.
  destruct (Nat.leb LOOKAHEAD_SIZE (s_lookahead_count st)) eqn:E.
  - apply Nat.leb_le in E. lia.
  - discriminate.
Qed.

(** [toolhead_move] has no side effect when it fails: whatever error it
    returns, every static of toolhead.c and the queue are untouched.  The
    second [TOOLHEAD_ERR_QUEUE] exit, after the drain, cannot be taken. *)
Lemma toolhead_move_failure_has_no_effect (st : toolhead) (p : option coord)
    (speed : float) :
  fst (toolhead_move st p speed) <> TOOLHEAD_OK ->
  snd (toolhead_move st p speed) = st.
Proof.
  unfold toolhead_move.
  destruct p as [end_pos|]; [|reflexivity].
  destruct (s_p_trapq st) as [tq|]; [|reflexivity].
  destruct (calc_move_distance (s_commanded_pos st) end_pos <? MIN_MOVE_DISTANCE);
    [reflexivity|].
  match goal with |- context [if ?c then (TOOLHEAD_ERR_LIMIT, st) else _] =>
    destruct c end; [reflexivity|].
  match goal with |- context [lookahead_push st ?m] => set (move := m) end.
  destruct (lookahead_push st move) as [st1|].
  - match goal with |- context [if ?c then _ else _] => destruct c end;
      cbn [fst]; intro H; now elim H.
  - destruct (lookahead_push (lookahead_flush (lookahead_process st)) move)
      as [st2|] eqn:Hretry.
    + match goal with |- context [if ?c then _ else _] => destruct c end;
        cbn [fst]; intro H; now elim H.
    + exfalso. revert Hretry. apply lookahead_push_room.
      destruct (lookahead_flush_empties (lookahead_process st)) as [-> _].
      unfold LOOKAHEAD_SIZE. lia.
Qed.
Lemma lookahead_process_commanded (st : toolhead) :
  s_commanded_pos (lookahead_process st) = s_commanded_pos st.
Proof. unfold lookahead_process. destruct (s_lookahead_count st); reflexivity. Qed.

Lemma drain_loop_commanded (n : nat) (st : toolhead) :
  s_commanded_pos (drain_loop n st) = s_commanded_pos st.
Proof.
  revert st. induction n as [|n IH]; intros st; [reflexivity|].
  cbn [drain_loop].
  destruct (Nat.ltb 2 (s_lookahead_count st)); [|reflexivity].
  destruct (lookahead_pop st) as [[m st1]|] eqn:Hpop; [|reflexivity].
  rewrite IH. destruct (emit_move_frame m st1) as (-> & _).
  apply (lookahead_pop_count _ _ _ Hpop).
Qed.

(** X2.  A move that [toolhead_move] accepts and does not drop as a
    zero-length move advances the commanded position to its target: this
    is what [toolhead_get_position] reads afterwards. *)
Theorem accepted_move_advances_commanded_position (st : toolhead) (end_pos : coord)
    (speed : float) :
  fst (toolhead_move st (Some end_pos) speed) = TOOLHEAD_OK ->
  (calc_move_distance (s_commanded_pos st) end_pos <? MIN_MOVE_DISTANCE)%float = false ->
  toolhead_get_position (snd (toolhead_move st (Some end_pos) speed)) = end_pos.
Proof.
  unfold toolhead_move, toolhead_get_position.
  destruct (s_p_trapq st) as [tq|]; [|discriminate].
  intros Hok Hfar. rewrite Hfar in *.
  revert Hok.
  match goal with |- context [if ?c then (TOOLHEAD_ERR_LIMIT, st) else _] =>
    destruct c end; [discriminate|].
  match goal with |- context [lookahead_push st ?m] => set (move := m) end.
  assert (Hdone : forall st1,
            s_commanded_pos
              (generate_steps
                 (drain_loop
                    (s_lookahead_count
                       (lookahead_process (set_positions st1 (s_current_pos st1) end_pos)))
                    (lookahead_process (set_positions st1 (s_current_pos st1) end_pos)))
                 (s_print_time
                    (drain_loop
                       (s_lookahead_count
                          (lookahead_process (set_positions st1 (s_current_pos st1) end_pos)))
                       (lookahead_process (set_positions st1 (s_current_pos st1) end_pos)))))
            = end_pos).
  { intro st1. unfold generate_steps. cbn [s_commanded_pos set_steps_flushed].
    rewrite drain_loop_commanded, lookahead_process_commanded. reflexivity. }
  destruct (lookahead_push st move) as [st1|].
  - match goal with |- context [if ?c then _ else _] => destruct c end; cbn [fst snd];
      intros _; [apply Hdone | reflexivity].
  - destruct (lookahead_push (lookahead_flush (lookahead_process st)) move) as [st2|].
    + match goal with |- context [if ?c then _ else _] => destruct c end; cbn [fst snd];
        intros _; [apply Hdone | reflexivity].
    + cbn [fst]. discriminate.
Qed.

Lemma accepted_move_advances_commanded_position_witness :
  toolhead_get_position (snd (toolhead_move toolhead_init (Some (mk_coord 10 5 0 0)) 10))
    = mk_coord 10 5 0 0.
Proof.
  apply (accepted_move_advances_commanded_position toolhead_init (mk_coord 10 5 0 0) 10);
    vm_compute; reflexivity.
Defined.


(** ** C1: what one resolution pass does guarantee *)

(** Writes and reads of the ring array. *)
Lemma la_set_length (buf : list lookahead_move_t) (i : nat) (v : lookahead_move_t) :
  List.length (la_set buf i v) = List.length buf.
Proof.
  revert i. induction buf as [|b r IH]; intros [|i]; simpl; auto.
Qed.

Lemma la_get_set_same (buf : list lookahead_move_t) (i : nat) (v : lookahead_move_t) :
  (i < List.length buf)%nat -> la_get (la_set buf i v) i = v.
Proof.
  unfold la_get. revert i. induction buf as [|b r IH]; intros [|i] H; simpl in *; try lia; auto.
  apply IH. lia.
Qed.

Lemma la_get_set_other (buf : list lookahead_move_t) (i j : nat) (v : lookahead_move_t) :
  i <> j -> la_get (la_set buf i v) j = la_get buf j.
Proof.
  unfold la_get. revert i j. induction buf as [|b r IH]; intros [|i] [|j] H; simpl; auto; try lia.
Qed.

(** Slots are counted modulo the size of the ring. *)
Lemma slot_next (idx k : nat) : slot ((idx + 1) mod LOOKAHEAD_SIZE) k = slot idx (S k).
Proof.
  unfold slot. rewrite Nat.Div0.add_mod_idemp_l. f_equal. lia.
Qed.

Lemma slot_zero (idx : nat) : (idx < LOOKAHEAD_SIZE)%nat -> slot idx 0 = idx.
Proof. intro H. unfold slot. rewrite Nat.add_0_r. now apply Nat.mod_small. Qed.

Lemma slot_apart (idx k : nat) :
  (idx < LOOKAHEAD_SIZE)%nat -> (0 < k < LOOKAHEAD_SIZE)%nat -> slot idx k <> idx.
Proof.
  unfold slot, LOOKAHEAD_SIZE. intros H1 H2 E.
  destruct (Nat.lt_ge_cases (idx + k) 16) as [Hlt|Hge].
  - rewrite Nat.mod_small in E by assumption. lia.
  - replace (idx + k)%nat with ((idx + k - 16) + 1 * 16)%nat in E by lia.
    rewrite Nat.Div0.mod_add in E. rewrite Nat.mod_small in E by lia. lia.
Qed.

(** One turn of the forward loop writes slot [idx] and hands the end
    velocity it stored there to the next turn. *)
Lemma forward_pass_step (cfg : toolhead_config_t) (n idx : nat) (v : float)
    (buf : list lookahead_move_t) :
  exists m,
    la_start_v m = v /\
    forward_pass cfg (S n) idx v buf
      = forward_pass cfg n ((idx + 1) mod LOOKAHEAD_SIZE) (end_v m) (la_set buf idx m).
Proof.
  cbn [forward_pass]. cbv zeta.
  match goal with |- context [la_set buf idx ?m] => exists m end.
  split; reflexivity.
Qed.

Lemma forward_pass_length (cfg : toolhead_config_t) (n idx : nat) (v : float)
    (buf : list lookahead_move_t) :
  List.length (forward_pass cfg n idx v buf) = List.length buf.
Proof.
  revert idx v buf. induction n as [|n IH]; intros idx v buf; [reflexivity|].
  destruct (forward_pass_step cfg n idx v buf) as (m & _ & ->).
  rewrite IH. apply la_set_length.
Qed.

(** The forward loop leaves alone every slot it does not visit. *)
Lemma forward_pass_outside (cfg : toolhead_config_t) (n idx j : nat) (v : float)
    (buf : list lookahead_move_t) :
  (idx < LOOKAHEAD_SIZE)%nat ->
  (forall k, (k < n)%nat -> slot idx k <> j) ->
  la_get (forward_pass cfg n idx v buf) j = la_get buf j.
Proof.
  revert idx v buf. induction n as [|n IH]; intros idx v buf Hidx Hout; [reflexivity|].
  destruct (forward_pass_step cfg n idx v buf) as (m & _ & ->).
  rewrite IH.
  - apply la_get_set_other. rewrite <- (slot_zero idx Hidx). apply Hout. lia.
  - apply Nat.mod_upper_bound. discriminate.
  - intros k Hk. rewrite slot_next. apply Hout. lia.
Qed.

Lemma forward_pass_start (cfg : toolhead_config_t) (n idx : nat) (v : float)
    (buf : list lookahead_move_t) :
  (idx < LOOKAHEAD_SIZE)%nat -> (0 < n <= LOOKAHEAD_SIZE)%nat ->
  List.length buf = LOOKAHEAD_SIZE ->
  la_start_v (la_get (forward_pass cfg n idx v buf) idx) = v.
Proof.
  intros Hidx Hn Hlen. destruct n as [|n]; [lia|].
  destruct (forward_pass_step cfg n idx v buf) as (m & Hm & ->).
  rewrite forward_pass_outside.
  - rewrite la_get_set_same by lia. exact Hm.
  - apply Nat.mod_upper_bound. discriminate.
  - intros k Hk. rewrite slot_next. apply slot_apart; lia.
Qed.

(** Within one forward loop each move starts at the end velocity of the
    move before it; the loop visits no slot twice. *)
Lemma forward_pass_continuous (cfg : toolhead_config_t) (n idx k : nat) (v : float)
    (buf : list lookahead_move_t) :
  (idx < LOOKAHEAD_SIZE)%nat -> (n <= LOOKAHEAD_SIZE)%nat ->
  List.length buf = LOOKAHEAD_SIZE -> (S k < n)%nat ->
  la_start_v (la_get (forward_pass cfg n idx v buf) (slot idx (S k)))
    = end_v (la_get (forward_pass cfg n idx v buf) (slot idx k)).
Proof.
  revert idx k v buf. induction n as [|n IH]; intros idx k v buf Hidx Hn Hlen Hk; [lia|].
  destruct (forward_pass_step cfg n idx v buf) as (m & Hm & ->).
  set (idx' := ((idx + 1) mod LOOKAHEAD_SIZE)%nat).
  assert (Hidx' : (idx' < LOOKAHEAD_SIZE)%nat) by (apply Nat.mod_upper_bound; discriminate).
  assert (Hlen1 : List.length (la_set buf idx m) = LOOKAHEAD_SIZE)
    by now rewrite la_set_length.
  destruct k as [|k].
  - rewrite <- (slot_next idx 0). fold idx'.
    rewrite (slot_zero idx' Hidx'), (slot_zero idx Hidx).
    rewrite forward_pass_start by (assumption || lia).
    rewrite forward_pass_outside.
    + rewrite la_get_set_same by lia. reflexivity.
    + exact Hidx'.
    + intros j Hj. unfold idx'. rewrite slot_next. apply slot_apart; lia.
  - rewrite <- (slot_next idx (S k)), <- (slot_next idx k). fold idx'.
    apply IH; assumption || lia.
Qed.

Lemma reverse_pass_length (cfg : toolhead_config_t) (n idx : nat)
    (buf : list lookahead_move_t) :
  List.length (reverse_pass cfg n idx buf) = List.length buf.
Proof.
  revert idx buf. induction n as [|n IH]; intros idx buf; [reflexivity|].
  cbn [reverse_pass]. cbv zeta. rewrite IH, !la_set_length. reflexivity.
Qed.

(** [lookahead_process] keeps the shape of the ring, and what it leaves
    in the ring is continuous from the head on. *)
Lemma lookahead_process_continuous (st : toolhead) :
  ring_ok st ->
  ring_ok (lookahead_process st) /\
  s_lookahead_head (lookahead_process st) = s_lookahead_head st /\
  s_lookahead_count (lookahead_process st) = s_lookahead_count st /\
  emitted (lookahead_process st) = emitted st /\
  ((0 < s_lookahead_count st)%nat ->
   la_start_v (la_get (s_lookahead (lookahead_process st)) (s_lookahead_head st)) = 0%float) /\
  (forall k, (S k < s_lookahead_count st)%nat ->
   la_start_v (la_get (s_lookahead (lookahead_process st)) (slot (s_lookahead_head st) (S k)))
     = end_v (la_get (s_lookahead (lookahead_process st)) (slot (s_lookahead_head st) k))).
Proof.
  intros (Hlen & Hhead & Hcount). unfold lookahead_process.
  destruct (s_lookahead_count st) as [|c] eqn:Ec.
  - split; [repeat split; try assumption; rewrite Ec; lia|].
    repeat split; try lia.
  - cbv zeta.
    match goal with |- context [forward_pass ?cfg (S c) ?h ?v ?b] =>
      set (buf1 := b);
      assert (Hlen1 : List.length buf1 = LOOKAHEAD_SIZE)
        by (unfold buf1; now rewrite reverse_pass_length, la_set_length)
    end.
    unfold ring_ok. cbn [s_lookahead s_lookahead_head s_lookahead_count emitted set_ring].
    rewrite forward_pass_length.
    split; [repeat split; assumption|].
    split; [reflexivity|]. split; [reflexivity|]. split; [reflexivity|].
    split.
    + intros _. apply forward_pass_start; assumption || lia.
    + intros k Hk. apply forward_pass_continuous; assumption.
Qed.

Lemma emit_move_emitted (m : lookahead_move_t) (st : toolhead) :
  emitted (emit_move m st) = emitted st ++ [m].
Proof.
  unfold emit_move.
  destruct (calc_trapezoidal_profile _ _ _ _ _) as [[a c] d].
  destruct (s_p_trapq st) as [tq|].
  - destruct (trapq_append _ _ _ _ _ _ _ _ _ _ _) as [used tq']. reflexivity.
  - reflexivity.
Qed.

(** The flush loop hands the ring over in order, from the head on. *)
Lemma lookahead_flush_loop_emitted (n : nat) (st : toolhead) :
  (s_lookahead_head st < LOOKAHEAD_SIZE)%nat ->
  emitted (lookahead_flush_loop n st)
    = emitted st ++
      map (fun k => la_get (s_lookahead st) (slot (s_lookahead_head st) k))
          (seq 0 (Nat.min n (s_lookahead_count st))).
Proof.
  revert st. induction n as [|n IH]; intros st Hhead.
  - cbn. now rewrite app_nil_r.
  - cbn [lookahead_flush_loop]. unfold lookahead_pop.
    destruct (s_lookahead_count st) as [|c] eqn:Ec.
    + rewrite Nat.min_0_r. cbn. now rewrite app_nil_r.
    + match goal with |- context [emit_move ?m ?s1] =>
        set (mv := m); set (st1 := s1);
        destruct (emit_move_frame mv st1) as (_ & Hc & Hh & _ & Hr);
        pose proof (emit_move_emitted mv st1) as He
      end.
      rewrite IH.
      * rewrite Hc, Hh, Hr, He.
        cbn [st1 s_lookahead s_lookahead_head s_lookahead_count emitted set_ring].
        rewrite <- app_assoc. f_equal.
        change (Nat.min (S n) (S c)) with (S (Nat.min n c)).
        cbn [seq map app]. f_equal.
        -- unfold mv. now rewrite (slot_zero _ Hhead).
        -- rewrite <- seq_shift, map_map. apply map_ext. intro k.
           now rewrite slot_next.
      * rewrite Hh. cbn [st1 s_lookahead_head set_ring].
        apply Nat.mod_upper_bound. discriminate.
Qed.

Lemma toolhead_flush_emitted (st : toolhead) :
  emitted (toolhead_flush st) = emitted (lookahead_flush (lookahead_process st)).
Proof.
  unfold toolhead_flush, generate_steps. cbv zeta.
  cbn [s_p_trapq set_steps_flushed].
  destruct (s_p_trapq (lookahead_flush (lookahead_process st))) as [tq|]; [|reflexivity].
  destruct (trapq_free_moves _ _ _) as [used tq']. reflexivity.
Qed.

Lemma ring_ok_init : ring_ok toolhead_init.
Proof. repeat split; unfold LOOKAHEAD_SIZE; cbn; lia. Qed.

Lemma lookahead_push_ring_ok (st st1 : toolhead) (m : lookahead_move_t) :
  ring_ok st -> lookahead_push st m = Some st1 -> ring_ok st1.
Proof.
  intros (Hlen & Hhead & Hcount). unfold lookahead_push.
  destruct (Nat.leb LOOKAHEAD_SIZE (s_lookahead_count st)) eqn:E; [discriminate|].
  apply Nat.leb_gt in E. intro H. injection H as <-.
  unfold ring_ok. cbn [s_lookahead s_lookahead_head s_lookahead_count set_ring].
  rewrite la_set_length. repeat split; assumption || lia.
Qed.

Lemma lookahead_pop_ring_ok (st st1 : toolhead) (m : lookahead_move_t) :
  ring_ok st -> lookahead_pop st = Some (m, st1) -> ring_ok st1.
Proof.
  intros (Hlen & Hhead & Hcount). unfold lookahead_pop.
  destruct (s_lookahead_count st) as [|c]; [discriminate|].
  intro H.
  assert (E : st1 = set_ring st (s_lookahead st)
                      ((s_lookahead_head st + 1) mod LOOKAHEAD_SIZE)
                      (s_lookahead_tail st) c) by congruence.
  subst st1. unfold ring_ok.
  cbn [s_lookahead s_lookahead_head s_lookahead_count set_ring].
  split; [assumption|]. split; [|lia].
  apply Nat.mod_upper_bound. discriminate.
Qed.

Lemma emit_move_ring_ok (m : lookahead_move_t) (st : toolhead) :
  ring_ok st -> ring_ok (emit_move m st).
Proof.
  destruct (emit_move_frame m st) as (_ & Hc & Hh & _ & Hr).
  unfold ring_ok. now rewrite Hc, Hh, Hr.
Qed.

Lemma lookahead_flush_loop_ring_ok (n : nat) (st : toolhead) :
  ring_ok st -> ring_ok (lookahead_flush_loop n st).
Proof.
  revert st. induction n as [|n IH]; intros st H; [assumption|].
  cbn [lookahead_flush_loop].
  destruct (lookahead_pop st) as [[m st1]|] eqn:Hpop; [|assumption].
  apply IH, emit_move_ring_ok. eapply lookahead_pop_ring_ok; eassumption.
Qed.

Lemma drain_loop_ring_ok (n : nat) (st : toolhead) :
  ring_ok st -> ring_ok (drain_loop n st).
Proof.
  revert st. induction n as [|n IH]; intros st H; [assumption|].
  cbn [drain_loop].
  destruct (Nat.ltb 2 (s_lookahead_count st)); [|assumption].
  destruct (lookahead_pop st) as [[m st1]|] eqn:Hpop; [|assumption].
  apply IH, emit_move_ring_ok. eapply lookahead_pop_ring_ok; eassumption.
Qed.

Lemma lookahead_process_ring_ok (st : toolhead) :
  ring_ok st -> ring_ok (lookahead_process st).
Proof. intro H. apply (lookahead_process_continuous st H). Qed.

Lemma ring_ok_set_positions (st : toolhead) (cur cmd : coord) :
  ring_ok st -> ring_ok (set_positions st cur cmd).
Proof. intro H. exact H. Qed.

Lemma ring_ok_generate_steps (st : toolhead) (t : float) :
  ring_ok st -> ring_ok (generate_steps st t).
Proof. intro H. exact H. Qed.

(** The shape of the ring is an invariant of the planner's interface. *)
Lemma toolhead_move_ring_ok (st : toolhead) (p : option coord) (speed : float) :
  ring_ok st -> ring_ok (snd (toolhead_move st p speed)).
Proof.
  intro H. unfold toolhead_move.
  destruct p as [end_pos|]; [|assumption].
  destruct (s_p_trapq st) as [tq|]; [|assumption].
  destruct (calc_move_distance (s_commanded_pos st) end_pos <? MIN_MOVE_DISTANCE)%float;
    [assumption|].
  match goal with |- context [if ?c then (TOOLHEAD_ERR_LIMIT, st) else _] =>
    destruct c end; [assumption|].
  match goal with |- context [lookahead_push st ?m] => set (move := m) end.
  assert (Hflush : ring_ok (lookahead_flush (lookahead_process st))).
  { apply lookahead_flush_loop_ring_ok, lookahead_process_ring_ok, H. }
  assert (Hdone : forall st1, ring_ok st1 ->
            ring_ok (generate_steps
                       (drain_loop
                          (s_lookahead_count
                             (lookahead_process (set_positions st1 (s_current_pos st1) end_pos)))
                          (lookahead_process (set_positions st1 (s_current_pos st1) end_pos)))
                       (s_print_time
                          (drain_loop
                             (s_lookahead_count
                                (lookahead_process (set_positions st1 (s_current_pos st1) end_pos)))
                             (lookahead_process (set_positions st1 (s_current_pos st1) end_pos)))))).
  { intros st1 H1.
    apply ring_ok_generate_steps, drain_loop_ring_ok, lookahead_process_ring_ok.
    apply ring_ok_set_positions, H1. }
  destruct (lookahead_push st move) as [st1|] eqn:Hpush.
  - pose proof (lookahead_push_ring_ok _ _ _ H Hpush) as H1.
    match goal with |- context [if ?c then _ else _] => destruct c end; cbn [snd].
    + apply Hdone, H1.
    + apply ring_ok_set_positions, H1.
  - destruct (lookahead_push (lookahead_flush (lookahead_process st)) move)
      as [st2|] eqn:Hretry.
    + pose proof (lookahead_push_ring_ok _ _ _ Hflush Hretry) as H2.
      match goal with |- context [if ?c then _ else _] => destruct c end; cbn [snd].
      * apply Hdone, H2.
      * apply ring_ok_set_positions, H2.
    + exact Hflush.
Qed.

Lemma toolhead_flush_ring_ok (st : toolhead) : ring_ok st -> ring_ok (toolhead_flush st).
Proof.
  intro H.
  assert (Hflush : ring_ok (lookahead_flush (lookahead_process st))).
  { apply lookahead_flush_loop_ring_ok, lookahead_process_ring_ok, H. }
  unfold toolhead_flush, generate_steps. cbv zeta. cbn [s_p_trapq set_steps_flushed].
  destruct (s_p_trapq (lookahead_flush (lookahead_process st))) as [tq|]; [|exact Hflush].
  destruct (trapq_free_moves _ _ _) as [used tq']. exact Hflush.
Qed.

Lemma planned_ring_ok (st : toolhead) : planned st -> ring_ok st.
Proof.
  induction 1.
  - exact ring_ok_init.
  - now apply toolhead_move_ring_ok.
  - assumption.
  - now apply toolhead_flush_ring_ok.
Qed.

Lemma line_x_planned (n : nat) (from step speed : float) (st : toolhead) :
  planned st -> planned (snd (line_x n from step speed st)).
Proof.
  revert from st. induction n as [|n IH]; intros from st H; [exact H|].
  cbn [line_x].
  pose proof (planned_move st (Some (mk_coord (from + step) 0 0 0)) speed H) as H1.
  destruct (toolhead_move st (Some (mk_coord (from + step) 0 0 0)) speed) as [rc st1].
  specialize (IH (from + step)%float st1 H1).
  destruct (line_x n (from + step) step speed st1) as [rcs st2]. exact IH.
Qed.

(** X1.  Velocity continuity within one resolution pass: in every state
    the planner can be in, the moves one [toolhead_flush] hands to the
    queue are as many as were waiting in the ring, the first starts from
    rest, and each starts at the velocity its predecessor ends with. *)
Theorem one_flush_is_velocity_continuous (st : toolhead) (k : nat) :
  planned st -> (S k < s_lookahead_count st)%nat ->
  List.length (flushed_batch st) = s_lookahead_count st /\
  la_start_v (nth 0 (flushed_batch st) zero_la) = 0 /\
  la_start_v (nth (S k) (flushed_batch st) zero_la)
    = end_v (nth k (flushed_batch st) zero_la).
Proof.
  intros Hplanned Hk. pose proof (planned_ring_ok st Hplanned) as Hring.
  unfold flushed_batch.
  destruct (lookahead_process_continuous st Hring)
    as ((Hlen & Hhead & Hcount) & Hh & Hc & He & Hstart & Hcont).
  rewrite toolhead_flush_emitted. unfold lookahead_flush.
  rewrite lookahead_flush_loop_emitted by exact Hhead.
  rewrite He, Hh, Hc, Nat.min_id.
  rewrite skipn_app, skipn_all, Nat.sub_diag. cbn [app skipn].
  set (f := fun k0 => la_get (s_lookahead (lookahead_process st))
                             (slot (s_lookahead_head st) k0)).
  assert (Hnth : forall i, (i < s_lookahead_count st)%nat ->
            nth i (map f (seq 0 (s_lookahead_count st))) zero_la = f i).
  { intros i Hi.
    rewrite (nth_indep _ zero_la (f 0%nat)) by now rewrite length_map, length_seq.
    rewrite map_nth. now rewrite seq_nth. }
  split; [now rewrite length_map, length_seq|].
  rewrite !Hnth by lia. unfold f. split.
  - destruct Hring as (_ & Hh0 & _). rewrite (slot_zero _ Hh0). apply Hstart. lia.
  - apply Hcont. exact Hk.
Qed.

Lemma one_flush_is_velocity_continuous_witness :
  List.length (flushed_batch five_waiting) = s_lookahead_count five_waiting /\
  la_start_v (nth 0 (flushed_batch five_waiting) zero_la) = 0 /\
  la_start_v (nth 2 (flushed_batch five_waiting) zero_la)
    = end_v (nth 1 (flushed_batch five_waiting) zero_la).
Proof.
  apply (one_flush_is_velocity_continuous five_waiting 1).
  - apply line_x_planned, planned_init.
  - vm_compute. lia.
Defined.


(** ** C8: the part that holds: the stored duration *)

(** [trapq_append] links nothing but a move whose duration is the sum of
    the phase times it was given. *)
Lemma trapq_append_closed (used : list bool) (tq : trapq)
    (pt at_ ct dt : float) (sp ar : coord) (sv cv a : float) (n : node) :
  In n (history (snd (trapq_append used tq pt at_ ct dt sp ar sv cv a))
        ++ moves (snd (trapq_append used tq pt at_ ct dt sp ar sv cv a))) ->
  In n (history tq ++ moves tq) \/ duration_is_sum (snd n).
Proof.
  unfold trapq_append. destruct (move_alloc used) as [[slot used']|]; cbn [snd moves history].
  - rewrite !in_app_iff. cbn [In]. intros [H | [H | [<- | []]]]; auto.
    right. reflexivity.
  - auto.
Qed.

Lemma emit_move_closed (m : lookahead_move_t) (st : toolhead) :
  queue_closed st -> queue_closed (emit_move m st).
Proof.
  intros H mv. unfold queued, emit_move.
  destruct (calc_trapezoidal_profile _ _ _ _ _) as [[a c] d].
  destruct (s_p_trapq st) as [tq|] eqn:Eq.
  - match goal with |- context [trapq_append ?u ?q ?pt ?x1 ?x2 ?x3 ?sp ?ar ?sv ?cv ?ac] =>
      pose proof (fun n => trapq_append_closed u q pt x1 x2 x3 sp ar sv cv ac n) as Happ;
      destruct (trapq_append u q pt x1 x2 x3 sp ar sv cv ac) as [used tq']
    end.
    cbn [s_p_trapq set_queue set_print_time set_positions log_emitted snd] in *.
    rewrite in_map_iff. intros ((slot & mv') & <- & Hin).
    destruct (Happ _ Hin) as [Hold | Hnew]; [|exact Hnew].
    apply H. unfold queued. rewrite Eq. now apply (in_map snd) in Hold.
  - cbn [s_p_trapq set_queue set_print_time set_positions log_emitted]. rewrite Eq.
    intros [].
Qed.

Lemma lookahead_flush_loop_closed (n : nat) (st : toolhead) :
  queue_closed st -> queue_closed (lookahead_flush_loop n st).
Proof.
  revert st. induction n as [|n IH]; intros st H; [assumption|].
  cbn [lookahead_flush_loop].
  destruct (lookahead_pop st) as [[m st1]|] eqn:Hpop; [|assumption].
  apply IH, emit_move_closed.
  unfold lookahead_pop in Hpop. destruct (s_lookahead_count st); [discriminate|].
  injection Hpop as _ <-. exact H.
Qed.

Lemma drain_loop_closed (n : nat) (st : toolhead) :
  queue_closed st -> queue_closed (drain_loop n st).
Proof.
  revert st. induction n as [|n IH]; intros st H; [assumption|].
  cbn [drain_loop].
  destruct (Nat.ltb 2 (s_lookahead_count st)); [|assumption].
  destruct (lookahead_pop st) as [[m st1]|] eqn:Hpop; [|assumption].
  apply IH, emit_move_closed.
  unfold lookahead_pop in Hpop. destruct (s_lookahead_count st); [discriminate|].
  injection Hpop as _ <-. exact H.
Qed.

Lemma lookahead_process_closed (st : toolhead) :
  queue_closed st -> queue_closed (lookahead_process st).
Proof.
  intro H. unfold lookahead_process. destruct (s_lookahead_count st); exact H.
Qed.

Lemma queue_closed_set_positions (st : toolhead) (cur cmd : coord) :
  queue_closed st -> queue_closed (set_positions st cur cmd).
Proof. intro H. exact H. Qed.

Lemma queue_closed_generate_steps (st : toolhead) (t : float) :
  queue_closed st -> queue_closed (generate_steps st t).
Proof. intro H. exact H. Qed.

Lemma toolhead_move_closed (st : toolhead) (p : option coord) (speed : float) :
  queue_closed st -> queue_closed (snd (toolhead_move st p speed)).
Proof.
  intro H. unfold toolhead_move.
  destruct p as [end_pos|]; [|assumption].
  destruct (s_p_trapq st) as [tq|] eqn:Eq; [|assumption].
  destruct (calc_move_distance (s_commanded_pos st) end_pos <? MIN_MOVE_DISTANCE)%float;
    [assumption|].
  match goal with |- context [if ?c then (TOOLHEAD_ERR_LIMIT, st) else _] =>
    destruct c end; [assumption|].
  match goal with |- context [lookahead_push st ?m] => set (move := m) end.
  assert (Hflush : queue_closed (lookahead_flush (lookahead_process st))).
  { apply lookahead_flush_loop_closed, lookahead_process_closed, H. }
  assert (Hpush : forall s0 s1, queue_closed s0 -> lookahead_push s0 move = Some s1 ->
                                queue_closed s1).
  { intros s0 s1 H0. unfold lookahead_push.
    destruct (Nat.leb LOOKAHEAD_SIZE (s_lookahead_count s0)); [discriminate|].
    intro E. injection E as <-. exact H0. }
  assert (Hdone : forall st1, queue_closed st1 ->
            queue_closed
              (generate_steps
                 (drain_loop
                    (s_lookahead_count
                       (lookahead_process (set_positions st1 (s_current_pos st1) end_pos)))
                    (lookahead_process (set_positions st1 (s_current_pos st1) end_pos)))
                 (s_print_time
                    (drain_loop
                       (s_lookahead_count
                          (lookahead_process (set_positions st1 (s_current_pos st1) end_pos)))
                       (lookahead_process (set_positions st1 (s_current_pos st1) end_pos)))))).
  { intros st1 H1.
    apply queue_closed_generate_steps, drain_loop_closed, lookahead_process_closed.
    apply queue_closed_set_positions, H1. }
  destruct (lookahead_push st move) as [st1|] eqn:E1.
  - pose proof (Hpush _ _ H E1) as H1.
    match goal with |- context [if ?c then _ else _] => destruct c end; cbn [snd].
    + apply Hdone, H1.
    + apply queue_closed_set_positions, H1.
  - destruct (lookahead_push (lookahead_flush (lookahead_process st)) move)
      as [st2|] eqn:E2.
    + pose proof (Hpush _ _ Hflush E2) as H2.
      match goal with |- context [if ?c then _ else _] => destruct c end; cbn [snd].
      * apply Hdone, H2.
      * apply queue_closed_set_positions, H2.
    + exact Hflush.
Qed.

Lemma toolhead_flush_closed (st : toolhead) :
  queue_closed st -> queue_closed (toolhead_flush st).
Proof.
  intro H.
  assert (Hflush : queue_closed (lookahead_flush (lookahead_process st))).
  { apply lookahead_flush_loop_closed, lookahead_process_closed, H. }
  unfold toolhead_flush, generate_steps. cbv zeta. cbn [s_p_trapq set_steps_flushed].
  destruct (s_p_trapq (lookahead_flush (lookahead_process st))) as [tq|] eqn:Eq;
    [|exact Hflush].
  unfold trapq_free_moves, trapq_finalize_moves. cbn [moves history].
  intros m. unfold queued. cbn [s_p_trapq set_queue moves history].
  rewrite in_map_iff. intros (n & <- & Hin).
  apply Hflush. unfold queued. rewrite Eq. apply in_map.
  rewrite in_app_iff in *. destruct Hin as [Hin | Hin].
  - apply filter_In in Hin. destruct Hin as [Hin _].
    rewrite in_app_iff in Hin. destruct Hin as [Hin | Hin]; [now left|].
    apply filter_In in Hin. now right.
  - apply filter_In in Hin. now right.
Qed.

Lemma planned_queue_closed (st : toolhead) : planned st -> queue_closed st.
Proof.
  induction 1.
  - intros m [].
  - now apply toolhead_move_closed.
  - exact IHplanned.
  - now apply toolhead_flush_closed.
Qed.

(** X3.  In every state the planner can be in, every move in the queue,
    active or history, has as its stored duration the sum of its three
    phase times. *)
Theorem queued_duration_is_the_sum_of_the_phases (st : toolhead) (m : move) :
  planned st -> In m (queued st) ->
  move_t m = accel_t m + cruise_t m + decel_t m.
Proof. intros H Hin. exact (planned_queue_closed st H m Hin). Qed.

Lemma queued_duration_is_the_sum_of_the_phases_witness :
  let m := hd (mk_move 0 0 0 0 0 0 0 0 zero_coord zero_coord) (queued fourteen_moves) in
  In m (queued fourteen_moves) /\
  move_t m = accel_t m + cruise_t m + decel_t m.
Proof.
  cbv zeta.
  assert (Hin : In (hd (mk_move 0 0 0 0 0 0 0 0 zero_coord zero_coord)
                       (queued fourteen_moves)) (queued fourteen_moves)).
  { vm_compute. left. reflexivity. }
  split; [exact Hin|].
  apply (queued_duration_is_the_sum_of_the_phases fourteen_moves).
  - apply planned_flush, line_x_planned, planned_init.
  - exact Hin.
Defined.

(** ** The pool and the queue in the planner *)


Lemma emit_move_pool_ok (m : lookahead_move_t) (st : toolhead) :
  planner_pool_ok st -> planner_pool_ok (emit_move m st).
Proof.
  intros (tq & Eq & Hok). unfold planner_pool_ok, emit_move.
  destruct (calc_trapezoidal_profile _ _ _ _ _) as [[a c] d].
  rewrite Eq.
  match goal with |- context [trapq_append ?u ?q ?pt ?x1 ?x2 ?x3 ?sp ?ar ?sv ?cv ?ac] =>
    pose proof (TrapqFacts.trapq_append_pool_ok u q pt x1 x2 x3 sp ar sv cv ac Hok) as Happ;
    destruct (trapq_append u q pt x1 x2 x3 sp ar sv cv ac) as [used tq']
  end.
  cbn [fst snd] in Happ.
  exists tq'. split; [reflexivity | exact Happ].
Qed.

Lemma lookahead_pop_pool_ok (st st1 : toolhead) (m : lookahead_move_t) :
  planner_pool_ok st -> lookahead_pop st = Some (m, st1) -> planner_pool_ok st1.
Proof.
  intros H. unfold lookahead_pop. destruct (s_lookahead_count st); [discriminate|].
  intro E. injection E as _ <-. exact H.
Qed.

Lemma lookahead_flush_loop_pool_ok (n : nat) (st : toolhead) :
  planner_pool_ok st -> planner_pool_ok (lookahead_flush_loop n st).
Proof.
  revert st. induction n as [|n IH]; intros st H; [assumption|].
  cbn [lookahead_flush_loop].
  destruct (lookahead_pop st) as [[m st1]|] eqn:Hpop; [|assumption].
  apply IH, emit_move_pool_ok. eapply lookahead_pop_pool_ok; eassumption.
Qed.

Lemma drain_loop_pool_ok (n : nat) (st : toolhead) :
  planner_pool_ok st -> planner_pool_ok (drain_loop n st).
Proof.
  revert st. induction n as [|n IH]; intros st H; [assumption|].
  cbn [drain_loop].
  destruct (Nat.ltb 2 (s_lookahead_count st)); [|assumption].
  destruct (lookahead_pop st) as [[m st1]|] eqn:Hpop; [|assumption].
  apply IH, emit_move_pool_ok. eapply lookahead_pop_pool_ok; eassumption.
Qed.

Lemma lookahead_process_pool_ok (st : toolhead) :
  planner_pool_ok st -> planner_pool_ok (lookahead_process st).
Proof.
  intro H. unfold lookahead_process. destruct (s_lookahead_count st); exact H.
Qed.

Lemma pool_ok_set_positions (st : toolhead) (cur cmd : coord) :
  planner_pool_ok st -> planner_pool_ok (set_positions st cur cmd).
Proof. intro H. exact H. Qed.

Lemma pool_ok_generate_steps (st : toolhead) (t : float) :
  planner_pool_ok st -> planner_pool_ok (generate_steps st t).
Proof. intro H. exact H. Qed.

Lemma toolhead_move_pool_ok (st : toolhead) (p : option coord) (speed : float) :
  planner_pool_ok st -> planner_pool_ok (snd (toolhead_move st p speed)).
Proof.
  intro H. unfold toolhead_move.
  destruct p as [end_pos|]; [|assumption].
  destruct (s_p_trapq st) as [tq|] eqn:Eq; [|assumption].
  destruct (calc_move_distance (s_commanded_pos st) end_pos <? MIN_MOVE_DISTANCE)%float;
    [assumption|].
  match goal with |- context [if ?c then (TOOLHEAD_ERR_LIMIT, st) else _] =>
    destruct c end; [assumption|].
  match goal with |- context [lookahead_push st ?m] => set (move := m) end.
  assert (Hflush : planner_pool_ok (lookahead_flush (lookahead_process st))).
  { apply lookahead_flush_loop_pool_ok, lookahead_process_pool_ok, H. }
  assert (Hpush : forall s0 s1, planner_pool_ok s0 -> lookahead_push s0 move = Some s1 ->
                                planner_pool_ok s1).
  { intros s0 s1 H0. unfold lookahead_push.
    destruct (Nat.leb LOOKAHEAD_SIZE (s_lookahead_count s0)); [discriminate|].
    intro E. injection E as <-. exact H0. }
  assert (Hdone : forall st1, planner_pool_ok st1 ->
            planner_pool_ok
              (generate_steps
                 (drain_loop
                    (s_lookahead_count
                       (lookahead_process (set_positions st1 (s_current_pos st1) end_pos)))
                    (lookahead_process (set_positions st1 (s_current_pos st1) end_pos)))
                 (s_print_time
                    (drain_loop
                       (s_lookahead_count
                          (lookahead_process (set_positions st1 (s_current_pos st1) end_pos)))
                       (lookahead_process (set_positions st1 (s_current_pos st1) end_pos)))))).
  { intros st1 H1.
    apply pool_ok_generate_steps, drain_loop_pool_ok, lookahead_process_pool_ok.
    apply pool_ok_set_positions, H1. }
  destruct (lookahead_push st move) as [st1|] eqn:E1.
  - pose proof (Hpush _ _ H E1) as H1.
    match goal with |- context [if ?c then _ else _] => destruct c end; cbn [snd].
    + apply Hdone, H1.
    + apply pool_ok_set_positions, H1.
  - destruct (lookahead_push (lookahead_flush (lookahead_process st)) move)
      as [st2|] eqn:E2.
    + pose proof (Hpush _ _ Hflush E2) as H2.
      match goal with |- context [if ?c then _ else _] => destruct c end; cbn [snd].
      * apply Hdone, H2.
      * apply pool_ok_set_positions, H2.
    + exact Hflush.
Qed.

Lemma toolhead_flush_pool_ok (st : toolhead) :
  planner_pool_ok st -> planner_pool_ok (toolhead_flush st).
Proof.
  intro H.
  assert (Hflush : planner_pool_ok (lookahead_flush (lookahead_process st))).
  { apply lookahead_flush_loop_pool_ok, lookahead_process_pool_ok, H. }
  unfold toolhead_flush, generate_steps. cbv zeta. cbn [s_p_trapq set_steps_flushed].
  destruct Hflush as (tq & Eq & Hok). rewrite Eq.
  cbn [move_pool_used set_steps_flushed s_print_time].
  pose proof (TrapqFacts.trapq_free_moves_pool_ok _ _
                (s_print_time (lookahead_flush (lookahead_process st)) - 1.0)
                (TrapqFacts.trapq_finalize_pool_ok _ _
                   (s_print_time (lookahead_flush (lookahead_process st))) Hok)) as Hfree.
  destruct (trapq_free_moves _ _ _) as [used tq']. cbn [fst snd] in Hfree.
  exists tq'. split; [reflexivity | exact Hfree].
Qed.

Lemma planned_pool_ok (st : toolhead) : planned st -> planner_pool_ok st.
Proof.
  induction 1.
  - exists (mk_trapq [] []). split; [reflexivity|].
    split; [reflexivity|]. split; [constructor|].
    intro i. unfold slots_of. cbn [history moves app map]. split; [|contradiction].
    change (move_pool_used toolhead_init) with (repeat false TRAPQ_MAX_MOVES).
    intro Hi.
    destruct (Nat.lt_ge_cases i TRAPQ_MAX_MOVES) as [Hlt | Hge].
    + rewrite nth_repeat_lt in Hi by exact Hlt. discriminate.
    + rewrite nth_overflow in Hi by (now rewrite repeat_length). discriminate.
  - now apply toolhead_move_pool_ok.
  - exact IHplanned.
  - now apply toolhead_flush_pool_ok.
Qed.

Lemma NoDup_bounded_length (l : list nat) (n : nat) :
  NoDup l -> (forall i, In i l -> (i < n)%nat) -> (List.length l <= n)%nat.
Proof.
  intros Hnd Hb. replace n with (List.length (seq 0 n)) at 1 by apply length_seq.
  apply NoDup_incl_length; [exact Hnd|].
  intros i Hi. apply in_seq. specialize (Hb i Hi). lia.
Qed.

(** X9.  In every state the planner can be in the pool and the queue
    agree: no pool slot holds two queued moves, the flag of a slot is set
    exactly when a move in the queue (active or history) lives in it, and
    the queue never holds more than [TRAPQ_MAX_MOVES] moves. *)
Theorem pool_flags_mark_exactly_the_queued_moves (st : toolhead) :
  planned st ->
  exists tq,
    s_p_trapq st = Some tq /\
    NoDup (slots_of tq) /\
    (forall i, nth i (move_pool_used st) false = true <-> In i (slots_of tq)) /\
    (List.length (history tq ++ moves tq) <= TRAPQ_MAX_MOVES)%nat.
Proof.
  intro H. destruct (planned_pool_ok st H) as (tq & Eq & Hok).
  exists tq. split; [exact Eq|].
  pose proof Hok as (Hlen & Hnd & Hflag).
  split; [exact Hnd|]. split; [exact Hflag|].
  rewrite <- (@length_map node nat (@fst nat move) (history tq ++ moves tq)). apply NoDup_bounded_length; [exact Hnd|].
  intros i Hi. exact (TrapqFacts.pool_ok_slot_range _ _ _ Hok Hi).
Qed.

Lemma pool_flags_mark_exactly_the_queued_moves_witness :
  exists tq,
    s_p_trapq fourteen_moves = Some tq /\
    NoDup (slots_of tq) /\
    (forall i, nth i (move_pool_used fourteen_moves) false = true <-> In i (slots_of tq)) /\
    (List.length (history tq ++ moves tq) <= TRAPQ_MAX_MOVES)%nat.
Proof.
  apply (pool_flags_mark_exactly_the_queued_moves fourteen_moves).
  apply planned_flush, line_x_planned, planned_init.
Defined.

(** ** The lookahead ring as a queue *)

Lemma slot_inj (idx j k : nat) :
  (j < LOOKAHEAD_SIZE)%nat -> (k < LOOKAHEAD_SIZE)%nat ->
  slot idx j = slot idx k -> j = k.
Proof.
  unfold slot, LOOKAHEAD_SIZE. intros Hj Hk E.
  pose proof (Nat.div_mod_eq (idx + j) 16) as Dj.
  pose proof (Nat.div_mod_eq (idx + k) 16) as Dk.
  pose proof (Nat.mod_upper_bound (idx + j) 16 ltac:(discriminate)) as Bj.
  rewrite E in Dj. lia.
Qed.

Lemma slot_range (idx k : nat) : (slot idx k < LOOKAHEAD_SIZE)%nat.
Proof. unfold slot. apply Nat.mod_upper_bound. discriminate. Qed.

Lemma waiting_ext (buf buf' : list lookahead_move_t) (h n : nat) :
  (forall k, (k < n)%nat -> la_get buf' (slot h k) = la_get buf (slot h k)) ->
  map (fun k => la_get buf' (slot h k)) (seq 0 n)
    = map (fun k => la_get buf (slot h k)) (seq 0 n).
Proof.
  intro H. apply map_ext_in. intros k Hk. apply in_seq in Hk. apply H. lia.
Qed.

(** X10.  The lookahead ring is a first-in first-out queue of
    [LOOKAHEAD_SIZE] moves: with room left [lookahead_push] appends the
    move behind the ones waiting, on a full ring it fails; [lookahead_pop]
    hands back the move that has waited longest and leaves the rest in
    order, and fails on an empty ring. *)
Theorem lookahead_ring_is_a_fifo (st : toolhead) (m : lookahead_move_t) :
  fifo_ok st ->
  ((s_lookahead_count st < LOOKAHEAD_SIZE)%nat ->
     exists st1, lookahead_push st m = Some st1 /\ fifo_ok st1 /\
                 waiting st1 = waiting st ++ [m]) /\
  (s_lookahead_count st = LOOKAHEAD_SIZE -> lookahead_push st m = None) /\
  match waiting st with
  | [] => lookahead_pop st = None
  | h :: r => exists st1, lookahead_pop st = Some (h, st1) /\ fifo_ok st1 /\
                          waiting st1 = r
  end.
Proof.
  intros ((Hlen & Hhead & Hcount) & Htail).
  split; [|split].
  - intro Hroom. unfold lookahead_push.
    destruct (Nat.leb LOOKAHEAD_SIZE (s_lookahead_count st)) eqn:E;
      [apply Nat.leb_le in E; lia|].
    eexists. split; [reflexivity|].
    unfold fifo_ok, ring_ok, waiting.
    cbn [s_lookahead s_lookahead_head s_lookahead_tail s_lookahead_count set_ring].
    rewrite la_set_length. split; [split; [repeat split; assumption || lia|]|].
    + rewrite Htail. unfold slot. rewrite Nat.Div0.add_mod_idemp_l. f_equal. lia.
    + rewrite seq_S, map_app. cbn [map Nat.add]. f_equal.
      * apply waiting_ext. intros k Hk. apply la_get_set_other.
        rewrite Htail. intro Hbad. apply slot_inj in Hbad; lia.
      * f_equal. rewrite Htail. apply la_get_set_same. rewrite Hlen. apply slot_range.
  - intro Hfull. unfold lookahead_push. rewrite Hfull. reflexivity.
  - unfold waiting, lookahead_pop.
    destruct (s_lookahead_count st) as [|c] eqn:Ec; cbn [seq map]; [reflexivity|].
    eexists. rewrite (slot_zero _ Hhead). split; [reflexivity|].
    unfold fifo_ok, ring_ok.
    cbn [s_lookahead s_lookahead_head s_lookahead_tail s_lookahead_count set_ring].
    split; [split; [split; [assumption | split; [apply Nat.mod_upper_bound; discriminate | lia]]|]|].
    + rewrite Htail. now rewrite slot_next.
    + rewrite <- seq_shift, map_map. apply map_ext. intro k. now rewrite slot_next.
Qed.

Lemma lookahead_ring_is_a_fifo_witness :
  exists st1, lookahead_push five_waiting zero_la = Some st1 /\ fifo_ok st1 /\
              waiting st1 = waiting five_waiting ++ [zero_la].
Proof.
  apply (lookahead_ring_is_a_fifo five_waiting zero_la).
  - repeat split; vm_compute; lia.
  - vm_compute. lia.
Defined.

(** ** What [toolhead_move] answers *)




(** ** C4: the waiting loop of [toolhead_home] *)

Section Homing.

Variable HW : Type.
Variable timer_read_time : HW -> Z * HW.
Variable gpio_in_read : HW -> Z -> bool.
Variable stepper_is_moving : HW -> Endstop.stepper_id_t -> bool.
Variable stepper_stop : HW -> Endstop.stepper_id_t -> HW.
Variable hw_timer_callback : nat -> Z -> HW -> Z * HW.

Local Abbreviation gpio := (machine_gpio gpio_in_read).
Local Abbreviation stop := (machine_stepper_stop stepper_stop).
Local Abbreviation es_of := (HomingProps.es_of HW).
Local Abbreviation quiet := (HomingProps.quiet HW gpio_in_read).

Lemma sample_endstop_quiet (s : Endstop.endstops endstop_cb) (r : toolhead * HW)
    (id : Endstop.endstop_id_t) :
  quiet s ->
  Endstop.sample_endstop gpio stop (run_endstop_cb stepper_stop) id (s, r) = (s, r).
Proof.
  intro Hq. destruct (Hq id) as [Hidle Hlatch].
  unfold Endstop.sample_endstop.
  destruct (negb (Endstop.configured (s id))); [reflexivity|].
  rewrite (Hidle r), Hlatch. reflexivity.
Qed.

Lemma call_frame (f : timer_fn) (w : Z) (sys : system HW) :
  quiet (es_of sys) ->
  sys_th (snd (call gpio_in_read stepper_stop hw_timer_callback f w sys)) = sys_th sys /\
  es_of (snd (call gpio_in_read stepper_stop hw_timer_callback f w sys)) = es_of sys.
Proof.
  intro Hq. unfold call. destruct f as [|n].
  - unfold Endstop.endstop_timer_callback.
    rewrite !(sample_endstop_quiet _ _ _ Hq). split; reflexivity.
  - destruct (hw_timer_callback n w (hw (Sched.world sys))) as [next h'].
    split; reflexivity.
Qed.

Lemma sched_main_turn_frame (sys : system HW) :
  quiet (es_of sys) ->
  match Sched.sched_main_turn (read_time timer_read_time)
          (call gpio_in_read stepper_stop hw_timer_callback) sys with
  | Sched.Stop s' | Sched.Again s' => sys_th s' = sys_th sys /\ es_of s' = es_of sys
  | Sched.Crash _ _ => True
  end.
Proof.
  intro Hq. unfold Sched.sched_main_turn.
  destruct (Sched.s_timer_list sys) as [|timer rest]; [split; reflexivity|].
  unfold Sched.sched_is_before, Sched.sched_get_time, read_time.
  destruct (timer_read_time (hw (Sched.world sys))) as [now h'].
  match goal with |- context [negb ?c] => destruct c end; cbn [negb];
    [|split; reflexivity].
  destruct (Sched.func timer) as [f|]; [|exact I].
  match goal with |- context [call _ _ _ f ?w ?s0] =>
    pose proof (call_frame f w s0) as Hc;
    destruct (call gpio_in_read stepper_stop hw_timer_callback f w s0) as [next s2]
  end.
  cbn [snd] in Hc. specialize (Hc Hq).
  destruct (Z.eqb next 0); [exact Hc|].
  unfold Sched.sched_add_timer. cbn [Sched.set_waketime Sched.func].
  destruct (Sched.func timer); exact Hc.
Qed.

Lemma sched_main_frame (fuel : nat) (sys sys' : system HW) :
  quiet (es_of sys) ->
  sched_main timer_read_time gpio_in_read stepper_stop hw_timer_callback fuel sys
    = Some sys' ->
  sys_th sys' = sys_th sys /\ es_of sys' = es_of sys.
Proof.
  unfold sched_main, Sched.sched_main.
  destruct (Sched.s_shutdown_flag sys).
  - intros _ H. injection H as <-. split; reflexivity.
  - revert sys. induction fuel as [|n IH]; intros sys Hq H; [discriminate|].
    cbn [Sched.sched_main_loop] in H.
    pose proof (sched_main_turn_frame sys Hq) as Hturn.
    destruct (Sched.sched_main_turn _ _ sys) as [s1|s1|].
    + injection H as <-. exact Hturn.
    + destruct Hturn as [Ht He].
      destruct (IH s1) as [Ht' He']; [now rewrite He | exact H |].
      split; congruence.
    + discriminate.
Qed.

Lemma poll_selected_quiet (axes_mask : Z) (sys : system HW) :
  quiet (es_of sys) -> poll_selected axes_mask sys = sys.
Proof.
  intro Hq. unfold poll_selected, for_axes, Endstop.endstop_is_triggered.
  fold (es_of sys).
  destruct (has_axis axes_mask AXIS_X_MASK);
    [rewrite (proj2 (Hq Endstop.ENDSTOP_X))|];
    (destruct (has_axis axes_mask AXIS_Y_MASK);
       [fold (es_of sys); rewrite (proj2 (Hq Endstop.ENDSTOP_Y))|]);
    (destruct (has_axis axes_mask AXIS_Z_MASK);
       [fold (es_of sys); rewrite (proj2 (Hq Endstop.ENDSTOP_Z))|]);
    reflexivity.
Qed.

(** Nothing in the loop advances [s_print_time]: with switches that stay
    idle the loop of [toolhead_home] is still running after any number of
    turns, so the timeout exit is never reached. *)
Lemma home_wait_loop_never_ends (fuel : nat) (axes_mask : Z) (timeout_time : float)
    (sys : system HW) :
  quiet (es_of sys) ->
  Toolhead.triggered (s_home_ctx (sys_th sys)) = false ->
  (s_print_time (sys_th sys) <? timeout_time) = true ->
  home_wait_loop timer_read_time gpio_in_read stepper_stop hw_timer_callback
                 fuel axes_mask timeout_time sys = None.
Proof.
  revert sys. induction fuel as [|n IH]; intros sys Hq Htrig Htime; [reflexivity|].
  cbn [home_wait_loop]. rewrite Htrig, Htime. cbn [negb andb].
  rewrite (poll_selected_quiet axes_mask sys Hq).
  destruct (sched_main _ _ _ _ n sys) as [sys'|] eqn:Hpump; [|reflexivity].
  destruct (sched_main_frame n sys sys' Hq Hpump) as [Ht He].
  apply IH; rewrite ?Ht, ?He; assumption.
Qed.

Lemma wait_steppers_frame (fuel : nat) (sys sys' : system HW) :
  quiet (es_of sys) ->
  wait_steppers timer_read_time gpio_in_read stepper_is_moving stepper_stop
                hw_timer_callback fuel sys = Some sys' ->
  sys_th sys' = sys_th sys /\ es_of sys' = es_of sys.
Proof.
  revert sys. induction fuel as [|n IH]; intros sys Hq H; [discriminate|].
  cbn [wait_steppers] in H.
  destruct (any_stepper_moving stepper_is_moving sys).
  - destruct (sched_main _ _ _ _ n sys) as [s1|] eqn:Hpump; [|discriminate].
    destruct (sched_main_frame n sys s1 Hq Hpump) as [Ht He].
    destruct (IH s1) as [Ht' He']; [now rewrite He | exact H |].
    split; congruence.
  - injection H as <-. split; reflexivity.
Qed.

Lemma toolhead_wait_moves_frame (fuel : nat) (sys sys' : system HW) :
  quiet (es_of sys) ->
  toolhead_wait_moves timer_read_time gpio_in_read stepper_is_moving stepper_stop
                      hw_timer_callback fuel sys = Some sys' ->
  es_of sys' = es_of sys /\
  sys_th sys' =
    (let t := lookahead_flush (lookahead_process (sys_th sys)) in
     let t := generate_steps t (s_print_time t) in
     set_positions t (s_commanded_pos t) (s_commanded_pos t)).
Proof.
  intros Hq H. unfold toolhead_wait_moves in H.
  match type of H with context [wait_steppers _ _ _ _ _ fuel ?s0] =>
    destruct (wait_steppers timer_read_time gpio_in_read stepper_is_moving
                stepper_stop hw_timer_callback fuel s0) as [s1|] eqn:Hw;
    [|discriminate];
    destruct (wait_steppers_frame fuel s0 s1 Hq Hw) as [Ht He]
  end.
  injection H as <-. split.
  - exact He.
  - unfold sys_th, upd_th in *. cbn [Sched.world Sched.set_world th] in *.
    now rewrite Ht.
Qed.

End Homing.

(** ** Homing leaves the limits as it found them *)

Import HomingProps.

Lemma limits_emit_move (m : lookahead_move_t) (st : toolhead) :
  limits (emit_move m st) = limits st.
Proof.
  unfold emit_move.
  destruct (calc_trapezoidal_profile _ _ _ _ _) as [[a c] d].
  destruct (s_p_trapq st) as [tq|]; [|reflexivity].
  now destruct (trapq_append _ _ _ _ _ _ _ _ _ _ _) as [used tq'].
Qed.

Lemma limits_lookahead_pop (st st1 : toolhead) (m : lookahead_move_t) :
  lookahead_pop st = Some (m, st1) -> limits st1 = limits st.
Proof.
  unfold lookahead_pop. destruct (s_lookahead_count st); [discriminate|].
  now intros [= _ <-].
Qed.

Lemma limits_lookahead_flush_loop (n : nat) (st : toolhead) :
  limits (lookahead_flush_loop n st) = limits st.
Proof.
  revert st. induction n as [|n IH]; intro st; [reflexivity|].
  cbn [lookahead_flush_loop].
  destruct (lookahead_pop st) as [[m st1]|] eqn:E; [|reflexivity].
  now rewrite IH, limits_emit_move, (limits_lookahead_pop _ _ _ E).
Qed.

Lemma limits_lookahead_process (st : toolhead) :
  limits (lookahead_process st) = limits st.
Proof. unfold lookahead_process. now destruct (s_lookahead_count st). Qed.

Lemma limits_drain_loop (n : nat) (st : toolhead) :
  limits (drain_loop n st) = limits st.
Proof.
  revert st. induction n as [|n IH]; intro st; [reflexivity|].
  cbn [drain_loop]. destruct (Nat.ltb 2 (s_lookahead_count st)); [|reflexivity].
  destruct (lookahead_pop st) as [[m st1]|] eqn:E; [|reflexivity].
  now rewrite IH, limits_emit_move, (limits_lookahead_pop _ _ _ E).
Qed.

Lemma limits_lookahead_flush (st : toolhead) :
  limits (lookahead_flush st) = limits st.
Proof. apply limits_lookahead_flush_loop. Qed.

Lemma limits_lookahead_push (st st1 : toolhead) (m : lookahead_move_t) :
  lookahead_push st m = Some st1 -> limits st1 = limits st.
Proof.
  unfold lookahead_push. destruct (Nat.leb _ _); [discriminate|]. now intros [= <-].
Qed.

Lemma limits_toolhead_move (st : toolhead) (p : option coord) (speed : float) :
  limits (snd (toolhead_move st p speed)) = limits st.
Proof.
  unfold toolhead_move.
  destruct p as [end_pos|]; [|reflexivity].
  destruct (s_p_trapq st) as [tq|]; [|reflexivity].
  destruct (calc_move_distance (s_commanded_pos st) end_pos <? MIN_MOVE_DISTANCE);
    [reflexivity|].
  match goal with |- context [if ?c then (TOOLHEAD_ERR_LIMIT, st) else _] =>
    destruct c end; [reflexivity|].
  match goal with |- context [lookahead_push st ?m] => set (move := m) end.
  assert (Hfl : limits (lookahead_flush (lookahead_process st)) = limits st)
    by now rewrite limits_lookahead_flush, limits_lookahead_process.
  assert (Hdone : forall st1, limits st1 = limits st ->
            limits (snd (let st2 := set_positions st1 (s_current_pos st1) end_pos in
                         if Nat.leb (LOOKAHEAD_SIZE - 2) (s_lookahead_count st2)
                         then
                           let st3 := lookahead_process st2 in
                           let st4 := drain_loop (s_lookahead_count st3) st3 in
                           (TOOLHEAD_OK, generate_steps st4 (s_print_time st4))
                         else (TOOLHEAD_OK, st2))) = limits st).
  { intros st1 H1. cbv zeta.
    destruct (Nat.leb _ _); cbn [snd]; [|exact H1].
    unfold generate_steps. 
    change (limits (set_steps_flushed ?a ?b)) with (limits a).
    now rewrite limits_drain_loop, limits_lookahead_process. }
  destruct (lookahead_push st move) as [st1|] eqn:E1.
  - apply Hdone. apply (limits_lookahead_push _ _ _ E1).
  - destruct (lookahead_push (lookahead_flush (lookahead_process st)) move)
      as [st2|] eqn:E2.
    + apply Hdone. now rewrite (limits_lookahead_push _ _ _ E2).
    + exact Hfl.
Qed.

Lemma limits_toolhead_flush (st : toolhead) :
  limits (toolhead_flush st) = limits st.
Proof.
  unfold toolhead_flush. cbv zeta.
  set (st1 := generate_steps _ _).
  assert (H1 : limits st1 = limits st).
  { unfold st1, generate_steps.
    change (limits (set_steps_flushed ?a ?b)) with (limits a).
    now rewrite limits_lookahead_flush, limits_lookahead_process. }
  destruct (s_p_trapq st1) as [tq|]; [|exact H1].
  destruct (trapq_free_moves _ _ _) as [used tq']. exact H1.
Qed.

Section HomingRuns.

Variable HW : Type.
Variable timer_read_time : HW -> Z * HW.
Variable gpio_in_read : HW -> Z -> bool.
Variable stepper_is_moving : HW -> Endstop.stepper_id_t -> bool.
Variable stepper_stop : HW -> Endstop.stepper_id_t -> HW.
Variable hw_timer_callback : nat -> Z -> HW -> Z * HW.

Lemma limits_sample_endstop (id : Endstop.endstop_id_t)
    (p : Endstop.endstops endstop_cb * (toolhead * HW)) :
  limits (fst (snd (Endstop.sample_endstop (machine_gpio gpio_in_read)
                      (machine_stepper_stop stepper_stop)
                      (run_endstop_cb stepper_stop) id p)))
    = limits (fst (snd p)).
Proof.
  destruct p as [s [t h]]. unfold Endstop.sample_endstop.
  destruct (negb (Endstop.configured (s id))); [reflexivity|].
  destruct (Endstop.endstop_read_state _ _ _ && negb _).
  - destruct (Endstop.homing (s id)); destruct (Endstop.callback (s id)) as [[]|];
      cbn [fst snd]; unfold run_endstop_cb, home_endstop_callback, machine_stepper_stop;
      cbn [fst snd]; destruct id; reflexivity.
  - destruct (negb _ && _); reflexivity.
Qed.

Lemma limits_call (f : timer_fn) (w : Z) (sys : system HW) :
  limits (sys_th (snd (call gpio_in_read stepper_stop hw_timer_callback f w sys)))
    = limits (sys_th sys).
Proof.
  unfold call. destruct f as [|n].
  - unfold Endstop.endstop_timer_callback.
    pose proof (limits_sample_endstop Endstop.ENDSTOP_X
                  (es (Sched.world sys), (th (Sched.world sys), hw (Sched.world sys))))
      as H1.
    destruct (Endstop.sample_endstop _ _ _ Endstop.ENDSTOP_X _) as [s1 [t1 h1]].
    pose proof (limits_sample_endstop Endstop.ENDSTOP_Y (s1, (t1, h1))) as H2.
    destruct (Endstop.sample_endstop _ _ _ Endstop.ENDSTOP_Y _) as [s2 [t2 h2]].
    pose proof (limits_sample_endstop Endstop.ENDSTOP_Z (s2, (t2, h2))) as H3.
    destruct (Endstop.sample_endstop _ _ _ Endstop.ENDSTOP_Z _) as [s3 [t3 h3]].
    cbn [fst snd] in *. unfold sys_th. cbn [Sched.world Sched.set_world th].
    congruence.
  - now destruct (hw_timer_callback n w (hw (Sched.world sys))) as [next h'].
Qed.

Lemma limits_sched_main_turn (sys : system HW) :
  match Sched.sched_main_turn (read_time timer_read_time)
          (call gpio_in_read stepper_stop hw_timer_callback) sys with
  | Sched.Stop s' | Sched.Again s' => limits (sys_th s') = limits (sys_th sys)
  | Sched.Crash _ _ => True
  end.
Proof.
  unfold Sched.sched_main_turn.
  destruct (Sched.s_timer_list sys) as [|timer rest]; [reflexivity|].
  unfold Sched.sched_is_before, Sched.sched_get_time, read_time.
  destruct (timer_read_time (hw (Sched.world sys))) as [now h'].
  match goal with |- context [negb ?c] => destruct c end; cbn [negb]; [|reflexivity].
  destruct (Sched.func timer) as [f|]; [|exact I].
  match goal with |- context [call _ _ _ f ?w ?s0] =>
    pose proof (limits_call f w s0) as Hc;
    destruct (call gpio_in_read stepper_stop hw_timer_callback f w s0) as [next s2]
  end.
  cbn [snd] in Hc.
  destruct (Z.eqb next 0); [exact Hc|].
  unfold Sched.sched_add_timer. cbn [Sched.set_waketime Sched.func].
  destruct (Sched.func timer); exact Hc.
Qed.

Lemma limits_sched_main (fuel : nat) (sys sys' : system HW) :
  sched_main timer_read_time gpio_in_read stepper_stop hw_timer_callback fuel sys
    = Some sys' ->
  limits (sys_th sys') = limits (sys_th sys).
Proof.
  unfold sched_main, Sched.sched_main.
  destruct (Sched.s_shutdown_flag sys); [now intros [= <-]|].
  revert sys. induction fuel as [|n IH]; intros sys H; [discriminate|].
  cbn [Sched.sched_main_loop] in H.
  pose proof (limits_sched_main_turn sys) as Hturn.
  destruct (Sched.sched_main_turn _ _ sys) as [s1|s1|].
  - now injection H as <-.
  - rewrite (IH s1 H). exact Hturn.
  - discriminate.
Qed.

Lemma limits_wait_steppers (fuel : nat) (sys sys' : system HW) :
  wait_steppers timer_read_time gpio_in_read stepper_is_moving stepper_stop
                hw_timer_callback fuel sys = Some sys' ->
  limits (sys_th sys') = limits (sys_th sys).
Proof.
  revert sys. induction fuel as [|n IH]; intros sys H; [discriminate|].
  cbn [wait_steppers] in H.
  destruct (any_stepper_moving stepper_is_moving sys).
  - destruct (sched_main _ _ _ _ n sys) as [s1|] eqn:Hpump; [|discriminate].
    rewrite (IH s1 H). exact (limits_sched_main n sys s1 Hpump).
  - now injection H as <-.
Qed.

Lemma limits_toolhead_wait_moves (fuel : nat) (sys sys' : system HW) :
  toolhead_wait_moves timer_read_time gpio_in_read stepper_is_moving stepper_stop
                      hw_timer_callback fuel sys = Some sys' ->
  limits (sys_th sys') = limits (sys_th sys).
Proof.
  unfold toolhead_wait_moves. intro H.
  match type of H with context [wait_steppers _ _ _ _ _ fuel ?s0] =>
    destruct (wait_steppers timer_read_time gpio_in_read stepper_is_moving
                stepper_stop hw_timer_callback fuel s0) as [s1|] eqn:Hw;
    [|discriminate];
    pose proof (limits_wait_steppers fuel s0 s1 Hw) as H1
  end.
  injection H as <-.
  unfold sys_th, upd_th in *. cbn [Sched.world Sched.set_world th] in *.
  change (limits (set_positions ?a ?b ?c)) with (limits a).
  rewrite H1. unfold generate_steps.
  change (limits (set_steps_flushed ?a ?b)) with (limits a).
  now rewrite limits_lookahead_flush, limits_lookahead_process.
Qed.

Lemma limits_poll_selected (axes_mask : Z) (sys : system HW) :
  limits (sys_th (poll_selected axes_mask sys)) = limits (sys_th sys).
Proof.
  unfold poll_selected, for_axes.
  repeat match goal with
         | |- context [if ?c then _ else _] => destruct c
         end; reflexivity.
Qed.

Lemma limits_home_wait_loop (fuel : nat) (axes_mask : Z) (timeout_time : float)
    (sys sys' : system HW) :
  home_wait_loop timer_read_time gpio_in_read stepper_stop hw_timer_callback
                 fuel axes_mask timeout_time sys = Some sys' ->
  limits (sys_th sys') = limits (sys_th sys).
Proof.
  revert sys. induction fuel as [|n IH]; intros sys H; [discriminate|].
  cbn [home_wait_loop] in H.
  destruct (negb _ && _).
  - destruct (sched_main _ _ _ _ n (poll_selected axes_mask sys)) as [s1|] eqn:Hpump;
      [|discriminate].
    rewrite (IH s1 H), (limits_sched_main n _ s1 Hpump).
    apply limits_poll_selected.
  - now injection H as <-.
Qed.

(** The switches of the chosen axes after the [endstop_home_end] calls. *)
Lemma home_end_clears (axes_mask : Z) (s : Endstop.endstops endstop_cb)
    (id : Endstop.endstop_id_t) :
  has_axis axes_mask (axis_bit id) = true ->
  Endstop.homing (for_axes axes_mask (fun i s => Endstop.endstop_home_end s i) s id)
    = false.
Proof.
  intro H. unfold for_axes.
  destruct id; cbn [axis_bit] in H; rewrite ?H;
    repeat match goal with
           | |- context [if ?c then _ else _] => destruct c
           end; reflexivity.
Qed.

Lemma sys_th_upd_th (f : toolhead -> toolhead) (sys : system HW) :
  sys_th (upd_th f sys) = f (sys_th sys).
Proof. reflexivity. Qed.

Lemma sys_th_upd_es (f : Endstop.endstops endstop_cb -> Endstop.endstops endstop_cb)
    (sys : system HW) :
  sys_th (upd_es f sys) = sys_th sys.
Proof. reflexivity. Qed.

Lemma limits_stepper_stop_all (sys : system HW) :
  sys_th (stepper_stop_all stepper_stop sys) = sys_th sys.
Proof. reflexivity. Qed.

Lemma limits_home_start (axes_mask : Z) (sys : system HW) :
  s_max_pos (sys_th (home_start axes_mask sys)) = s_max_pos (sys_th sys).
Proof.
  unfold home_start. rewrite sys_th_upd_th, sys_th_upd_es. cbv zeta.
  change (s_max_pos (toolhead_flush ?a)) with (snd (limits (toolhead_flush a))).
  now rewrite limits_toolhead_flush, limits_toolhead_move.
Qed.

(** X26.  Whenever [toolhead_home] returns, with [TOOLHEAD_OK] or with
    [TOOLHEAD_ERR_HOMING], the axis limits it lifted for the homing move
    are back as they were at the call, and the endstops of the chosen
    axes are out of homing mode; it returns no other value.  This on any
    hardware and with any timers registered. *)
Theorem homing_restores_the_limits (fuel : nat) (axes_mask : Z) (sys sys' : system HW)
    (rc : Z) :
  toolhead_home timer_read_time gpio_in_read stepper_is_moving stepper_stop
                hw_timer_callback fuel axes_mask sys = Some (rc, sys') ->
  s_min_pos (sys_th sys') = s_min_pos (sys_th sys) /\
  s_max_pos (sys_th sys') = s_max_pos (sys_th sys) /\
  (forall id, has_axis axes_mask (axis_bit id) = true ->
              Endstop.homing (HomingProps.es_of HW sys' id) = false) /\
  (rc = TOOLHEAD_OK \/ rc = TOOLHEAD_ERR_HOMING).
Proof.
  unfold toolhead_home. intro H.
  destruct (toolhead_wait_moves _ _ _ _ _ fuel sys) as [s1|] eqn:Hw; [|discriminate].
  pose proof (limits_toolhead_wait_moves fuel sys s1 Hw) as L1.
  match type of H with context [home_wait_loop _ _ _ _ fuel axes_mask ?t ?s0] =>
    destruct (home_wait_loop timer_read_time gpio_in_read stepper_stop
                hw_timer_callback fuel axes_mask t s0) as [s2|] eqn:Hl;
    [|discriminate];
    pose proof (limits_home_wait_loop fuel axes_mask t s0 s2 Hl) as L2
  end.
  assert (Hmax : s_max_pos (sys_th s2) = s_max_pos (sys_th s1)).
  { rewrite <- (limits_home_start axes_mask s1). exact (f_equal snd L2). }
  clear L2 Hl Hw.
  unfold home_finish in H.
  set (s3 := upd_th (fun t => set_min_pos t (s_min_pos (sys_th s1)))
                    (stepper_stop_all stepper_stop s2)) in H.
  assert (L3 : limits (sys_th s3) = limits (sys_th sys)).
  { rewrite <- L1. unfold s3. rewrite sys_th_upd_th, limits_stepper_stop_all.
    unfold limits, set_min_pos. cbn [s_min_pos s_max_pos]. now rewrite Hmax. }
  clearbody s3.
  destruct (negb (triggered (s_home_ctx (sys_th s3)))).
  - injection H as <- <-. rewrite sys_th_upd_es, sys_th_upd_th.
    change (s_min_pos (set_home_ctx ?a ?b)) with (s_min_pos a).
    change (s_max_pos (set_home_ctx ?a ?b)) with (s_max_pos a).
    split; [exact (f_equal fst L3)|]. split; [exact (f_equal snd L3)|].
    split; [|now right].
    intros id Hid. now apply home_end_clears.
  - match type of H with context [toolhead_wait_moves _ _ _ _ _ fuel ?s0] =>
      destruct (toolhead_wait_moves timer_read_time gpio_in_read stepper_is_moving
                  stepper_stop hw_timer_callback fuel s0) as [s5|] eqn:Hw2;
      [|discriminate];
      pose proof (limits_toolhead_wait_moves fuel s0 s5 Hw2) as L5
    end.
    injection H as <- <-. rewrite sys_th_upd_th, sys_th_upd_es.
    change (s_min_pos (set_home_ctx ?a ?b)) with (s_min_pos a).
    change (s_max_pos (set_home_ctx ?a ?b)) with (s_max_pos a).
    rewrite sys_th_upd_th in L5. cbv zeta in L5.
    rewrite limits_toolhead_flush, limits_toolhead_move in L5.
    change (limits (set_positions ?a ?b ?c)) with (limits a) in L5.
    change (limits (set_home_ctx ?a ?b)) with (limits a) in L5.
    rewrite L3 in L5.
    split; [exact (f_equal fst L5)|]. split; [exact (f_equal snd L5)|].
    split; [|now left].
    intros id Hid. now apply home_end_clears.
Qed.

End HomingRuns.

Lemma homing_restores_the_limits_witness :
  match toolhead_home HomingCases.rig_clock HomingCases.switch_closed
          HomingCases.rig_moving HomingCases.rig_stop HomingCases.rig_timer
          10 AXIS_X_MASK HomingCases.rig with
  | Some (rc, sys') =>
      rc = TOOLHEAD_OK /\
      s_min_pos (sys_th sys') = default_min_pos /\
      s_max_pos (sys_th sys') = default_max_pos /\
      Endstop.homing (HomingProps.es_of Z sys' Endstop.ENDSTOP_X) = false
  | None => False
  end.
Proof.
  assert (Hrun : option_map fst
                   (toolhead_home HomingCases.rig_clock HomingCases.switch_closed
                      HomingCases.rig_moving HomingCases.rig_stop HomingCases.rig_timer
                      10 AXIS_X_MASK HomingCases.rig) = Some TOOLHEAD_OK)
    by (vm_compute; reflexivity).
  destruct (toolhead_home HomingCases.rig_clock HomingCases.switch_closed
              HomingCases.rig_moving HomingCases.rig_stop HomingCases.rig_timer
              10 AXIS_X_MASK HomingCases.rig) as [[rc sys']|] eqn:E; [|discriminate].
  destruct (homing_restores_the_limits Z HomingCases.rig_clock HomingCases.switch_closed
              HomingCases.rig_moving HomingCases.rig_stop HomingCases.rig_timer
              10 AXIS_X_MASK HomingCases.rig sys' rc E) as (H1 & H2 & H3 & _).
  split; [now injection Hrun|]. split; [exact H1|]. split; [exact H2|].
  apply H3. reflexivity.
Defined.


(** The loop does end when a switch closes: on the rig with the X switch
    held closed the fourth turn of the pump samples the switch, the
    callback raises the flag, and [toolhead_home] completes. *)
Lemma homing_returns_when_the_switch_closes :
  option_map fst
    (toolhead_home HomingCases.rig_clock HomingCases.switch_closed
       HomingCases.rig_moving HomingCases.rig_stop HomingCases.rig_timer
       10 AXIS_X_MASK HomingCases.rig)
    = Some TOOLHEAD_OK.
Proof. vm_compute. reflexivity. Qed.

(** On the same rig with the switch left open the call does not return,
    however many turns it is given: 30 s of print time never pass. *)
Lemma homing_hangs_while_the_switch_stays_open (turns : nat) :
  toolhead_home HomingCases.rig_clock HomingCases.switch_open
    HomingCases.rig_moving HomingCases.rig_stop HomingCases.rig_timer
    turns AXIS_X_MASK HomingCases.rig = None.
Proof.
  unfold toolhead_home.
  destruct (toolhead_wait_moves HomingCases.rig_clock HomingCases.switch_open
              HomingCases.rig_moving HomingCases.rig_stop HomingCases.rig_timer
              turns HomingCases.rig) as [sys1|] eqn:Hw; [|reflexivity].
  assert (Hq0 : HomingProps.quiet Z HomingCases.switch_open
                  (HomingProps.es_of Z HomingCases.rig)).
  { intros [| |]; (split; [intro r|]); reflexivity. }
  destruct (toolhead_wait_moves_frame Z HomingCases.rig_clock HomingCases.switch_open
              HomingCases.rig_moving HomingCases.rig_stop HomingCases.rig_timer
              turns _ _ Hq0 Hw) as [He Ht].
  rewrite home_wait_loop_never_ends; [reflexivity | | | ].
  - unfold home_start, HomingProps.es_of, upd_th, upd_es, for_axes.
    cbn [Sched.world Sched.set_world es].
    unfold HomingProps.es_of in He. rewrite He.
    intros [| |]; (split; [intro r|]); reflexivity.
  - unfold home_start, sys_th, upd_th, upd_es, for_axes in *.
    cbn [Sched.world Sched.set_world th] in *. rewrite Ht.
    vm_compute. reflexivity.
  - unfold home_start, sys_th, upd_th, upd_es, for_axes in *.
    cbn [Sched.world Sched.set_world th] in *. rewrite Ht.
    vm_compute. reflexivity.
Qed.

End ToolheadFacts.

(* ================================================================== *)
(** * Properties of the endstop sampling *)
(* ================================================================== *)

Module EndstopFacts.
Import Endstop EndstopCases.
Local Open Scope Z_scope.

Section Sampling.

Variables CB R : Type.
Variable gpio_in_read : R -> Z -> bool.
Variable stepper_stop : R -> stepper_id_t -> R.
Variable run_callback : CB -> endstop_id_t -> R -> R.

(** Stopping a stepper and running a callback change no input pin. *)
Hypothesis stop_keeps_pins :
  forall r s pin, gpio_in_read (stepper_stop r s) pin = gpio_in_read r pin.
Hypothesis callback_keeps_pins :
  forall cb id r pin, gpio_in_read (run_callback cb id r) pin = gpio_in_read r pin.

Local Notation "'sample'" := (sample_endstop gpio_in_read stepper_stop run_callback).
Local Notation "'pass'" := (endstop_timer_callback gpio_in_read stepper_stop run_callback).

Lemma endstop_id_eqb_eq (a b : endstop_id_t) : endstop_id_eqb a b = true <-> a = b.
Proof. destruct a, b; cbn; split; congruence. Qed.

Lemma endstop_upd_same (es : endstops CB) (id : endstop_id_t) (v : endstop_state_t CB) :
  upd es id v id = v.
Proof. unfold upd. destruct id; reflexivity. Qed.

Lemma endstop_upd_other (es : endstops CB) (id j : endstop_id_t) (v : endstop_state_t CB) :
  j <> id -> upd es id v j = es j.
Proof.
  intro H. unfold upd. destruct (endstop_id_eqb j id) eqn:E; [|reflexivity].
  apply endstop_id_eqb_eq in E. contradiction.
Qed.

Lemma set_triggered_same (e : endstop_state_t CB) : set_triggered e (triggered e) = e.
Proof. destruct e; reflexivity. Qed.

(** One switch's turn: the latch takes the level, the other switches and
    the pins are as before. *)
Lemma sample_endstop_spec (id : endstop_id_t) (es : endstops CB) (r : R) :
  (forall pin, gpio_in_read (snd (sample id (es, r))) pin = gpio_in_read r pin) /\
  (forall j, j <> id -> fst (sample id (es, r)) j = es j) /\
  fst (sample id (es, r)) id = sampled CB R gpio_in_read (es id) r.
Proof.
  unfold sample_endstop, sampled.
  destruct (configured (es id)) eqn:Hc; cbn [negb fst snd].
  2:{ rewrite set_triggered_same. auto. }
  destruct (endstop_read_state gpio_in_read (es id) r) eqn:Hs;
    destruct (triggered (es id)) eqn:Ht; cbn [negb andb fst snd].
  - assert (E : set_triggered (es id) true = es id)
      by (rewrite <- Ht; apply set_triggered_same).
    rewrite E. auto.
  - split; [|split; [intros j Hj; now apply endstop_upd_other | apply endstop_upd_same]].
    intro p. destruct (callback (es id)); destruct (homing (es id));
      now rewrite ?callback_keeps_pins, ?stop_keeps_pins.
  - split; [reflexivity|]. split; [intros j Hj; now apply endstop_upd_other | apply endstop_upd_same].
  - assert (E : set_triggered (es id) false = es id)
      by (rewrite <- Ht; apply set_triggered_same).
    rewrite E. auto.
Qed.

Lemma read_state_pins (e : endstop_state_t CB) (r r' : R) :
  (forall pin, gpio_in_read r' pin = gpio_in_read r pin) ->
  endstop_read_state gpio_in_read e r' = endstop_read_state gpio_in_read e r.
Proof. intro H. unfold endstop_read_state. now rewrite H. Qed.

Lemma pass_spec (waketime : Z) (es : endstops CB) (r : R) :
  (forall pin, gpio_in_read (snd (snd (pass waketime (es, r)))) pin = gpio_in_read r pin) /\
  forall id, fst (snd (pass waketime (es, r))) id = sampled CB R gpio_in_read (es id) r.
Proof.
  unfold endstop_timer_callback. cbn [snd].
  destruct (sample_endstop_spec ENDSTOP_X es r) as (Px & Ox & Sx).
  destruct (sample ENDSTOP_X (es, r)) as [es1 r1]. cbn [fst snd] in *.
  destruct (sample_endstop_spec ENDSTOP_Y es1 r1) as (Py & Oy & Sy).
  destruct (sample ENDSTOP_Y (es1, r1)) as [es2 r2]. cbn [fst snd] in *.
  destruct (sample_endstop_spec ENDSTOP_Z es2 r2) as (Pz & Oz & Sz).
  destruct (sample ENDSTOP_Z (es2, r2)) as [es3 r3]. cbn [fst snd] in *.
  split.
  - intro p. now rewrite Pz, Py, Px.
  - assert (P2 : forall pin, gpio_in_read r2 pin = gpio_in_read r pin)
      by (intro p; now rewrite Py, Px).
    unfold sampled in *. intros [].
    + rewrite Oz, Oy by discriminate. exact Sx.
    + rewrite Oz by discriminate. rewrite Sy, (Ox ENDSTOP_Y) by discriminate.
      now rewrite (read_state_pins _ r r1 Px).
    + rewrite Sz, (Oy ENDSTOP_Z), (Ox ENDSTOP_Z) by discriminate.
      now rewrite (read_state_pins _ r r2 P2).
Qed.

(** X17.  After a pass of [endstop_timer_callback] the latch of every
    configured switch is the level read in that pass, every other field of
    every switch is as before, and an unconfigured switch is untouched;
    this when stopping a stepper and running a callback change no input
    pin. *)
Theorem latch_follows_the_switch (waketime : Z) (es : endstops CB) (r : R)
    (id : endstop_id_t) :
  fst (snd (pass waketime (es, r))) id
    = set_triggered (es id)
        (if configured (es id) then endstop_read_state gpio_in_read (es id) r
         else triggered (es id)) /\
  fst (pass waketime (es, r)) = Sched.wrap32 (waketime + ENDSTOP_SAMPLE_INTERVAL).
Proof.
  split; [|reflexivity].
  destruct (pass_spec waketime es r) as [_ H]. exact (H id).
Qed.

(** A switch whose latch already shows the level is passed over. *)
Lemma sample_settled (id : endstop_id_t) (es : endstops CB) (r : R) :
  (configured (es id) = true ->
   triggered (es id) = endstop_read_state gpio_in_read (es id) r) ->
  sample id (es, r) = (es, r).
Proof.
  intro H. unfold sample_endstop.
  destruct (configured (es id)); cbn [negb]; [|reflexivity].
  rewrite <- (H eq_refl). now destruct (triggered (es id)).
Qed.

Lemma sampled_settled (e : endstop_state_t CB) (r r' : R) :
  (forall pin, gpio_in_read r' pin = gpio_in_read r pin) ->
  configured (sampled CB R gpio_in_read e r) = true ->
  triggered (sampled CB R gpio_in_read e r)
    = endstop_read_state gpio_in_read (sampled CB R gpio_in_read e r) r'.
Proof.
  intros Hp. unfold sampled, set_triggered, endstop_read_state.
  cbn [configured triggered pin invert]. intros ->. cbn [negb]. now rewrite Hp.
Qed.

(** X18.  A switch that stays closed fires once: a second pass of
    [endstop_timer_callback] over unchanged pins stops no stepper, runs
    no callback and changes no latch. *)
Theorem held_switch_fires_once (w1 w2 : Z) (es : endstops CB) (r : R) :
  snd (pass w2 (snd (pass w1 (es, r)))) = snd (pass w1 (es, r)).
Proof.
  destruct (pass_spec w1 es r) as [Hp Hs].
  destruct (pass w1 (es, r)) as [t [es1 r1]]. cbn [fst snd] in *.
  unfold endstop_timer_callback. cbn [snd].
  assert (Hset : forall id, configured (es1 id) = true ->
                 triggered (es1 id) = endstop_read_state gpio_in_read (es1 id) r1).
  { intros id. rewrite Hs. now apply sampled_settled. }
  rewrite (sample_settled ENDSTOP_X es1 r1 (Hset _)).
  rewrite (sample_settled ENDSTOP_Y es1 r1 (Hset _)).
  now rewrite (sample_settled ENDSTOP_Z es1 r1 (Hset _)).
Qed.

End Sampling.

Lemma latch_follows_the_switch_witness :
  triggered
    (fst (snd (endstop_timer_callback tally_pin tally_stop tally_callback 0
                 (two_switches, both_closed))) ENDSTOP_Y) = true /\
  triggered
    (fst (snd (endstop_timer_callback tally_pin tally_stop tally_callback 0
                 (two_switches, x_closed))) ENDSTOP_Y) = false.
Proof.
  split.
  - rewrite (proj1 (latch_follows_the_switch unit tally tally_pin tally_stop tally_callback
               (fun _ _ _ => eq_refl) (fun _ _ _ _ => eq_refl)
               0 two_switches both_closed ENDSTOP_Y)).
    reflexivity.
  - rewrite (proj1 (latch_follows_the_switch unit tally tally_pin tally_stop tally_callback
               (fun _ _ _ => eq_refl) (fun _ _ _ _ => eq_refl)
               0 two_switches x_closed ENDSTOP_Y)).
    reflexivity.
Defined.

Lemma held_switch_fires_once_witness :
  let first := snd (endstop_timer_callback tally_pin tally_stop tally_callback 0
                      (two_switches, both_closed)) in
  snd first = (3, 3%nat) /\
  snd (endstop_timer_callback tally_pin tally_stop tally_callback 1000 first) = first.
Proof.
  cbv zeta. split; [reflexivity|].
  apply (held_switch_fires_once unit tally tally_pin tally_stop tally_callback
           (fun _ _ _ => eq_refl) (fun _ _ _ _ => eq_refl) 0 1000 two_switches both_closed).
Defined.

End EndstopFacts.

(* ================================================================== *)
(** * Properties of the stepper driver *)
(* ================================================================== *)

Module StepperFacts.
Import Endstop Stepper StepperCases.
Local Open Scope Z_scope.

Lemma stepper_id_eqb_eq (a b : stepper_id_t) : stepper_id_eqb a b = true <-> a = b.
Proof. destruct a, b; cbn; split; congruence. Qed.

Lemma stepper_upd_same (st : steppers) (id : stepper_id_t) (s : stepper_state_t) :
  upd st id s id = s.
Proof. unfold upd. now destruct id. Qed.

Lemma stepper_upd_other (st : steppers) (id j : stepper_id_t) (s : stepper_state_t) :
  j <> id -> upd st id s j = st j.
Proof.
  intro H. unfold upd. destruct (stepper_id_eqb j id) eqn:E; [|reflexivity].
  apply stepper_id_eqb_eq in E. contradiction.
Qed.

Section Clocked.

Variable W : Type.
Variable timer_read_time : W -> Z * W.

Local Notation "'turn'" := (stepper_turn timer_read_time).
Local Notation "'callback'" := (stepper_timer_callback timer_read_time).

(** A stepper with nothing left to do is passed over. *)
Lemma turn_idle (a : walk W) (i : stepper_id_t) :
  count (w_steppers a i) = 0 -> turn a i = a.
Proof. intro H. unfold stepper_turn. now rewrite H. Qed.

(** A turn touches no other stepper. *)
Lemma turn_other (a : walk W) (i j : stepper_id_t) :
  j <> i -> w_steppers (turn a i) j = w_steppers a j.
Proof.
  intro H. unfold stepper_turn.
  destruct (count (w_steppers a i) =? 0); [reflexivity|].
  destruct (sched_is_before _ _ _) as [due w].
  destruct (if due then _ else _) as [s ev].
  destruct (0 <? count s); cbn [w_steppers]; now apply stepper_upd_other.
Qed.

(** With one stepper at work the callback is that stepper's turn. *)
Lemma callback_only (st : steppers) (w : W) (id : stepper_id_t) :
  (forall j, j <> id -> count (st j) = 0) ->
  callback st w =
    let a := turn (mk_walk st w 0 false []) id in
    (if has_active a then min_next_time a else 0, w_steppers a, w_world a, w_events a).
Proof.
  intro Hidle. unfold stepper_timer_callback. cbn [fold_left]. cbv zeta.
  assert (Hafter : forall j, j <> id ->
            turn (turn (mk_walk st w 0 false []) id) j
              = turn (mk_walk st w 0 false []) id).
  { intros j Hj. apply turn_idle. rewrite (turn_other _ id j Hj). cbn [w_steppers].
    now apply Hidle. }
  assert (Hbefore : forall j, j <> id ->
            turn (mk_walk st w 0 false []) j = mk_walk st w 0 false []).
  { intros j Hj. apply turn_idle. cbn [w_steppers]. now apply Hidle. }
  destruct id;
    repeat first [ rewrite Hbefore by discriminate | rewrite Hafter by discriminate ];
    reflexivity.
Qed.

(** The turn of a stepper whose step is due. *)
Lemma turn_due (st : steppers) (w : W) (id : stepper_id_t) (c : Z) :
  count (st id) = c -> 0 < c < 2 ^ 32 ->
  fst (sched_is_before timer_read_time (next_step_time (st id)) w) = true ->
  let a := turn (mk_walk st w 0 false []) id in
  count (w_steppers a id) = c - 1 /\
  position (w_steppers a id) = position (fst (stepper_do_step (st id))) /\
  config (w_steppers a id) = config (st id) /\
  dir (w_steppers a id) = dir (st id) /\
  enabled (w_steppers a id) = enabled (st id) /\
  configured (w_steppers a id) = configured (st id) /\
  interval (w_steppers a id) = interval (st id) /\
  next_step_time (w_steppers a id)
    = (if 0 <? c - 1 then Sched.wrap32 (next_step_time (st id) + interval (st id))
       else next_step_time (st id)) /\
  (if has_active a then min_next_time a else 0)
    = (if 0 <? c - 1 then Sched.wrap32 (next_step_time (st id) + interval (st id))
       else 0).
Proof.
  intros Hc Hr Hdue. cbv zeta. unfold stepper_turn. cbn [w_steppers w_world has_active].
  assert (E0 : (count (st id) =? 0) = false) by (apply Z.eqb_neq; lia).
  rewrite E0.
  destruct (sched_is_before timer_read_time (next_step_time (st id)) w) as [due w1].
  cbn [fst] in Hdue. subst due.
  assert (Hdo : count (fst (stepper_do_step (st id))) = c /\
                config (fst (stepper_do_step (st id))) = config (st id) /\
                dir (fst (stepper_do_step (st id))) = dir (st id) /\
                enabled (fst (stepper_do_step (st id))) = enabled (st id) /\
                configured (fst (stepper_do_step (st id))) = configured (st id) /\
                interval (fst (stepper_do_step (st id))) = interval (st id) /\
                next_step_time (fst (stepper_do_step (st id))) = next_step_time (st id)).
  { unfold stepper_do_step. destruct (negb _ || negb _); cbn; auto 10. }
  destruct (stepper_do_step (st id)) as [s ev]. cbn [fst] in *.
  destruct Hdo as (D1 & D2 & D3 & D4 & D5 & D6 & D7).
  assert (Ew : Sched.wrap32 (count s - 1) = c - 1).
  { rewrite D1. unfold Sched.wrap32. apply Z.mod_small. lia. }
  rewrite Ew. cbn [count next_step_time].
  destruct (0 <? c - 1); cbn [w_steppers has_active min_next_time negb orb];
    rewrite stepper_upd_same; cbn; rewrite ?D6, ?D7; auto 10.
Qed.

Lemma to_int32_small (z : Z) : - 2 ^ 31 <= z < 2 ^ 31 -> Sched.to_int32 z = z.
Proof.
  intro H. unfold Sched.to_int32, Sched.wrap32. cbv zeta.
  destruct (Z_lt_le_dec z 0) as [Hn | Hp].
  - replace (z mod 2 ^ 32) with (z + 2 ^ 32).
    + destruct (z + 2 ^ 32 <? 2 ^ 31) eqn:E; [apply Z.ltb_lt in E; lia | lia].
    + apply Z.mod_unique with (q := -1); lia.
  - rewrite Z.mod_small by lia.
    destruct (z <? 2 ^ 31) eqn:E; [reflexivity | apply Z.ltb_ge in E; lia].
Qed.

Lemma do_step_position (s : stepper_state_t) :
  - 2 ^ 31 <= position s - 1 -> position s + 1 < 2 ^ 31 ->
  position (fst (stepper_do_step s)) = stepped s 1.
Proof.
  intros Hlo Hhi. unfold stepper_do_step, stepped.
  destruct (configured s), (enabled s); cbn [negb orb andb fst position]; try reflexivity.
  destruct (dir s); apply to_int32_small; lia.
Qed.

(** The steppers after one due callback of a move with [c] steps left. *)
Lemma callback_due (st : steppers) (w : W) (id : stepper_id_t) (c : Z) :
  (forall j, j <> id -> count (st j) = 0) ->
  count (st id) = c -> 0 < c < 2 ^ 32 ->
  fst (sched_is_before timer_read_time (next_step_time (st id)) w) = true ->
  - 2 ^ 31 <= position (st id) - 1 -> position (st id) + 1 < 2 ^ 31 ->
  let r := callback st w in
  let st1 := snd (fst (fst r)) in
  fst (fst (fst r))
    = (if 0 <? c - 1 then Sched.wrap32 (next_step_time (st id) + interval (st id))
       else 0) /\
  (forall j, j <> id -> st1 j = st j) /\
  count (st1 id) = c - 1 /\
  position (st1 id) = stepped (st id) 1 /\
  config (st1 id) = config (st id) /\ dir (st1 id) = dir (st id) /\
  enabled (st1 id) = enabled (st id) /\ configured (st1 id) = configured (st id) /\
  interval (st1 id) = interval (st id) /\
  next_step_time (st1 id)
    = (if 0 <? c - 1 then Sched.wrap32 (next_step_time (st id) + interval (st id))
       else next_step_time (st id)).
Proof.
  intros Hidle Hc Hr Hdue Hlo Hhi. cbv zeta.
  rewrite (callback_only st w id Hidle). cbv zeta. cbn [fst snd].
  destruct (turn_due st w id c Hc Hr Hdue) as (T1 & T2 & T3 & T4 & T5 & T6 & T7 & T8 & T9).
  cbv zeta in *.
  split; [exact T9|]. split.
  { intros j Hj. now rewrite (turn_other _ id j Hj). }
  rewrite T2, (do_step_position _ Hlo Hhi). auto 10.
Qed.

Lemma stepped_add (s s1 : stepper_state_t) (n : Z) :
  configured s1 = configured s -> enabled s1 = enabled s -> dir s1 = dir s ->
  position s1 = stepped s 1 ->
  stepped s1 n = stepped s (n + 1).
Proof.
  intros Hc He Hd Hp. unfold stepped in *. rewrite Hc, He, Hd, Hp.
  destruct (configured s && enabled s); [|reflexivity]. destruct (dir s); lia.
Qed.

(** [n] due callbacks of a move of [n] steps. *)
Lemma callbacks_of_a_move (id : stepper_id_t) (iv : Z) (n : nat) :
  forall (st : steppers) (w : W) (t0 : Z),
  (0 < n)%nat -> Z.of_nat n < 2 ^ 32 ->
  count (st id) = Z.of_nat n ->
  next_step_time (st id) = Sched.wrap32 t0 -> interval (st id) = iv ->
  (forall j, j <> id -> count (st j) = 0) ->
  all_due W timer_read_time t0 iv n ->
  - 2 ^ 31 <= position (st id) - Z.of_nat n ->
  position (st id) + Z.of_nat n < 2 ^ 31 ->
  let r := callbacks W timer_read_time n st w in
  fst (fst r) = 0 /\
  count (snd (fst r) id) = 0 /\
  position (snd (fst r) id) = stepped (st id) (Z.of_nat n) /\
  forall j, j <> id -> snd (fst r) j = st j.
Proof.
  induction n as [|k IH]; intros st w t0 Hpos Hn Hc Ht Hi Hidle Hdue Hlo Hhi; [lia|].
  assert (Hd0 : fst (sched_is_before timer_read_time (next_step_time (st id)) w) = true).
  { rewrite Ht. specialize (Hdue 0%nat w ltac:(lia)).
    now rewrite Z.mul_0_l, Z.add_0_r in Hdue. }
  destruct (callback_due st w id (Z.of_nat (S k)) Hidle Hc ltac:(lia) Hd0
              ltac:(lia) ltac:(lia))
    as (R & O & C & P & F1 & F2 & F3 & F4 & F5 & F6).
  cbv zeta in *. cbn [callbacks].
  destruct (callback st w) as [[[ret st1] w1] ev]. cbn [fst snd] in *.
  destruct k as [|k].
  - cbn [fst snd]. change (Z.of_nat 1 - 1) with 0 in *. cbn in R, C.
    repeat split; assumption.
  - assert (Hgt : (0 <? Z.of_nat (S (S k)) - 1) = true) by (apply Z.ltb_lt; lia).
    rewrite Hgt in F6.
    destruct (IH st1 w1 (t0 + iv)) as (R' & C' & P' & O').
    + lia.
    + lia.
    + rewrite C. lia.
    + rewrite F6, Ht, Hi. unfold Sched.wrap32. now rewrite Zplus_mod_idemp_l.
    + congruence.
    + intros j Hj. rewrite (O j Hj). now apply Hidle.
    + intros i w' Hi'. specialize (Hdue (S i) w' ltac:(lia)).
      replace (t0 + iv + Z.of_nat i * iv) with (t0 + Z.of_nat (S i) * iv) by lia.
      exact Hdue.
    + rewrite P. unfold stepped.
      destruct (configured (st id) && enabled (st id)); [destruct (dir (st id))|]; lia.
    + rewrite P. unfold stepped.
      destruct (configured (st id) && enabled (st id)); [destruct (dir (st id))|]; lia.
    + cbv zeta in *. split; [exact R'|]. split; [exact C'|]. split.
      * rewrite P'. rewrite (stepped_add (st id) (st1 id) _ F4 F3 F2 P). f_equal. lia.
      * intros j Hj. now rewrite (O' j Hj), (O j Hj).
Qed.

(** X24.  A move of [n] steps ends after [n] callbacks.  With one stepper
    at work and the clock past each step time, the [n]-th callback of the
    stepper timer returns 0 (no further wake-up), the stepper is no
    longer moving and stands [n] steps further in the direction of the
    move; a stepper that is not configured or not enabled uses up the
    move without a step.  No other stepper is touched. *)
Theorem move_ends_after_its_steps (id : stepper_id_t) (st : steppers) (w : W)
    (n : nat) (t0 : Z) :
  (0 < n)%nat -> Z.of_nat n < 2 ^ 32 ->
  count (st id) = Z.of_nat n ->
  next_step_time (st id) = Sched.wrap32 t0 ->
  (forall j, j <> id -> count (st j) = 0) ->
  all_due W timer_read_time t0 (interval (st id)) n ->
  - 2 ^ 31 <= position (st id) - Z.of_nat n ->
  position (st id) + Z.of_nat n < 2 ^ 31 ->
  let r := callbacks W timer_read_time n st w in
  fst (fst r) = 0 /\
  stepper_is_moving (snd (fst r)) id = false /\
  stepper_get_position (snd (fst r)) id = stepped (st id) (Z.of_nat n) /\
  forall j, j <> id -> snd (fst r) j = st j.
Proof.
  intros Hpos Hn Hc Ht Hidle Hdue Hlo Hhi.
  destruct (callbacks_of_a_move id (interval (st id)) n st w t0 Hpos Hn Hc Ht eq_refl
              Hidle Hdue Hlo Hhi) as (R & C & P & O).
  cbv zeta in *. unfold stepper_is_moving, stepper_get_position.
  rewrite C. auto.
Qed.

(** X25.  [stepper_stop] ends a move at once: the stepper is no longer
    moving, the other steppers are as they were, and the next callback
    of the stepper timer leaves the stopped stepper, and so its position,
    untouched whatever the others do. *)
Theorem stopped_stepper_takes_no_step (st : steppers) (id : stepper_id_t) (w : W) :
  stepper_is_moving (stepper_stop st id) id = false /\
  (forall j, j <> id -> stepper_stop st id j = st j) /\
  snd (fst (fst (callback (stepper_stop st id) w))) id = stepper_stop st id id /\
  stepper_get_position (snd (fst (fst (callback (stepper_stop st id) w)))) id
    = stepper_get_position st id.
Proof.
  assert (Hc : count (stepper_stop st id id) = 0).
  { unfold stepper_stop. now rewrite stepper_upd_same. }
  assert (Hkeep : forall a : walk W, count (w_steppers a id) = 0 ->
            forall j, w_steppers (turn a j) id = w_steppers a id).
  { intros a Ha j. destruct (stepper_id_eqb id j) eqn:E.
    - apply stepper_id_eqb_eq in E. subst j. now rewrite turn_idle.
    - apply turn_other. intros ->. destruct j; discriminate. }
  assert (Hrun : snd (fst (fst (callback (stepper_stop st id) w))) id
                 = stepper_stop st id id).
  { unfold stepper_timer_callback. cbn [fold_left snd fst].
    set (a0 := mk_walk (stepper_stop st id) w 0 false []).
    assert (H0 : w_steppers a0 id = stepper_stop st id id) by reflexivity.
    assert (H1 := Hkeep a0 ltac:(rewrite H0; exact Hc) STEPPER_X).
    assert (H2 := Hkeep (turn a0 STEPPER_X) ltac:(rewrite H1, H0; exact Hc) STEPPER_Y).
    assert (H3 := Hkeep (turn (turn a0 STEPPER_X) STEPPER_Y)
                    ltac:(rewrite H2, H1, H0; exact Hc) STEPPER_Z).
    assert (H4 := Hkeep (turn (turn (turn a0 STEPPER_X) STEPPER_Y) STEPPER_Z)
                    ltac:(rewrite H3, H2, H1, H0; exact Hc) STEPPER_E).
    now rewrite H4, H3, H2, H1. }
  split; [|split; [|split]].
  - unfold stepper_is_moving. now rewrite Hc.
  - intros j Hj. unfold stepper_stop. now apply stepper_upd_other.
  - exact Hrun.
  - unfold stepper_get_position. rewrite Hrun. unfold stepper_stop. now rewrite stepper_upd_same.
Qed.

End Clocked.

Lemma move_ends_after_its_steps_witness :
  let r := callbacks unit late_clock 5 five_steps_back tt in
  fst (fst r) = 0 /\
  stepper_is_moving (snd (fst r)) STEPPER_X = false /\
  stepper_get_position (snd (fst r)) STEPPER_X = -5.
Proof.
  cbv zeta.
  destruct (move_ends_after_its_steps unit late_clock STEPPER_X five_steps_back tt 5 100)
    as (H1 & H2 & H3 & _).
  - lia.
  - cbn. lia.
  - reflexivity.
  - reflexivity.
  - intros j Hj. destruct j; [contradiction | reflexivity ..].
  - intros k w Hk. do 5 (destruct k as [|k]; [reflexivity|]). lia.
  - vm_compute. discriminate.
  - vm_compute. reflexivity.
  - split; [exact H1|]. split; [exact H2 | exact H3].
Defined.

End StepperFacts.

(* ================================================================== *)
(** * Properties of the heater loop *)
(* ================================================================== *)

Module HeaterFacts.
Import Heater HeaterProps.
Local Open Scope Q_scope.

Lemma Qltb_true (a b : Q) : Qltb a b = true <-> a < b.
Proof.
  unfold Qltb. rewrite negb_true_iff. split.
  - intro H. apply Qnot_le_lt. intro Hle. apply Qle_bool_iff in Hle. congruence.
  - intro H. destruct (Qle_bool b a) eqn:E; trivial.
    apply Qle_bool_iff in E. apply Qlt_not_le in H. contradiction.
Qed.

Lemma Qltb_false (a b : Q) : Qltb a b = false <-> b <= a.
Proof.
  unfold Qltb. rewrite negb_false_iff. apply Qle_bool_iff.
Qed.

Tactic Notation "qbool" := qbool_using Qltb_true Qltb_false.
Tactic Notation "arith_done" := arith_done_using Qltb_true Qltb_false.
Tactic Notation "inv_done" := inv_done_using Qltb_true Qltb_false.

Lemma pid_update_bounds (s : heater_state_t) (p : pid_params_t) (temp : Q) :
  Inv s -> -20 <= temp <= 300 ->
  0 <= fst (pid_update s p temp PID_DT) <= 1 /\
  output (snd (pid_update s p temp PID_DT)) = fst (pid_update s p temp PID_DT) /\
  Inv (snd (pid_update s p temp PID_DT)).
Proof.
  intros (Hi & Ho & Ht) Htemp.
  unfold pid_update, Inv, PID_INTEGRAL_MAX, PID_DT, HEATER_TEMP_MIN, HEATER_TEMP_MAX in *.
  set (error := target_temp s - temp).
  assert (He : -300 <= error <= 320) by (unfold error; lra).
  set (I0 := integral s + error * (1 # 10)).
  assert (HI0 : -130 <= I0 <= 132) by (unfold I0; lra).
  set (I1 := if Qltb 100 I0 then 100 else if Qltb I0 (- (100)) then - (100) else I0).
  assert (HI1 : -100 <= I1 <= 100 /\ (I1 == I0 \/ (I1 == 100 /\ 0 < error) \/ (I1 == -100 /\ error < 0))).
  { unfold I1. destruct (Qltb 100 I0) eqn:E1; [|destruct (Qltb I0 (-(100))) eqn:E2]; qbool.
    - split; [lra|]. right. left. split; [reflexivity|]. unfold I0 in E1. lra.
    - split; [lra|]. right. right. split; [reflexivity|]. unfold I0 in E2. lra.
    - split; [lra|]. left. reflexivity. }
  clearbody I1.
  set (u := kp p * error + ki p * I1 + kd p * ((error - prev_error s) / (1 # 10))).
  clearbody u.
  destruct HI1 as [HI1 Hcase].
  destruct (Qltb u 0) eqn:E3; [|destruct (Qltb 1 u) eqn:E4].
  - destruct (Qltb error 0 && Qltb I1 0) eqn:E5; cbn [fst snd output integral target_temp];
      qbool; repeat split; try lra.
  - destruct (Qltb 0 error && Qltb 0 I1) eqn:E5; cbn [fst snd output integral target_temp];
      qbool; repeat split; try lra.
  - cbn [fst snd output integral target_temp]. qbool. repeat split; lra.
Qed.

Lemma valid_id_cases (id : Z) : valid_id id = true -> id = 0%Z \/ id = 1%Z.
Proof.
  unfold valid_id, HEATER_COUNT. intro H. apply andb_prop in H. destruct H as [H1 H2].
  apply Z.leb_le in H1. apply Z.ltb_lt in H2. lia.
Qed.

Lemma reset_inv : module_inv heaters_reset.
Proof. unfold heaters_reset, zero_state. inv_done. Qed.

Lemma heater_init_inv (m : heaters) : module_inv m -> module_inv (heater_init m).
Proof.
  intros (a & b & p & q & Hs & Hp & Ha & Hb & Hpd & Hqd).
  unfold heater_init. destruct (s_module_initialized m).
  - exists a, b, p, q. auto 10.
  - inv_done.
Qed.

Lemma heater_set_pwm_inv (m : heaters) (id : Z) (d : Q) :
  module_inv m -> 0 <= d ->
  module_inv (heater_set_pwm m id d) /\
  s_heater_state (heater_set_pwm m id d) = s_heater_state m /\
  (valid_id id = true ->
   0 <= duty (pwm_of (heater_set_pwm m id d) id) <= max_power (config_of id)).
Proof.
  intros (a & b & p & q & Hs & Hp & Ha & Hb & Hpd & Hqd) Hd.
  unfold heater_set_pwm. destruct (valid_id id) eqn:Hv; cbn [negb].
  - destruct (valid_id_cases id Hv) as [-> | ->]; index_eval; rewrite Hp; index_eval;
      (split; [|split; [reflexivity|intros _]]);
      destruct (Qltb 1 d) eqn:E; rewrite ?Hs; try inv_done; arith_done.
  - split; [|split; [reflexivity|discriminate]].
    exists a, b, p, q. auto 10.
Qed.

Lemma ntc_checked : forallb ntc_in_range (map Z.of_nat (seq 0 4096)) = true.
Proof. vm_compute. reflexivity. Qed.

Lemma ntc_range (adc : Z) :
  Qeq_bool (ntc_adc_to_temp adc) HEATER_TEMP_INVALID = false ->
  -20 <= ntc_adc_to_temp adc <= 300.
Proof.
  intro Hvalid.
  assert (Hin : (0 <= adc <= 4095)%Z).
  { unfold ntc_adc_to_temp, ADC_MAX_VALUE in Hvalid.
    destruct ((adc <? 0)%Z || (adc >? 4095)%Z) eqn:E; [discriminate|].
    apply orb_false_elim in E. destruct E as [E1 E2].
    apply Z.ltb_ge in E1. rewrite Z.gtb_ltb in E2. apply Z.ltb_ge in E2. lia. }
  pose proof ntc_checked as Hall. rewrite forallb_forall in Hall.
  assert (Hok : ntc_in_range adc = true).
  { apply Hall. rewrite <- (Z2Nat.id adc) by lia. apply in_map.
    apply in_seq. lia. }
  unfold ntc_in_range in Hok. rewrite Hvalid in Hok. cbn [orb] in Hok.
  apply andb_prop in Hok. destruct Hok as [H1 H2].
  apply Qle_bool_iff in H1. apply Qle_bool_iff in H2. split; assumption.
Qed.

Lemma heater_get_temp_inv (adc_read : Z -> Z) (m : heaters) (id : Z) :
  module_inv m ->
  module_inv (snd (heater_get_temp adc_read m id)) /\
  (Qeq_bool (fst (heater_get_temp adc_read m id)) HEATER_TEMP_INVALID = false ->
   -20 <= fst (heater_get_temp adc_read m id) <= 300).
Proof.
  intro Hm. unfold heater_get_temp.
  destruct (valid_id id) eqn:Hv; cbn [negb]; [|split; [assumption|(intro Hbad; cbn [fst] in Hbad; vm_compute in Hbad; discriminate)]].
  assert (Hm' : module_inv (if s_module_initialized m then m else heater_init m)).
  { destruct (s_module_initialized m) eqn:E; [assumption|].
    apply heater_init_inv; assumption. }
  set (m1 := if s_module_initialized m then m else heater_init m) in *. clearbody m1.
  destruct Hm' as (a & b & p & q & Hs & Hp & Ha & Hb & Hpd & Hqd).
  destruct ((get_adc_gpio (adc_channel (config_of id)) =? GPIO_INVALID)%Z);
    [split; [exists a, b, p, q; auto 10|(intro Hbad; cbn [fst] in Hbad; vm_compute in Hbad; discriminate)]|].
  set (adc := adc_read (get_adc_gpio (adc_channel (config_of id)))). clearbody adc.
  destruct (adc <? 0)%Z; [split; [exists a, b, p, q; auto 10|(intro Hbad; cbn [fst] in Hbad; vm_compute in Hbad; discriminate)]|].
  destruct (Qeq_bool (ntc_adc_to_temp adc) HEATER_TEMP_INVALID) eqn:E; cbn [negb fst snd].
  - split; [exists a, b, p, q; auto 10|intro Hbad; cbn [fst] in Hbad; congruence].
  - split; [|intros _; now apply ntc_range].
    destruct (valid_id_cases id Hv) as [-> | ->]; index_eval; rewrite Hs; index_eval;
      rewrite Hp; inv_done.
Qed.

Lemma clamp_target_range (target : Q) :
  HEATER_TEMP_MIN <=
    (if Qltb target HEATER_TEMP_MIN then HEATER_TEMP_MIN
     else if Qltb HEATER_TEMP_MAX target then HEATER_TEMP_MAX else target)
  <= HEATER_TEMP_MAX.
Proof.
  unfold HEATER_TEMP_MIN, HEATER_TEMP_MAX.
  destruct (Qltb target 0) eqn:E1; [|destruct (Qltb 300 target) eqn:E2]; qbool; lra.
Qed.

Lemma heater_set_temp_inv (m : heaters) (id : Z) (target : Q) :
  module_inv m -> module_inv (heater_set_temp m id target).
Proof.
  intros (a & b & p & q & Hs & Hp & Ha & Hb & Hpd & Hqd).
  unfold heater_set_temp, heater_set_pwm.
  destruct (valid_id id) eqn:Hv; cbn [negb]; [|exists a, b, p, q; auto 10].
  pose proof (clamp_target_range target) as Ht.
  set (t := if Qltb target HEATER_TEMP_MIN then HEATER_TEMP_MIN
            else if Qltb HEATER_TEMP_MAX target then HEATER_TEMP_MAX else target) in *.
  clearbody t.
  destruct (valid_id_cases id Hv) as [-> | ->]; cbn [valid_id negb]; rewrite ?Hv;
    index_eval; rewrite Hs, Hp; index_eval.
  all: match goal with |- context [if Qltb PID_TARGET_CHANGE_THRESHOLD ?d then _ else _] =>
         destruct (Qltb PID_TARGET_CHANGE_THRESHOLD d) end.
  all: destruct (Qle_bool t 0) eqn:E3; cbn [negb].
  all: try (change (Qltb 1 0) with false; cbn iota).
  all: index_eval.
  all: try (match goal with |- context [if negb ?c then _ else _] => destruct c end;
            cbn [negb]; index_eval).
  all: inv_done.
Qed.

Lemma heater_is_at_target_inv (adc_read : Z -> Z) (m : heaters) (id : Z) :
  module_inv m -> module_inv (snd (heater_is_at_target adc_read m id)).
Proof.
  intro Hm. unfold heater_is_at_target.
  destruct (valid_id id); cbn [negb]; [|assumption].
  pose proof (heater_get_temp_inv adc_read m id Hm) as [H _].
  destruct (heater_get_temp adc_read m id) as [c m1]. cbn [snd] in H.
  destruct (Qle_bool (target_temp (state_of m1 id)) 0); assumption.
Qed.

Lemma state_of_inv (m : heaters) (id : Z) :
  module_inv m -> valid_id id = true -> Inv (state_of m id).
Proof.
  intros (a & b & p & q & Hs & Hp & Ha & Hb & Hpd & Hqd) Hv.
  destruct (valid_id_cases id Hv) as [-> | ->]; index_eval; rewrite Hs; assumption.
Qed.

Lemma set_state_inv (m : heaters) (id : Z) (s : heater_state_t) :
  module_inv m -> valid_id id = true -> Inv s ->
  module_inv (set_state m id s) /\ state_of (set_state m id s) id = s.
Proof.
  intros (a & b & p & q & Hs & Hp & Ha & Hb & Hpd & Hqd) Hv Hi.
  destruct (valid_id_cases id Hv) as [-> | ->]; index_eval; rewrite Hs; index_eval;
    (split; [|reflexivity]); unfold module_inv; do 4 eexists;
    (split; [reflexivity|]); (split; [eassumption|]); auto.
Qed.

Lemma max_power_is_one (id : Z) : valid_id id = true -> max_power (config_of id) = 1.
Proof. intro Hv. destruct (valid_id_cases id Hv) as [-> | ->]; reflexivity. Qed.

Lemma Inv_abs (s : heater_state_t) : Inv s -> Qabs (integral s) <= PID_INTEGRAL_MAX.
Proof. intros (Hi & _). apply Qabs_Qle_condition. exact Hi. Qed.

Lemma heater_task_one_inv (adc_read : Z -> Z) (m : heaters) (i : Z) :
  module_inv m -> valid_id i = true ->
  module_inv (heater_task_one adc_read m i) /\ tick_bounds (heater_task_one adc_read m i) i.
Proof.
  intros Hm Hv. unfold heater_task_one, tick_bounds.
  destruct (heater_get_temp_inv adc_read m i Hm) as [Hm1 Hrange].
  destruct (heater_get_temp adc_read m i) as [temp m1]. cbn [fst snd] in *.
  rewrite (max_power_is_one i Hv).
  destruct (Qeq_bool temp HEATER_TEMP_INVALID) eqn:Einv.
  - destruct (heater_set_pwm_inv m1 i 0 Hm1 (Qle_refl 0)) as (H1 & H2 & H3).
    split; [exact H1|].
    pose proof (state_of_inv _ i H1 Hv) as Hs.
    rewrite (max_power_is_one i Hv) in H3.
    split; [apply Hs | split; [now apply Inv_abs | now apply H3]].
  - specialize (Hrange eq_refl).
    pose proof (state_of_inv m1 i Hm1 Hv) as Hs1.
    destruct (Qle_bool (target_temp (state_of m1 i)) 0) eqn:Et.
    + match goal with |- context [set_state m1 i ?s] =>
        assert (Hi : Inv s) by (revert Hs1; unfold Inv; cbn [integral output target_temp];
                                intros (A & B & C); repeat split; try lra; apply A || apply C);
        destruct (set_state_inv m1 i s Hm1 Hv Hi) as [Hm2 Hst]
      end.
      destruct (heater_set_pwm_inv _ i 0 Hm2 (Qle_refl 0)) as (H1 & H2 & H3).
      split; [exact H1|].
      pose proof (state_of_inv _ i H1 Hv) as Hs.
      rewrite (max_power_is_one i Hv) in H3.
      split; [apply Hs | split; [now apply Inv_abs | now apply H3]].
    + destruct (pid_update_bounds (state_of m1 i) (pid (config_of i)) temp Hs1 Hrange)
        as (Hout & Heq & Hinv).
      destruct (pid_update (state_of m1 i) (pid (config_of i)) temp PID_DT) as [out s'].
      cbn [fst snd] in *.
      destruct (set_state_inv m1 i s' Hm1 Hv Hinv) as [Hm2 Hst].
      destruct (heater_set_pwm_inv _ i out Hm2 (proj1 Hout)) as (H1 & H2 & H3).
      split; [exact H1|].
      pose proof (state_of_inv _ i H1 Hv) as Hs.
      rewrite (max_power_is_one i Hv) in H3.
      split; [apply Hs | split; [now apply Inv_abs | now apply H3]].
Qed.

Lemma heater_task_inv (adc_read : Z -> Z) (m : heaters) :
  module_inv m -> module_inv (heater_task adc_read m).
Proof.
  intro Hm. unfold heater_task. destruct (s_module_initialized m); cbn [negb]; [|assumption].
  apply heater_task_one_inv; [|reflexivity].
  apply heater_task_one_inv; [assumption|reflexivity].
Qed.

Lemma reachable_inv (m : heaters) : reachable m -> module_inv m.
Proof.
  induction 1.
  - exact reset_inv.
  - now apply heater_init_inv.
  - now apply heater_set_temp_inv.
  - now apply heater_get_temp_inv.
  - now apply heater_is_at_target_inv.
  - now apply heater_task_inv.
Qed.

Lemma module_inv_bounds (m : heaters) (i : Z) :
  module_inv m -> valid_id i = true -> tick_bounds m i.
Proof.
  intros Hm Hv. pose proof (state_of_inv m i Hm Hv) as Hs.
  unfold tick_bounds. rewrite (max_power_is_one i Hv).
  split; [apply Hs | split; [now apply Inv_abs|]].
  destruct Hm as (a & b & p & q & Hs' & Hp & Ha & Hb & Hpd & Hqd).
  destruct (valid_id_cases i Hv) as [-> | ->]; index_eval; rewrite Hp; assumption.
Qed.

(** C7.  In every state the heater module can reach, and for every ADC
    reading: when the sensor value is valid, the output [pid_update]
    returns lies in [0, max_power] and the accumulator it leaves has
    absolute value at most 100; after the heater's turn of [heater_task],
    and after the whole task, the stored output, the accumulator and the
    duty given to the PWM driver are within the same bounds. *)
Theorem pid_bounds_hold_at_every_tick (m : heaters) (adc_read : Z -> Z) (i : Z) :
  reachable m -> valid_id i = true ->
  (let temp := fst (heater_get_temp adc_read m i) in
   let m1 := snd (heater_get_temp adc_read m i) in
   Qeq_bool temp HEATER_TEMP_INVALID = false ->
   let r := pid_update (state_of m1 i) (pid (config_of i)) temp PID_DT in
   0 <= fst r <= max_power (config_of i) /\
   Qabs (integral (snd r)) <= PID_INTEGRAL_MAX) /\
  tick_bounds (heater_task_one adc_read m i) i /\
  tick_bounds (heater_task adc_read m) i.
Proof.
  intros Hr Hv. pose proof (reachable_inv m Hr) as Hm.
  split; [|split].
  - cbv zeta. intro Hvalid.
    destruct (heater_get_temp_inv adc_read m i Hm) as [Hm1 Hrange].
    specialize (Hrange Hvalid).
    pose proof (state_of_inv _ i Hm1 Hv) as Hs1.
    destruct (pid_update_bounds (state_of (snd (heater_get_temp adc_read m i)) i)
                (pid (config_of i)) (fst (heater_get_temp adc_read m i)) Hs1 Hrange)
      as (Hout & Heq & Hinv).
    rewrite (max_power_is_one i Hv). split; [exact Hout | now apply Inv_abs].
  - now apply heater_task_one_inv.
  - apply module_inv_bounds; [now apply heater_task_inv | exact Hv].
Qed.

Lemma pid_bounds_hold_at_every_tick_witness :
  tick_bounds (heater_task (fun _ => 2048%Z) heating_up) HEATER_HOTEND.
Proof.
  apply (pid_bounds_hold_at_every_tick heating_up (fun _ => 2048%Z) HEATER_HOTEND).
  - apply reach_set_temp, reach_init, reach_reset.
  - reflexivity.
Defined.

(** C6, as the code has it.  A reading that is negative or above 4095
    gives the invalid-temperature sentinel; a reading from 0 up to the
    first table entry gives [HEATER_TEMP_MAX], 300 degrees, which is also
    the temperature of that entry; a reading above the last table entry
    and up to 4095 gives [HEATER_TEMP_MIN], 0 degrees. *)
Theorem ntc_outside_the_table (adc_value : Z) :
  ((adc_value < 0 \/ 4095 < adc_value)%Z ->
     ntc_adc_to_temp adc_value = HEATER_TEMP_INVALID) /\
  ((0 <= adc_value < 23)%Z -> ntc_adc_to_temp adc_value = HEATER_TEMP_MAX) /\
  ((3244 < adc_value <= 4095)%Z -> ntc_adc_to_temp adc_value = HEATER_TEMP_MIN).
Proof.
  unfold ntc_adc_to_temp, ADC_MAX_VALUE.
  change ntc_first_adc with 23%Z. change ntc_last_adc with 3244%Z.
  repeat split; intro H.
  - assert (E : ((adc_value <? 0) || (adc_value >? 4095))%Z = true).
    { apply orb_true_iff. rewrite Z.gtb_ltb. destruct H; [left; apply Z.ltb_lt|right; apply Z.ltb_lt]; lia. }
    now rewrite E.
  - assert (E : ((adc_value <? 0) || (adc_value >? 4095))%Z = false).
    { apply orb_false_iff. rewrite Z.gtb_ltb. split; apply Z.ltb_ge; lia. }
    rewrite E. assert (E2 : (adc_value <? 23)%Z = true) by (apply Z.ltb_lt; lia).
    now rewrite E2.
  - assert (E : ((adc_value <? 0) || (adc_value >? 4095))%Z = false).
    { apply orb_false_iff. rewrite Z.gtb_ltb. split; apply Z.ltb_ge; lia. }
    rewrite E. assert (E2 : (adc_value <? 23)%Z = false) by (apply Z.ltb_ge; lia).
    rewrite E2. assert (E3 : (adc_value >? 3244)%Z = true) by (rewrite Z.gtb_ltb; apply Z.ltb_lt; lia).
    now rewrite E3.
Qed.

Lemma ntc_outside_the_table_witness :
  ntc_adc_to_temp (-1) = HEATER_TEMP_INVALID /\
  ntc_adc_to_temp 4096 = HEATER_TEMP_INVALID /\
  ntc_adc_to_temp 10 = HEATER_TEMP_MAX /\
  ntc_adc_to_temp 4000 = HEATER_TEMP_MIN.
Proof.
  split; [|split; [|split]].
  - apply (ntc_outside_the_table (-1)). lia.
  - apply (ntc_outside_the_table 4096). lia.
  - apply (ntc_outside_the_table 10). lia.
  - apply (ntc_outside_the_table 4000). lia.
Defined.

(** C6 on the code.  3245 is above the last table entry (3244, -20
    degrees) and within the converter's range; the conversion gives 0
    degrees, not the -20 of the table's cold end. *)
Lemma cold_end_is_zero_not_minus_twenty :
  (3244 < 3245 <= 4095)%Z /\
  ntc_adc_to_temp 3245 = 0 /\
  ntc_adc_to_temp 3244 == -20 /\
  snd (last s_ntc_table (0, 0)%Z) = (-200)%Z /\
  ~ ntc_adc_to_temp 3245 == -20.
Proof.
  split; [lia|]. split; [reflexivity|]. split; [reflexivity|]. split; [reflexivity|].
  intro H. vm_compute in H. discriminate.
Qed.

(** ** Targets *)

(** X12.  [heater_set_temp] stores the requested target clamped to
    0..300 degrees and [heater_get_target] reads it back; the other
    heater's target is not touched, and a target within the range is
    stored as given. *)
Theorem target_is_stored_clamped (m : heaters) (id : Z) (t : Q) :
  reachable m -> valid_id id = true ->
  heater_get_target (heater_set_temp m id t) id = clamp_target t /\
  heater_get_target (heater_set_temp m id t) (other_heater id)
    = heater_get_target m (other_heater id) /\
  (HEATER_TEMP_MIN <= t <= HEATER_TEMP_MAX ->
   heater_get_target (heater_set_temp m id t) id = t).
Proof.
  intros Hr Hv. destruct (reachable_inv m Hr) as (a & b & p & q & Hs & Hp & _).
  assert (Hmain : heater_get_target (heater_set_temp m id t) id = clamp_target t /\
                  heater_get_target (heater_set_temp m id t) (other_heater id)
                    = heater_get_target m (other_heater id)).
  { unfold heater_get_target, heater_set_temp, heater_set_pwm, clamp_target, other_heater.
    destruct (valid_id_cases id Hv) as [-> | ->]; cbn [valid_id negb]; rewrite ?Hv;
      change (valid_id 0) with true; change (valid_id 1) with true;
      change (valid_id (1 - 0)) with true; change (valid_id (1 - 1)) with true;
      cbn [negb]; index_eval; rewrite Hs, Hp; index_eval.
    all: match goal with |- context [if Qltb PID_TARGET_CHANGE_THRESHOLD ?d then _ else _] =>
           destruct (Qltb PID_TARGET_CHANGE_THRESHOLD d) end.
    all: match goal with |- context [Qle_bool ?t0 0] => destruct (Qle_bool t0 0) end;
         cbn [negb].
    all: try (change (Qltb 1 0) with false; cbn iota).
    all: index_eval.
    all: try (match goal with |- context [if negb ?c then _ else _] => destruct c end;
              cbn [negb]; index_eval).
    all: change (Z.to_nat (1 - 0)) with 1%nat; change (Z.to_nat (1 - 1)) with 0%nat;
         cbn [nth list_set target_temp s_heater_state].
    all: split; reflexivity. }
  destruct Hmain as [H1 H2]. split; [exact H1|]. split; [exact H2|].
  intros [Hlo Hhi]. rewrite H1. unfold clamp_target.
  destruct (Qltb t HEATER_TEMP_MIN) eqn:E1.
  - apply Qltb_true in E1. exfalso. apply (Qlt_not_le _ _ E1 Hlo).
  - destruct (Qltb HEATER_TEMP_MAX t) eqn:E2; [|reflexivity].
    apply Qltb_true in E2. exfalso. apply (Qlt_not_le _ _ E2 Hhi).
Qed.

Lemma target_is_stored_clamped_witness :
  let m := heater_set_temp heating_up HEATER_BED 350 in
  heater_get_target m HEATER_BED = 300 /\
  heater_get_target m HEATER_HOTEND = 200.
Proof.
  cbv zeta.
  destruct (target_is_stored_clamped heating_up HEATER_BED 350) as (H1 & H2 & _).
  - apply reach_set_temp, reach_init, reach_reset.
  - reflexivity.
  - split; [exact H1 | exact H2].
Defined.

(** ** A failed reading *)

Lemma list_set_other {A : Type} (l : list A) (i k : nat) (v d : A) :
  k <> i -> nth k (list_set l i v) d = nth k l d.
Proof.
  revert i k. induction l as [|a l IH]; intros i k Hk; [destruct i; reflexivity|].
  destruct i, k; cbn [list_set nth]; try reflexivity; [contradiction|].
  apply IH. congruence.
Qed.

Lemma list_set_same {A : Type} (l : list A) (i : nat) (v d : A) :
  (i < List.length l)%nat -> nth i (list_set l i v) d = v.
Proof.
  revert i. induction l as [|a l IH]; intros i Hi; [cbn in Hi; lia|].
  destruct i; cbn [list_set nth]; [reflexivity|]. apply IH. cbn in Hi. lia.
Qed.

(** What one heater's turn leaves alone: the other heater and the
    initialisation flag. *)
Lemma heater_set_pwm_frame (m : heaters) (j : Z) (d : Q) (k : nat) :
  s_heater_state (heater_set_pwm m j d) = s_heater_state m /\
  s_module_initialized (heater_set_pwm m j d) = s_module_initialized m /\
  (k <> Z.to_nat j ->
   nth k (pwm (heater_set_pwm m j d)) (mk_pwm 0 false) = nth k (pwm m) (mk_pwm 0 false)).
Proof.
  unfold heater_set_pwm. destruct (valid_id j); cbn [negb]; [|auto].
  unfold set_pwm; cbn [s_heater_state s_module_initialized pwm].
  repeat split. intro Hk. now apply list_set_other.
Qed.

Lemma heater_get_temp_frame (adc_read : Z -> Z) (m : heaters) (j : Z) (k : nat) :
  s_module_initialized m = true ->
  pwm (snd (heater_get_temp adc_read m j)) = pwm m /\
  s_module_initialized (snd (heater_get_temp adc_read m j)) = true /\
  (k <> Z.to_nat j ->
   nth k (s_heater_state (snd (heater_get_temp adc_read m j))) zero_state
     = nth k (s_heater_state m) zero_state).
Proof.
  intro Hi. unfold heater_get_temp. rewrite Hi.
  repeat match goal with
         | |- context [if ?c then _ else _] => destruct c
         end; cbn [snd]; unfold set_state; cbn [s_heater_state s_module_initialized pwm];
    repeat split; auto.
  intro Hk. now apply list_set_other.
Qed.

Lemma heater_task_one_frame (adc_read : Z -> Z) (m : heaters) (i j : Z) :
  s_module_initialized m = true -> Z.to_nat i <> Z.to_nat j ->
  s_module_initialized (heater_task_one adc_read m j) = true /\
  state_of (heater_task_one adc_read m j) i = state_of m i /\
  pwm_of (heater_task_one adc_read m j) i = pwm_of m i.
Proof.
  intros Hi Hk. unfold heater_task_one.
  destruct (heater_get_temp_frame adc_read m j (Z.to_nat i) Hi) as (Hp & Hi1 & Hs).
  specialize (Hs Hk).
  destruct (heater_get_temp adc_read m j) as [temp m1]. cbn [snd] in *.
  unfold state_of, pwm_of.
  destruct (Qeq_bool temp HEATER_TEMP_INVALID).
  - destruct (heater_set_pwm_frame m1 j 0 (Z.to_nat i)) as (E1 & E2 & E3).
    rewrite E1, E2, (E3 Hk), Hp. auto.
  - match goal with |- context [Qle_bool ?t 0] => destruct (Qle_bool t 0) end.
    + match goal with |- context [heater_set_pwm ?mm j 0] =>
        destruct (heater_set_pwm_frame mm j 0 (Z.to_nat i)) as (E1 & E2 & E3) end.
      rewrite E1, E2, (E3 Hk). unfold set_state; cbn [s_heater_state s_module_initialized pwm].
      rewrite (list_set_other _ _ _ _ _ Hk), Hp. auto.
    + destruct (pid_update _ _ _ _) as [o s].
      destruct (heater_set_pwm_frame (set_state m1 j s) j o (Z.to_nat i)) as (E1 & E2 & E3).
      rewrite E1, E2, (E3 Hk). unfold set_state; cbn [s_heater_state s_module_initialized pwm].
      rewrite (list_set_other _ _ _ _ _ Hk), Hp. auto.
Qed.

Lemma gpio_of_heater (i : Z) :
  valid_id i = true -> (get_adc_gpio (adc_channel (config_of i)) =? GPIO_INVALID)%Z = false.
Proof. intro Hv. destruct (valid_id_cases i Hv) as [-> | ->]; reflexivity. Qed.

Lemma fault_turn (adc_read : Z -> Z) (m : heaters) (i : Z) :
  s_module_initialized m = true -> valid_id i = true -> sensor_fault adc_read i ->
  heater_task_one adc_read m i = heater_set_pwm m i 0.
Proof.
  intros Hi Hv Hf. unfold heater_task_one, heater_get_temp.
  rewrite Hv, Hi, (gpio_of_heater i Hv). cbn [negb].
  unfold sensor_fault in Hf. cbv zeta in Hf.
  set (v := adc_read (get_adc_gpio (adc_channel (config_of i)))) in *.
  destruct (v <? 0)%Z eqn:E.
  - reflexivity.
  - apply Z.ltb_ge in E. destruct Hf as [Hf | Hf]; [lia|].
    assert (Ht : ntc_adc_to_temp v = HEATER_TEMP_INVALID).
    { unfold ntc_adc_to_temp. replace (v >? ADC_MAX_VALUE)%Z with true.
      - now rewrite orb_true_r.
      - symmetry. apply Z.gtb_lt. exact Hf. }
    rewrite Ht. reflexivity.
Qed.

Lemma duty_after_set_pwm_zero (m : heaters) (i : Z) :
  module_inv m -> valid_id i = true ->
  duty (pwm_of (heater_set_pwm m i 0) i) = 0 /\
  state_of (heater_set_pwm m i 0) i = state_of m i.
Proof.
  intros (a & b & p & q & Hs & Hp & _) Hv. unfold heater_set_pwm. rewrite Hv. cbn [negb].
  destruct (valid_id_cases i Hv) as [-> | ->]; index_eval; rewrite Hp; index_eval;
    split; reflexivity.
Qed.

Lemma heater_task_fault (adc_read : Z -> Z) (m : heaters) (i : Z) :
  module_inv m -> s_module_initialized m = true -> valid_id i = true ->
  sensor_fault adc_read i ->
  duty (pwm_of (heater_task adc_read m) i) = 0 /\
  state_of (heater_task adc_read m) i = state_of m i.
Proof.
  intros Hm Hi Hv Hf. unfold heater_task. rewrite Hi. cbn [negb].
  destruct (valid_id_cases i Hv) as [-> | ->].
  - destruct (heater_task_one_frame adc_read (heater_task_one adc_read m HEATER_HOTEND)
                0 HEATER_BED) as (_ & E1 & E2).
    + change HEATER_HOTEND with 0%Z. rewrite (fault_turn adc_read m 0 Hi Hv Hf).
      now destruct (heater_set_pwm_frame m 0 0 0) as (_ & -> & _).
    + discriminate.
    + rewrite E1, E2. change HEATER_HOTEND with 0%Z.
      rewrite (fault_turn adc_read m 0 Hi Hv Hf). now apply duty_after_set_pwm_zero.
  - destruct (heater_task_one_frame adc_read m 1 HEATER_HOTEND Hi) as (Hi1 & E1 & E2);
      [discriminate|].
    pose proof (heater_task_one_inv adc_read m HEATER_HOTEND Hm eq_refl) as [Hm1 _].
    change HEATER_BED with 1%Z.
    rewrite (fault_turn adc_read _ 1 Hi1 Hv Hf).
    destruct (duty_after_set_pwm_zero _ 1 Hm1 Hv) as [D S].
    rewrite D, S, E1. auto.
Qed.

(** X13.  When the converter gives a reading [heater_get_temp] cannot
    use (negative, or above 4095), [heater_task] sets that heater's PWM
    duty to 0 and leaves its state (target, integral, stored output) as
    it was. *)
Theorem sensor_fault_switches_the_output_off (adc_read : Z -> Z) (m : heaters) (i : Z) :
  reachable m -> s_module_initialized m = true -> valid_id i = true ->
  sensor_fault adc_read i ->
  duty (pwm_of (heater_task adc_read m) i) = 0 /\
  state_of (heater_task adc_read m) i = state_of m i.
Proof.
  intros Hr. apply heater_task_fault. now apply reachable_inv.
Qed.

Lemma sensor_fault_switches_the_output_off_witness :
  let m := heater_task (fun _ => 2048%Z) heating_up in
  0 < duty (pwm_of m HEATER_HOTEND) /\
  duty (pwm_of (heater_task (fun _ => (-1)%Z) m) HEATER_HOTEND) = 0 /\
  state_of (heater_task (fun _ => (-1)%Z) m) HEATER_HOTEND = state_of m HEATER_HOTEND.
Proof.
  cbv zeta. split; [vm_compute; reflexivity|].
  apply (sensor_fault_switches_the_output_off (fun _ => (-1)%Z)
           (heater_task (fun _ => 2048%Z) heating_up) HEATER_HOTEND).
  - apply reach_task, reach_set_temp, reach_init, reach_reset.
  - reflexivity.
  - reflexivity.
  - left. reflexivity.
Defined.

(** ** Switching a heater off *)

Lemma set_temp_off (m : heaters) (id : Z) (t : Q) :
  module_inv m -> valid_id id = true -> t <= 0 ->
  is_off (heater_set_temp m id t) id /\ enabled (pwm_of (heater_set_temp m id t) id) = false.
Proof.
  intros (a & b & p & q & Hs & Hp & _) Hv Ht.
  unfold is_off, heater_set_temp, heater_set_pwm. rewrite Hv. cbn [negb].
  set (c := if Qltb t HEATER_TEMP_MIN then HEATER_TEMP_MIN
            else if Qltb HEATER_TEMP_MAX t then HEATER_TEMP_MAX else t).
  assert (Hc : c <= 0).
  { unfold c, HEATER_TEMP_MIN, HEATER_TEMP_MAX.
    destruct (Qltb t 0) eqn:E1; [lra|].
    destruct (Qltb 300 t) eqn:E2; [|exact Ht].
    apply Qltb_true in E2. lra. }
  assert (Hb : Qle_bool c 0 = true) by now apply Qle_bool_iff.
  match goal with |- context [if Qltb PID_TARGET_CHANGE_THRESHOLD ?d then _ else _] =>
    destruct (Qltb PID_TARGET_CHANGE_THRESHOLD d) end; rewrite Hb.
  all: destruct (valid_id_cases id Hv) as [-> | ->]; cbn [valid_id negb];
    change (valid_id 0) with true; change (valid_id 1) with true; cbn [negb];
    index_eval; rewrite Hs, Hp; index_eval; cbn [target_temp output];
    repeat split; try reflexivity; exact Hc.
Qed.

Lemma heater_task_one_off (adc_read : Z -> Z) (m : heaters) (i : Z) :
  module_inv m -> s_module_initialized m = true -> valid_id i = true ->
  is_off m i -> is_off (heater_task_one adc_read m i) i.
Proof.
  intros Hm Hi Hv (Ht & Ho & Hd). unfold heater_task_one.
  pose proof (heater_get_temp_inv adc_read m i Hm) as [Hm1 _].
  assert (Hst : target_temp (state_of (snd (heater_get_temp adc_read m i)) i) <= 0 /\
                output (state_of (snd (heater_get_temp adc_read m i)) i) = 0).
  { unfold heater_get_temp. rewrite Hv, Hi. cbn [negb].
    destruct Hm as (a & b & p & q & Hs & Hp & _).
    repeat match goal with
           | |- context [if ?c then _ else _] => destruct c
           end; cbn [snd]; try (split; assumption).
    destruct (valid_id_cases i Hv) as [-> | ->]; index_eval; rewrite Hs in *; index_eval;
      cbn [target_temp output]; split; assumption. }
  destruct (heater_get_temp adc_read m i) as [temp m1]. cbn [snd] in *.
  destruct Hst as [Ht1 Ho1].
  destruct (Qeq_bool temp HEATER_TEMP_INVALID).
  - destruct (duty_after_set_pwm_zero m1 i Hm1 Hv) as [D S].
    unfold is_off. rewrite D, S. auto.
  - apply Qle_bool_iff in Ht1. rewrite Ht1. apply Qle_bool_iff in Ht1.
    destruct Hm1 as (a & b & p & q & Hs & Hp & _).
    unfold is_off, heater_set_pwm. rewrite Hv. cbn [negb].
    destruct (valid_id_cases i Hv) as [-> | ->]; index_eval; rewrite Hs, Hp in *; index_eval;
      cbn [target_temp output]; repeat split; try reflexivity; assumption.
Qed.

Lemma heater_task_off (adc_read : Z -> Z) (m : heaters) (i : Z) :
  module_inv m -> valid_id i = true -> is_off m i -> is_off (heater_task adc_read m) i.
Proof.
  intros Hm Hv Hoff. unfold heater_task.
  destruct (s_module_initialized m) eqn:Hi; cbn [negb]; [|assumption].
  destruct (valid_id_cases i Hv) as [-> | ->].
  - destruct (heater_task_one_frame adc_read (heater_task_one adc_read m HEATER_HOTEND)
                0 HEATER_BED) as (_ & E1 & E2).
    + now destruct (heater_task_one_frame adc_read m 1 HEATER_HOTEND Hi) as (E & _);
        [discriminate|].
    + discriminate.
    + unfold is_off. rewrite E1, E2. now apply heater_task_one_off.
  - destruct (heater_task_one_frame adc_read m 1 HEATER_HOTEND Hi) as (Hi1 & E1 & E2);
      [discriminate|].
    pose proof (heater_task_one_inv adc_read m HEATER_HOTEND Hm eq_refl) as [Hm1 _].
    apply heater_task_one_off; try assumption.
    unfold is_off. rewrite E1, E2. exact Hoff.
Qed.

(** X14.  [heater_set_temp] with a target of zero or less switches the
    heater off (target at most 0, output 0, duty 0, channel disabled),
    and [heater_task] keeps a heater that is off in that state, whatever
    the converter reads. *)
Theorem zero_target_switches_the_heater_off (m : heaters) (id : Z) (t : Q)
    (adc_read : Z -> Z) :
  reachable m -> valid_id id = true ->
  (t <= 0 ->
   is_off (heater_set_temp m id t) id /\
   enabled (pwm_of (heater_set_temp m id t) id) = false) /\
  (is_off m id -> is_off (heater_task adc_read m) id).
Proof.
  intros Hr Hv. pose proof (reachable_inv m Hr) as Hm. split.
  - now apply set_temp_off.
  - now apply heater_task_off.
Qed.

Lemma zero_target_switches_the_heater_off_witness :
  let hot := heater_task (fun _ => 2048%Z) heating_up in
  0 < duty (pwm_of hot HEATER_HOTEND) /\
  is_off (heater_task (fun _ => 2048%Z) (heater_set_temp hot HEATER_HOTEND 0)) HEATER_HOTEND.
Proof.
  cbv zeta. split; [vm_compute; reflexivity|].
  apply (zero_target_switches_the_heater_off
           (heater_set_temp (heater_task (fun _ => 2048%Z) heating_up) HEATER_HOTEND 0)
           HEATER_HOTEND 0 (fun _ => 2048%Z)).
  - apply reach_set_temp, reach_task, reach_set_temp, reach_init, reach_reset.
  - reflexivity.
  - apply (zero_target_switches_the_heater_off
             (heater_task (fun _ => 2048%Z) heating_up) HEATER_HOTEND 0 (fun _ => 2048%Z)).
    + apply reach_task, reach_set_temp, reach_init, reach_reset.
    + reflexivity.
    + discriminate.
Defined.

(** ** The conversion inside the table *)

Lemma ntc_steps_checked : forallb ntc_falls_at (map Z.of_nat (seq 0 3244)) = true.
Proof. vm_compute. reflexivity. Qed.

Lemma ntc_step (k : Z) :
  (0 <= k < 3244)%Z -> ntc_adc_to_temp (k + 1) <= ntc_adc_to_temp k.
Proof.
  intro Hk. pose proof ntc_steps_checked as H. rewrite forallb_forall in H.
  apply Qle_bool_iff. apply (H k). apply in_map_iff. exists (Z.to_nat k). split; [lia|].
  apply in_seq. lia.
Qed.

(** X15.  Between readings 0 and 3244 the conversion never rises with
    the reading: a larger ADC value never gives a higher temperature. *)
Theorem ntc_temperature_falls_as_the_reading_rises (a b : Z) :
  (0 <= a <= b)%Z -> (b <= 3244)%Z ->
  ntc_adc_to_temp b <= ntc_adc_to_temp a.
Proof.
  intros [Ha Hab] Hb. revert Hb. pattern b. apply (Zlt_lower_bound_ind _ a); [|exact Hab].
  intros x IH Hax Hx. destruct (Z.eq_dec x a) as [-> | Hne]; [apply Qle_refl|].
  apply Qle_trans with (ntc_adc_to_temp (x - 1)).
  - replace x with (x - 1 + 1)%Z at 1 by lia. apply ntc_step. lia.
  - apply IH; lia.
Qed.

Lemma ntc_temperature_falls_as_the_reading_rises_witness :
  ntc_adc_to_temp 3000 <= ntc_adc_to_temp 100.
Proof.
  apply (ntc_temperature_falls_as_the_reading_rises 100 3000); lia.
Defined.

Lemma ntc_knots_checked :
  forallb (fun e => Qeq_bool (ntc_adc_to_temp (fst e)) (inject_Z (snd e) / 10)) s_ntc_table
    = true.
Proof. vm_compute. reflexivity. Qed.

(** X16.  At every ADC value listed in [s_ntc_table] the conversion
    gives the listed temperature (the table holds tenths of a degree). *)
Theorem ntc_reproduces_the_table (adc t10 : Z) :
  In (adc, t10) s_ntc_table -> ntc_adc_to_temp adc == inject_Z t10 / 10.
Proof.
  intro Hin. pose proof ntc_knots_checked as H. rewrite forallb_forall in H.
  apply Qeq_bool_iff. exact (H (adc, t10) Hin).
Qed.

Lemma ntc_reproduces_the_table_witness :
  ntc_adc_to_temp 1670 == inject_Z 1000 / 10.
Proof.
  apply (ntc_reproduces_the_table 1670 1000). vm_compute. tauto.
Defined.

End HeaterFacts.

(* ================================================================== *)
(** * Properties of the fan interface *)
(* ================================================================== *)

Module FanFacts.
Import Heater Fan FanCases HeaterFacts.
Local Open Scope Q_scope.

Lemma clamp_speed_range (v : Q) : 0 <= clamp_speed v <= 1.
Proof.
  unfold clamp_speed, FAN_SPEED_MIN, FAN_SPEED_MAX.
  destruct (Qltb v 0) eqn:E1; [lra|].
  destruct (Qltb 1 v) eqn:E2; [lra|].
  apply Qltb_false in E1, E2. lra.
Qed.

Lemma clamp_speed_idem (v : Q) : clamp_speed (clamp_speed v) = clamp_speed v.
Proof.
  unfold clamp_speed, FAN_SPEED_MIN, FAN_SPEED_MAX.
  destruct (Qltb v 0) eqn:E1; [reflexivity|].
  destruct (Qltb 1 v) eqn:E2; [reflexivity|].
  now rewrite E1, E2.
Qed.

Lemma fan_id_cases (id : Z) :
  ((0 <=? id) && (id <? FAN_COUNT))%Z = true -> id = 0%Z \/ id = 1%Z.
Proof.
  unfold FAN_COUNT. intro H. apply andb_prop in H. destruct H as [H1 H2].
  apply Z.leb_le in H1. apply Z.ltb_lt in H2. lia.
Qed.

(** X27.  [fan_set_speed] stores the requested speed clamped to 0..1 and
    [fan_get_speed] reads it back; the duty handed to the PWM channel is
    the stored speed, the channel is enabled exactly when that speed is
    above 0, and the other fan is not touched. *)
Theorem fan_speed_is_stored_clamped (m : fans) (id : Z) (v : Q) :
  List.length m = 2%nat -> ((0 <=? id) && (id <? FAN_COUNT))%Z = true ->
  let m1 := fan_set_speed m id v in
  fan_get_speed m1 id = clamp_speed v /\
  0 <= fan_get_speed m1 id <= 1 /\
  fan_pwm_enabled (fan_of m1 id) = negb (Qle_bool (clamp_speed v) 0) /\
  fan_duty (fan_of m1 id) == clamp_speed v /\
  fan_of m1 (other_fan id) = fan_of m (other_fan id).
Proof.
  intros Hlen Hid. cbv zeta.
  destruct m as [|a [|b [|c r]]]; try discriminate. clear Hlen.
  pose proof (clamp_speed_range v) as Hr.
  assert (Hget : fan_get_speed (fan_set_speed [a; b] id v) id = clamp_speed v /\
                 fan_pwm_enabled (fan_of (fan_set_speed [a; b] id v) id)
                   = negb (Qle_bool (clamp_speed v) 0) /\
                 fan_duty (fan_of (fan_set_speed [a; b] id v) id) == clamp_speed v /\
                 fan_of (fan_set_speed [a; b] id v) (other_fan id)
                   = fan_of [a; b] (other_fan id)).
  { unfold fan_get_speed, fan_set_speed, fan_of, other_fan. rewrite Hid. cbn [negb].
    destruct (Qle_bool (clamp_speed v) 0) eqn:E;
      destruct (fan_id_cases id Hid) as [-> | ->];
      change (Z.to_nat 0) with 0%nat; change (Z.to_nat 1) with 1%nat;
      change (Z.to_nat (1 - 0)) with 1%nat; change (Z.to_nat (1 - 1)) with 0%nat;
      cbn [list_set nth speed fan_pwm_enabled fan_duty negb];
      rewrite ?clamp_speed_idem; repeat split; try reflexivity.
    all: apply Qle_bool_iff in E; change (clamp_speed 0) with 0; lra. }
  destruct Hget as (G1 & G2 & G3 & G4).
  rewrite G1. repeat split; try assumption; apply Hr.
Qed.

Lemma fan_speed_is_stored_clamped_witness :
  let m1 := fan_set_speed (fan_set_speed fans_reset 0 (1 # 2)) 1 3 in
  fan_get_speed m1 1 = 1 /\ fan_get_speed m1 0 = 1 # 2.
Proof.
  cbv zeta.
  destruct (fan_speed_is_stored_clamped (fan_set_speed fans_reset 0 (1 # 2)) 1 3)
    as (H1 & _ & _ & _ & H5).
  - reflexivity.
  - reflexivity.
  - split; [exact H1|]. reflexivity.
Defined.

End FanFacts.

(* ================================================================== *)
(** * Properties of the PWM driver *)
(* ================================================================== *)

Module PwmFacts.
Import Pwm PwmCases.
Local Open Scope Z_scope.

Lemma valid_channel_cases (id : Z) :
  valid_channel id = true -> id = 0 \/ id = 1 \/ id = 2 \/ id = 3.
Proof.
  unfold valid_channel, PWM_CHANNEL_COUNT. intro H. apply andb_prop in H.
  destruct H as [H1 H2]. apply Z.leb_le in H1. apply Z.ltb_lt in H2. lia.
Qed.

Lemma boot_heaters_lost : heaters_lost main_init_pwm.
Proof. unfold heaters_lost. do 4 eexists. vm_compute. repeat split. Qed.

Ltac channel_eval :=
  unfold channel, set_channel in *;
  change (Z.to_nat 0) with 0%nat in *; change (Z.to_nat 1) with 1%nat in *;
  change (Z.to_nat 2) with 2%nat in *; change (Z.to_nat 3) with 3%nat in *;
  cbn [nth Heater.list_set s_pwm_channels s_soft_pwm_enabled s_pwm_counter
       pin configured enabled value max_value cycle_time invert fst snd] in *.

Ltac lost_done :=
  unfold heaters_lost; do 4 eexists; split; [reflexivity|];
  cbn [pin configured]; auto 10.

Lemma pwm_enable_heaters_lost (d : pwm_driver) (id : Z) (enable : bool) (now : Z) :
  heaters_lost d -> heaters_lost (fst (pwm_enable d id enable now)).
Proof.
  intros (c0 & c1 & c2 & c3 & Hs & H0 & P0 & H1 & P1 & H2 & H3).
  unfold pwm_enable. destruct (valid_channel id) eqn:Hv; cbn [negb fst].
  2:{ exists c0, c1, c2, c3. auto 10. }
  destruct (valid_channel_cases id Hv) as [-> | [-> | [-> | ->]]];
    channel_eval; rewrite Hs; channel_eval;
    destruct (enable && negb (s_soft_pwm_enabled d)); channel_eval; lost_done.
Qed.

Lemma pwm_set_value_heaters_lost (d : pwm_driver) (id v : Z) :
  heaters_lost d -> heaters_lost (pwm_set_value d id v).
Proof.
  intros (c0 & c1 & c2 & c3 & Hs & H0 & P0 & H1 & P1 & H2 & H3).
  unfold pwm_set_value. destruct (valid_channel id) eqn:Hv; cbn [negb].
  2:{ exists c0, c1, c2, c3. auto 10. }
  destruct (valid_channel_cases id Hv) as [-> | [-> | [-> | ->]]];
    channel_eval; rewrite Hs; channel_eval; lost_done.
Qed.

Lemma running_heaters_lost (d : pwm_driver) : running d -> heaters_lost d.
Proof.
  induction 1 as [|d id enable now _ IH|d id v _ IH|d w _ IH].
  - exact boot_heaters_lost.
  - now apply pwm_enable_heaters_lost.
  - now apply pwm_set_value_heaters_lost.
  - exact IH.
Qed.

(** X22.  [fan_init] calls [pwm_init] after [heater_init] has configured
    the heater channels, and [pwm_init] clears every channel.  So once
    [main] has run its init sequence the two heater channels are
    unconfigured for good: the timer callback drives the fan pins only,
    and switching a channel on or off writes pin 0 or a fan pin, never a
    heater pin. *)
Theorem heater_pins_are_never_driven (d : pwm_driver) :
  running d ->
  pwm_get_value d PWM_CHANNEL_HEATER_HOTEND = -2 /\
  pwm_get_value d PWM_CHANNEL_HEATER_BED = -2 /\
  (forall waketime e p,
     In e (snd (pwm_timer_callback d waketime)) -> written_pin e = Some p ->
     p = FAN_PART_PIN \/ p = FAN_HOTEND_PIN) /\
  (forall id enable now e p,
     In e (snd (pwm_enable d id enable now)) -> written_pin e = Some p ->
     p = 0 \/ p = FAN_PART_PIN \/ p = FAN_HOTEND_PIN).
Proof.
  intro Hr. destruct (running_heaters_lost d Hr)
    as (c0 & c1 & c2 & c3 & Hs & H0 & P0 & H1 & P1 & H2 & H3).
  split; [|split; [|split]].
  - unfold pwm_get_value. cbn [valid_channel negb]. channel_eval. rewrite Hs.
    change (Z.to_nat PWM_CHANNEL_HEATER_HOTEND) with 0%nat. cbn [nth]. now rewrite H0.
  - unfold pwm_get_value. cbn [valid_channel negb]. channel_eval. rewrite Hs.
    change (Z.to_nat PWM_CHANNEL_HEATER_BED) with 1%nat. cbn [nth]. now rewrite H1.
  - intros w e p Hin Hp. unfold pwm_timer_callback in Hin. cbn [snd flat_map] in Hin.
    unfold channel in Hin. rewrite Hs in Hin.
    change (Z.to_nat PWM_CHANNEL_HEATER_HOTEND) with 0%nat in Hin.
    change (Z.to_nat PWM_CHANNEL_HEATER_BED) with 1%nat in Hin.
    change (Z.to_nat PWM_CHANNEL_FAN_PART) with 2%nat in Hin.
    change (Z.to_nat PWM_CHANNEL_FAN_HOTEND) with 3%nat in Hin.
    cbn [nth] in Hin. unfold drive_channel in Hin. rewrite H0, H1 in Hin.
    cbn [negb orb app] in Hin.
    destruct (negb (configured c2) || negb (enabled c2));
      destruct (negb (configured c3) || negb (enabled c3)); cbn [app In] in Hin;
      repeat match goal with
             | H : _ \/ _ |- _ => destruct H
             | H : False |- _ => contradiction
             end; subst e; cbn [written_pin] in Hp; injection Hp as <-; auto.
  - intros id enable now e p Hin Hp. unfold pwm_enable in Hin.
    destruct (valid_channel id) eqn:Hv; cbn [negb snd] in Hin; [|contradiction].
    assert (Hpin : pin (channel d id) = 0 \/ pin (channel d id) = FAN_PART_PIN
                   \/ pin (channel d id) = FAN_HOTEND_PIN).
    { destruct (valid_channel_cases id Hv) as [-> | [-> | [-> | ->]]];
        channel_eval; rewrite Hs; channel_eval; auto. }
    revert Hpin.
    destruct (enable && negb _); destruct enable; cbn [negb snd app In] in Hin;
      repeat match goal with
             | H : _ \/ _ |- _ => destruct H
             | H : False |- _ => contradiction
             end; subst e; cbn [written_pin] in Hp; try discriminate;
      injection Hp as <-; intro Hpin; exact Hpin.
Qed.

Lemma heater_pins_are_never_driven_witness :
  In (Gpio_out_write 20 true)
     (snd (pwm_timer_callback (hotend_on (fst (heater_init_pwm driver_reset))) 0)) /\
  pwm_get_value (hotend_on main_init_pwm) PWM_CHANNEL_HEATER_HOTEND = -2 /\
  snd (pwm_timer_callback (hotend_on main_init_pwm) 0) = [].
Proof.
  split; [vm_compute; auto|]. split; [|reflexivity].
  apply (heater_pins_are_never_driven (hotend_on main_init_pwm)).
  apply run_set_value, run_enable, run_boot.
Defined.

(** ** The duty cycle *)

Lemma highs_app (v : Z) (n1 n2 : nat) (c : Z) :
  highs v (n1 + n2) c = highs v n1 c + highs v n2 (counter_after n1 c).
Proof.
  revert c. induction n1 as [|n IH]; intro c; [reflexivity|].
  cbn [Nat.add highs counter_after]. rewrite IH. lia.
Qed.

Lemma highs_straight (v : Z) (n : nat) (c : Z) :
  0 <= c -> c + Z.of_nat n <= 255 ->
  highs v n c = Z.min (c + Z.of_nat n + 1) v - Z.min (c + 1) v /\
  counter_after n c = c + Z.of_nat n.
Proof.
  revert c. induction n as [|n IH]; intros c H0 H1.
  - cbn [highs counter_after]. rewrite Nat2Z.inj_0. split; lia.
  - cbn [highs counter_after]. rewrite Nat2Z.inj_succ in *.
    rewrite (Z.mod_small (c + 1) 256) by lia.
    destruct (IH (c + 1)) as [Hh Hc]; [lia | lia |].
    rewrite Hh, Hc. split; [|lia].
    destruct (c + 1 <? v) eqn:E; [apply Z.ltb_lt in E | apply Z.ltb_ge in E]; lia.
Qed.

(** Over a full turn of the counter it is below [v] on [v] ticks. *)
Lemma highs_turn (v c : Z) : 0 <= c < 256 -> 0 <= v <= 256 -> highs v 256 c = v.
Proof.
  intros Hc Hv.
  replace 256%nat with (Z.to_nat (255 - c) + S (Z.to_nat c))%nat by lia.
  rewrite highs_app.
  destruct (highs_straight v (Z.to_nat (255 - c)) c) as [H1 C1]; [lia | lia |].
  rewrite H1, C1. rewrite Z2Nat.id by lia.
  replace (c + (255 - c)) with 255 by lia.
  cbn [highs]. change ((255 + 1) mod 256) with 0.
  destruct (highs_straight v (Z.to_nat c) 0) as [H2 _]; [lia | lia |].
  rewrite H2. rewrite Z2Nat.id by lia.
  destruct (0 <? v) eqn:E; [apply Z.ltb_lt in E | apply Z.ltb_ge in E]; lia.
Qed.

Lemma count_writes_app (p : Z) (v : bool) (a b : list pwm_event) :
  count_writes p v (a ++ b) = count_writes p v a + count_writes p v b.
Proof. unfold count_writes. rewrite filter_app, length_app. lia. Qed.

(** What one channel adds to the writes of level [v] on pin [p]. *)
Lemma drive_channel_other (k p : Z) (v : bool) (c : pwm_state_t) :
  (configured c = true -> enabled c = true -> pin c <> p) ->
  count_writes p v (drive_channel k c) = 0.
Proof.
  intro H. unfold drive_channel.
  destruct (configured c), (enabled c); cbn [negb orb]; try reflexivity.
  unfold count_writes. cbn [filter is_write].
  assert (E : (pin c =? p) = false) by (apply Z.eqb_neq; now apply H).
  now rewrite E.
Qed.

Lemma drive_channel_own (k : Z) (v : bool) (c : pwm_state_t) :
  configured c = true -> enabled c = true -> invert c = false ->
  count_writes (pin c) v (drive_channel k c)
    = if Bool.eqb (k <? value c) v then 1 else 0.
Proof.
  intros Hc He Hi. unfold drive_channel. rewrite Hc, He, Hi. cbn [negb orb].
  unfold count_writes. cbn [filter is_write]. rewrite Z.eqb_refl. cbn [andb].
  now destruct (Bool.eqb (k <? value c) v).
Qed.

(** One tick: the channel writes its level once, the counter moves on and
    nothing else changes. *)
Lemma tick_writes (d : pwm_driver) (id w : Z) (v : bool) :
  drives_alone d id ->
  let r := pwm_timer_callback d w in
  count_writes (pin (channel d id)) v (snd r)
    = (if Bool.eqb ((s_pwm_counter d + 1) mod 256 <? value (channel d id)) v
       then 1 else 0) /\
  s_pwm_channels (snd (fst r)) = s_pwm_channels d /\
  s_pwm_counter (snd (fst r)) = (s_pwm_counter d + 1) mod 256.
Proof.
  intros (Hv & Hlen & Hc & He & Hi & Hothers). cbv zeta.
  split; [|split; reflexivity].
  unfold pwm_timer_callback. cbn [snd flat_map]. rewrite app_nil_r.
  rewrite !count_writes_app.
  set (k := (s_pwm_counter d + 1) mod 256).
  assert (Hoth : forall j, valid_channel j = true -> j <> id ->
            count_writes (pin (channel d id)) v (drive_channel k (channel d j)) = 0).
  { intros j Hj Hne. apply drive_channel_other. now apply Hothers. }
  pose proof (drive_channel_own k v (channel d id) Hc He Hi) as Hown.
  destruct (valid_channel_cases id Hv) as [-> | [-> | [-> | ->]]];
    unfold PWM_CHANNEL_HEATER_HOTEND, PWM_CHANNEL_HEATER_BED, PWM_CHANNEL_FAN_PART,
      PWM_CHANNEL_FAN_HOTEND;
    rewrite Hown;
    repeat match goal with
           | |- context [count_writes _ v (drive_channel k (channel d ?j))] =>
               rewrite (Hoth j) by (try reflexivity; discriminate)
           end; lia.
Qed.

Lemma drives_alone_tick (d : pwm_driver) (id w : Z) :
  drives_alone d id -> drives_alone (snd (fst (pwm_timer_callback d w))) id.
Proof. intro H. exact H. Qed.

Lemma ticks_writes (n : nat) (d : pwm_driver) (id w : Z) :
  drives_alone d id ->
  count_writes (pin (channel d id)) true (ticks n d w)
    = highs (value (channel d id)) n (s_pwm_counter d) /\
  count_writes (pin (channel d id)) false (ticks n d w)
    = Z.of_nat n - highs (value (channel d id)) n (s_pwm_counter d).
Proof.
  revert d w. induction n as [|n IH]; intros d w Hd; [split; reflexivity|].
  cbn [ticks highs].
  destruct (tick_writes d id w true Hd) as (T1 & _ & _).
  destruct (tick_writes d id w false Hd) as (F1 & S1 & C1).
  cbv zeta in *.
  pose proof (drives_alone_tick d id w Hd) as Hd'.
  destruct (pwm_timer_callback d w) as [[next d'] ev]. cbn [fst snd] in *.
  destruct (IH d' next Hd') as [IT IF].
  assert (Hch : channel d' id = channel d id) by (unfold channel; now rewrite S1).
  rewrite Hch, C1 in IT, IF.
  rewrite !count_writes_app, T1, F1, IT, IF, Nat2Z.inj_succ.
  destruct ((s_pwm_counter d + 1) mod 256 <? value (channel d id)); cbn [Bool.eqb];
    split; lia.
Qed.

(** X28.  The duty cycle of the software PWM.  Over 256 callbacks in a
    row, a channel that is configured, enabled, not inverted and alone on
    its pin writes the pin high on exactly [value] of them and low on the
    other [256 - value]: a value of 255, the largest [pwm_set_duty] can
    set, still leaves one low tick in 256. *)
Theorem pin_is_high_value_ticks_in_256 (d : pwm_driver) (id w : Z) :
  drives_alone d id ->
  0 <= s_pwm_counter d < 256 ->
  0 <= value (channel d id) <= 256 ->
  count_writes (pin (channel d id)) true (ticks 256 d w) = value (channel d id) /\
  count_writes (pin (channel d id)) false (ticks 256 d w)
    = 256 - value (channel d id).
Proof.
  intros Hd Hc Hv. destruct (ticks_writes 256 d id w Hd) as [HT HF].
  rewrite HT, HF, (highs_turn _ _ Hc Hv). split; [reflexivity | lia].
Qed.

Lemma pin_is_high_value_ticks_in_256_witness :
  count_writes FAN_PART_PIN true (ticks 256 fan_at_half 0) = 127 /\
  count_writes FAN_PART_PIN false (ticks 256 fan_at_half 0) = 129.
Proof.
  apply (pin_is_high_value_ticks_in_256 fan_at_half PWM_CHANNEL_FAN_PART 0).
  - unfold drives_alone. repeat split; try reflexivity.
    intros j Hj Hne. destruct (valid_channel_cases j Hj) as [-> | [-> | [-> | ->]]];
      try discriminate; try (now contradiction Hne).
  - vm_compute. split; [discriminate | reflexivity].
  - vm_compute. split; discriminate.
Defined.

End PwmFacts.

(* ================================================================== *)
(** * Properties of the serial line assembly *)
(* ================================================================== *)

Module SerialFacts.
Import Serial SerialCases.
Local Open Scope nat_scope.
Local Open Scope char_scope.

Lemma firstn_list_set_beyond {A : Type} (l : list A) (i n : nat) (v : A) :
  n <= i -> firstn n (Heater.list_set l i v) = firstn n l.
Proof.
  revert i n. induction l as [|a l IH]; intros i n H; [now destruct i|].
  destruct i, n; cbn [Heater.list_set firstn]; try reflexivity; [lia|].
  f_equal. apply IH. lia.
Qed.

Lemma firstn_list_set_next {A : Type} (l : list A) (i : nat) (v : A) :
  i < List.length l -> firstn (S i) (Heater.list_set l i v) = firstn i l ++ [v].
Proof.
  revert i. induction l as [|a l IH]; intros i H; [cbn in H; lia|].
  destruct i; cbn [Heater.list_set firstn app]; [reflexivity|].
  f_equal. apply IH. cbn in H. lia.
Qed.

Lemma list_set_length {A : Type} (l : list A) (i : nat) (v : A) :
  List.length (Heater.list_set l i v) = List.length l.
Proof.
  revert i. induction l as [|a l IH]; intro i; [now destruct i|].
  destruct i; cbn [Heater.list_set List.length]; [reflexivity|]. now rewrite IH.
Qed.


Lemma plain_tests (c : ascii) :
  plain c = true ->
  (Ascii.eqb c "010" || Ascii.eqb c "013")%bool = false /\
  (Ascii.eqb c "008" || Ascii.eqb c "127")%bool = false.
Proof.
  unfold plain. rewrite negb_true_iff.
  destruct (Ascii.eqb c "010"), (Ascii.eqb c "013"), (Ascii.eqb c "008"),
    (Ascii.eqb c "127"); cbn; intro H; try discriminate; auto.
Qed.

Lemma receive_plain (st : serial) (typed : list ascii) (c : ascii) :
  assembling st typed -> plain c = true ->
  assembling (process_rx_byte st c) (typed ++ [c]) /\
  s_initialized (process_rx_byte st c) = s_initialized st.
Proof.
  intros (Hr & Hlen & Hn & Hbuf) Hc. destruct (plain_tests c Hc) as [E1 E2].
  unfold process_rx_byte. rewrite Hr, E1, E2.
  change (SERIAL_LINE_BUFFER_SIZE - 1) with 127.
  unfold assembling. rewrite length_app. cbn [List.length].
  destruct (Nat.ltb (s_line_len st) 127) eqn:E;
    cbn [s_line_ready s_line_buffer s_line_len s_initialized].
  - apply Nat.ltb_lt in E.
    assert (Ht : List.length typed < 127) by lia.
    assert (Hl : s_line_len st = List.length typed) by lia.
    repeat split.
    + now rewrite list_set_length.
    + lia.
    + rewrite firstn_list_set_next by (rewrite Hlen; unfold SERIAL_LINE_BUFFER_SIZE; lia).
      rewrite Hbuf. rewrite (firstn_all2 (n := 127) typed) by lia.
      rewrite firstn_all2; [reflexivity|]. rewrite length_app. cbn. lia.
  - apply Nat.ltb_ge in E.
    assert (Ht : 127 <= List.length typed) by lia.
    repeat split; try assumption.
    + lia.
    + rewrite Hbuf, firstn_app.
      replace (127 - List.length typed) with 0 by lia.
      cbn [firstn]. now rewrite app_nil_r.
Qed.

Lemma receive_plain_all (text : list ascii) (st : serial) (typed : list ascii) :
  assembling st typed -> forallb plain text = true ->
  assembling (receive st text) (typed ++ text) /\
  s_initialized (receive st text) = s_initialized st.
Proof.
  revert st typed. induction text as [|c r IH]; intros st typed Ha Hp.
  - rewrite app_nil_r. now split.
  - cbn [forallb] in Hp. apply andb_prop in Hp. destruct Hp as [Hc Hr].
    destruct (receive_plain st typed c Ha Hc) as [Ha1 Hi1].
    unfold receive. cbn [fold_left]. fold (receive (process_rx_byte st c) r).
    destruct (IH _ _ Ha1 Hr) as [Ha2 Hi2].
    rewrite <- app_assoc in Ha2. split; [exact Ha2 | congruence].
Qed.

(** Once a line is complete the bytes that follow touch only the ring. *)
Lemma receive_ready (more : list ascii) (st : serial) :
  s_line_ready st = true ->
  s_line_ready (receive st more) = true /\
  s_line_buffer (receive st more) = s_line_buffer st /\
  s_line_len (receive st more) = s_line_len st /\
  s_initialized (receive st more) = s_initialized st.
Proof.
  revert st. induction more as [|c r IH]; intros st Hr; [auto|].
  unfold receive. cbn [fold_left]. fold (receive (process_rx_byte st c) r).
  assert (H1 : s_line_ready (process_rx_byte st c) = true /\
               s_line_buffer (process_rx_byte st c) = s_line_buffer st /\
               s_line_len (process_rx_byte st c) = s_line_len st /\
               s_initialized (process_rx_byte st c) = s_initialized st).
  { unfold process_rx_byte. rewrite Hr. cbn. auto. }
  destruct H1 as (R1 & B1 & L1 & I1).
  destruct (IH _ R1) as (R2 & B2 & L2 & I2).
  repeat split; congruence.
Qed.

(** X23.  A line arrives as typed.  On an idle port, after the bytes of a
    non-empty text without control characters, an end of line and anything
    after it, a line is available and [serial_readline] hands back the
    text, cut to 127 characters, and leaves the port idle: the bytes that
    came in behind the end of line, before the line was read, are in no
    line. *)
Theorem line_is_delivered_as_typed (st : serial) (text more : list ascii)
    (eol : ascii) :
  idle st -> text <> [] -> forallb plain text = true -> end_of_line eol = true ->
  let st1 := receive st (text ++ eol :: more) in
  serial_line_available st1 = true /\
  fst (serial_readline st1 SERIAL_LINE_BUFFER_SIZE)
    = (Z.of_nat (Nat.min 127 (List.length text)), Some (firstn 127 text)) /\
  idle (snd (serial_readline st1 SERIAL_LINE_BUFFER_SIZE)).
Proof.
  intros (Hi & Hr & Hn & Hlen) Hne Hp He. cbv zeta.
  assert (Ha : assembling st []).
  { unfold assembling. rewrite Hn. cbn. auto. }
  destruct (receive_plain_all text st [] Ha Hp) as [(Hr1 & Hlen1 & Hn1 & Hbuf1) Hi1].
  cbn [app] in *.
  unfold receive. rewrite fold_left_app. fold (receive st text). cbn [fold_left].
  set (st1 := receive st text) in *.
  assert (Hpos : Nat.ltb 0 (s_line_len st1) = true).
  { apply Nat.ltb_lt. rewrite Hn1. destruct text; [contradiction | cbn [List.length]; lia]. }
  assert (H2 : s_line_ready (process_rx_byte st1 eol) = true /\
               s_line_buffer (process_rx_byte st1 eol)
                 = Heater.list_set (s_line_buffer st1) (s_line_len st1) zero /\
               s_line_len (process_rx_byte st1 eol) = s_line_len st1 /\
               s_initialized (process_rx_byte st1 eol) = s_initialized st1).
  { unfold process_rx_byte. unfold end_of_line in He. rewrite Hr1, He, Hpos. cbn. auto. }
  destruct H2 as (R2 & B2 & L2 & I2).
  fold (receive (process_rx_byte st1 eol) more).
  destruct (receive_ready more _ R2) as (R3 & B3 & L3 & I3).
  set (st3 := receive (process_rx_byte st1 eol) more) in *.
  assert (Hlen3 : s_line_len st3 = Nat.min 127 (List.length text)) by congruence.
  unfold serial_line_available, serial_readline, idle.
  change (Nat.eqb SERIAL_LINE_BUFFER_SIZE 0) with false.
  rewrite R3, I3, I2, Hi1, Hi. cbn [negb fst snd].
  assert (Hle : Nat.leb SERIAL_LINE_BUFFER_SIZE (s_line_len st3) = false).
  { apply Nat.leb_gt. unfold SERIAL_LINE_BUFFER_SIZE. lia. }
  rewrite Hle. cbn [s_initialized s_line_ready s_line_len s_line_buffer].
  split; [reflexivity|]. split.
  - rewrite B3, B2, L3, L2.
    rewrite (firstn_list_set_beyond _ _ _ _ (Nat.le_refl _)).
    now rewrite Hbuf1, Hn1.
  - repeat split. rewrite B3, B2, list_set_length. exact Hlen1.
Qed.

Lemma line_is_delivered_as_typed_witness :
  let st1 := receive port_open
               (list_ascii_of_string "G28" ++ "010" :: list_ascii_of_string "G1 X10") in
  fst (serial_readline st1 SERIAL_LINE_BUFFER_SIZE)
    = (3%Z, Some (list_ascii_of_string "G28")) /\
  idle (snd (serial_readline st1 SERIAL_LINE_BUFFER_SIZE)).
Proof.
  cbv zeta.
  destruct (line_is_delivered_as_typed port_open (list_ascii_of_string "G28")
              (list_ascii_of_string "G1 X10") "010") as (_ & H1 & H2).
  - unfold idle. cbn. auto.
  - discriminate.
  - reflexivity.
  - reflexivity.
  - split; [exact H1 | exact H2].
Defined.

End SerialFacts.

(* ================================================================== *)
(** * Properties of the G-code front end *)
(* ================================================================== *)

Module GcodeFacts.
Import Gcode.
Local Open Scope string_scope.

(** A command letter followed by anything but a digit is accepted by
    [parse_command] with the code 0: the digit loop has no test for having
    read a digit, unlike [parse_float] with its [has_digits]. *)
Lemma parse_command_accepts_missing_code (letter : ascii) (rest : string)
    (c : gcode_cmd_t) :
  Ascii.eqb (toupper letter) "G" || Ascii.eqb (toupper letter) "M" = true ->
  Ascii.eqb letter " " || Ascii.eqb letter "009" = false ->
  fst (parse_code rest 0) = 0%Z ->
  fst (parse_command (String letter rest) c) = GCODE_OK /\
  cmd (snd (parse_command (String letter rest) c)) = toupper letter /\
  code (snd (parse_command (String letter rest) c)) = 0%Z.
Proof.
  intros Hletter Hblank Hcode.
  unfold parse_command. cbn [skip_whitespace]. rewrite Hblank.
  apply orb_prop in Hletter.
  assert (Hok : negb (Ascii.eqb (toupper letter) "G")
                && negb (Ascii.eqb (toupper letter) "M") = false).
  { destruct Hletter as [-> | ->]; [reflexivity | apply andb_false_r]. }
  rewrite Hok.
  destruct (parse_code rest 0) as [k r] eqn:E. cbn [fst] in Hcode. subst k.
  repeat split.
Qed.

(** C9 on the code.  [G X10] names no code, and so do [G] and [M]: the
    first two parse as G0 and are executed and answered with [ok] (the
    first as a move to X10), the third parses as M0 and is answered as an
    unknown command.  None is answered [error: invalid command]. *)
Lemma codeless_command_is_read_as_code_zero :
  gcode_parse_line "G X10"
    = (GCODE_OK, mk_cmd "G" 0 10 0 0 0 0 0 true false false false false false) /\
  gcode_parse_line "G"
    = (GCODE_OK, mk_cmd "G" 0 0 0 0 0 0 0 false false false false false false) /\
  fst (gcode_parse_line "M") = GCODE_ERR_UNKNOWN /\
  gcode_process weak_backend "G X10" (gcode_initial, tt)
    = Some ((mk_gstate GCODE_MODE_ABSOLUTE 10 0 0 0 3000, tt), [Line "ok"]) /\
  gcode_process weak_backend "G" (gcode_initial, tt)
    = Some ((gcode_initial, tt), [Line "ok"]) /\
  gcode_process weak_backend "M" (gcode_initial, tt)
    = Some ((gcode_initial, tt), [Line "error: unknown command"]) /\
  gcode_process weak_backend "X10" (gcode_initial, tt)
    = Some ((gcode_initial, tt), [Line "error: invalid command"]).
Proof. vm_compute. repeat split; reflexivity. Qed.

(** ** Letter case *)

Import GcodeCases.

Ltac each_char c := destruct c as [[] [] [] [] [] [] [] []].

Lemma toupper_digit (c : ascii) : is_digit (toupper c) = is_digit c.
Proof. each_char c; reflexivity. Qed.

Lemma toupper_of_digit (c : ascii) : is_digit c = true -> toupper c = c.
Proof. each_char c; intro H; try reflexivity; discriminate. Qed.

Lemma toupper_idem (c : ascii) : toupper (toupper c) = toupper c.
Proof. each_char c; reflexivity. Qed.

Lemma toupper_blank (c : ascii) :
  (Ascii.eqb (toupper c) " " || Ascii.eqb (toupper c) "009")%bool
    = (Ascii.eqb c " " || Ascii.eqb c "009")%bool.
Proof. each_char c; reflexivity. Qed.

Lemma toupper_dot (c : ascii) : Ascii.eqb (toupper c) "." = Ascii.eqb c ".".
Proof. each_char c; reflexivity. Qed.

Lemma toupper_end (c : ascii) :
  (Ascii.eqb (toupper c) "010" || Ascii.eqb (toupper c) "013"
   || Ascii.eqb (toupper c) ";")%bool
    = (Ascii.eqb c "010" || Ascii.eqb c "013" || Ascii.eqb c ";")%bool.
Proof. each_char c; reflexivity. Qed.

Lemma toupper_newline (c : ascii) :
  (Ascii.eqb (toupper c) "010" || Ascii.eqb (toupper c) "013")%bool
    = (Ascii.eqb c "010" || Ascii.eqb c "013")%bool.
Proof. each_char c; reflexivity. Qed.

Lemma toupper_semicolon (c : ascii) : Ascii.eqb (toupper c) ";" = Ascii.eqb c ";".
Proof. each_char c; reflexivity. Qed.

Lemma toupper_letter (c : ascii) :
  (Ascii.eqb (toupper c) "G" || Ascii.eqb (toupper c) "g"
   || Ascii.eqb (toupper c) "M" || Ascii.eqb (toupper c) "m")%bool
    = (Ascii.eqb c "G" || Ascii.eqb c "g" || Ascii.eqb c "M" || Ascii.eqb c "m")%bool.
Proof. each_char c; reflexivity. Qed.

Lemma upcase_length (s : string) : String.length (upcase s) = String.length s.
Proof. induction s as [|c r IH]; cbn; congruence. Qed.

Lemma skip_whitespace_upcase (s : string) :
  skip_whitespace (upcase s) = upcase (skip_whitespace s).
Proof.
  induction s as [|c r IH]; [reflexivity|].
  cbn [upcase skip_whitespace]. rewrite toupper_blank.
  destruct (Ascii.eqb c " " || Ascii.eqb c "009")%bool; [exact IH | reflexivity].
Qed.

Lemma parse_code_upcase (s : string) (k : Z) :
  parse_code (upcase s) k = (fst (parse_code s k), upcase (snd (parse_code s k))).
Proof.
  revert k. induction s as [|c r IH]; intro k; [reflexivity|].
  cbn [upcase parse_code]. rewrite toupper_digit.
  destruct (is_digit c) eqn:E; [|reflexivity].
  rewrite (toupper_of_digit c E). apply IH.
Qed.

Lemma parse_float_loop_upcase (s : string) (res frac div : Q) (h i : bool) :
  parse_float_loop (upcase s) res frac div h i
    = let '(a, b, d, rest) := parse_float_loop s res frac div h i in
      (a, b, d, upcase rest).
Proof.
  revert res frac div h i. induction s as [|c r IH]; intros; [reflexivity|].
  cbn [upcase parse_float_loop]. rewrite toupper_digit, toupper_dot.
  destruct (is_digit c) eqn:E.
  - rewrite (toupper_of_digit c E). destruct i; apply IH.
  - destruct (Ascii.eqb c "." && negb i)%bool; [apply IH | reflexivity].
Qed.

Lemma parse_float_sign (str : string) :
  parse_float str =
    let '(negative, s) := sign_split (skip_whitespace str) in
    let '(result, fraction, has_digits, s) := parse_float_loop s 0 0 10 false false in
    if negb has_digits then None
    else
      let result := (result + fraction)%Q in
      let result := if negative then (- result)%Q else result in
      Some (Qred result, s).
Proof. reflexivity. Qed.

Lemma sign_split_upcase (s : string) :
  sign_split (upcase s) = (fst (sign_split s), upcase (snd (sign_split s))).
Proof. destruct s as [|c r]; [reflexivity|]. each_char c; reflexivity. Qed.

Lemma parse_float_upcase (s : string) :
  parse_float (upcase s)
    = match parse_float s with
      | Some (v, e) => Some (v, upcase e)
      | None => None
      end.
Proof.
  rewrite !parse_float_sign, skip_whitespace_upcase, sign_split_upcase.
  destruct (sign_split (skip_whitespace s)) as [neg s1]. cbn [fst snd].
  rewrite parse_float_loop_upcase.
  destruct (parse_float_loop s1 0 0 10 false false) as [[[a b] d] rest].
  destruct d; reflexivity.
Qed.

Lemma parse_parameters_loop_upcase (n : nat) (p : string) (c : gcode_cmd_t) :
  parse_parameters_loop n (upcase p) c = parse_parameters_loop n p c.
Proof.
  revert p c. induction n as [|n IH]; intros p c; [reflexivity|].
  cbn [parse_parameters_loop]. rewrite skip_whitespace_upcase.
  destruct (skip_whitespace p) as [|ch r]; [reflexivity|].
  cbn [upcase]. rewrite toupper_end, toupper_idem, parse_float_upcase.
  destruct (Ascii.eqb ch "010" || Ascii.eqb ch "013" || Ascii.eqb ch ";")%bool;
    [reflexivity|].
  destruct (parse_float r) as [[v e]|]; [apply IH|].
  destruct (Ascii.eqb (cmd c) "G" && Z.eqb (code c) 28)%bool; apply IH.
Qed.

Lemma parse_parameters_upcase (line : string) (c : gcode_cmd_t) :
  parse_parameters (upcase line) c = parse_parameters line c.
Proof.
  unfold parse_parameters. rewrite upcase_length, skip_whitespace_upcase.
  destruct (skip_whitespace line) as [|ch r]; [reflexivity|].
  cbn [upcase]. rewrite toupper_letter.
  destruct (Ascii.eqb ch "G" || Ascii.eqb ch "g" || Ascii.eqb ch "M" || Ascii.eqb ch "m")%bool.
  - rewrite parse_code_upcase. cbn [snd]. now rewrite parse_parameters_loop_upcase.
  - now rewrite (parse_parameters_loop_upcase _ (String ch r)).
Qed.

Lemma parse_command_upcase (line : string) (c : gcode_cmd_t) :
  parse_command (upcase line) c = parse_command line c.
Proof.
  unfold parse_command. rewrite skip_whitespace_upcase.
  destruct (skip_whitespace line) as [|ch r]; [reflexivity|].
  cbn [upcase]. rewrite toupper_idem.
  destruct (negb (Ascii.eqb (toupper ch) "G") && negb (Ascii.eqb (toupper ch) "M"))%bool;
    [reflexivity|].
  rewrite parse_code_upcase. now destruct (parse_code r 0).
Qed.

(** X19.  The parser does not tell upper from lower case: a line and the
    same line with its letters in upper case parse to the same result. *)
Theorem parsing_ignores_letter_case (line : string) :
  gcode_parse_line (upcase line) = gcode_parse_line line.
Proof.
  unfold gcode_parse_line. rewrite skip_whitespace_upcase.
  destruct (skip_whitespace line) as [|ch r] eqn:E; [reflexivity|].
  cbn [upcase]. rewrite toupper_newline, toupper_semicolon.
  destruct (Ascii.eqb ch "010" || Ascii.eqb ch "013")%bool; [reflexivity|].
  destruct (Ascii.eqb ch ";"); [reflexivity|].
  change (String (toupper ch) (upcase r)) with (upcase (String ch r)).
  rewrite parse_command_upcase.
  destruct (parse_command (String ch r) gcode_cmd_clear) as [ret c].
  destruct (negb (Z.eqb ret GCODE_OK)); [reflexivity|].
  destruct (negb (is_supported_gcode (cmd c) (code c))); [reflexivity|].
  apply parse_parameters_upcase.
Qed.


(** ** Where a line ends *)

Lemma ends_line_cases (t : ascii) :
  ends_line t = true -> t = ";"%char \/ t = "010"%char \/ t = "013"%char.
Proof.
  unfold ends_line. intro H. apply orb_prop in H. destruct H as [H | H].
  - apply orb_prop in H. destruct H as [H | H]; apply Ascii.eqb_eq in H; auto.
  - apply Ascii.eqb_eq in H. auto.
Qed.

Lemma cut_app (a b : string) (t : ascii) :
  ends_line t = true -> cut (a ++ String t b) a.
Proof.
  intro H. induction a as [|c r IH]; cbn; [now apply cut_here | now apply cut_later].
Qed.

Lemma cut_length (s s' : string) : cut s s' -> (String.length s' < String.length s)%nat.
Proof. induction 1; cbn; lia. Qed.

Lemma skip_whitespace_cut (s s' : string) :
  cut s s' -> cut (skip_whitespace s) (skip_whitespace s').
Proof.
  induction 1 as [t b Ht | c r r' Hc IH].
  - destruct (ends_line_cases t Ht) as [-> | [-> | ->]]; now apply cut_here.
  - cbn [skip_whitespace].
    destruct (Ascii.eqb c " " || Ascii.eqb c "009")%bool; [exact IH | now apply cut_later].
Qed.

Lemma skip_whitespace_length (s : string) :
  (String.length (skip_whitespace s) <= String.length s)%nat.
Proof.
  induction s as [|c r IH]; cbn [skip_whitespace]; [lia|].
  destruct (Ascii.eqb c " " || Ascii.eqb c "009")%bool; cbn [String.length]; lia.
Qed.

Lemma parse_code_cut (s s' : string) (k : Z) :
  cut s s' ->
  fst (parse_code s k) = fst (parse_code s' k) /\
  cut (snd (parse_code s k)) (snd (parse_code s' k)).
Proof.
  intro H. revert k. induction H as [t b Ht | c r r' Hc IH]; intro k.
  - destruct (ends_line_cases t Ht) as [-> | [-> | ->]]; cbn; split; trivial;
      now apply cut_here.
  - cbn [parse_code]. destruct (is_digit c); [apply IH|].
    cbn [fst snd]. split; [reflexivity | now apply cut_later].
Qed.

Lemma parse_code_length (s : string) (k : Z) :
  (String.length (snd (parse_code s k)) <= String.length s)%nat.
Proof.
  revert k. induction s as [|c r IH]; intro k; cbn [parse_code]; [cbn; lia|].
  destruct (is_digit c); cbn [snd String.length]; [|lia].
  specialize (IH (k * 10 + digit_val c)%Z). lia.
Qed.


Lemma parse_float_loop_cut (s s' : string) (res frac div : Q) (h i : bool) :
  cut s s' ->
  read_of (parse_float_loop s res frac div h i)
    = read_of (parse_float_loop s' res frac div h i) /\
  cut (rest_of (parse_float_loop s res frac div h i))
      (rest_of (parse_float_loop s' res frac div h i)).
Proof.
  intro H. revert res frac div h i.
  induction H as [t b Ht | c r r' Hc IH]; intros.
  - destruct (ends_line_cases t Ht) as [-> | [-> | ->]]; cbn; split; trivial;
      now apply cut_here.
  - cbn [parse_float_loop]. destruct (is_digit c).
    + destruct i; apply IH.
    + destruct (Ascii.eqb c "." && negb i)%bool; [apply IH|].
      cbn. split; [reflexivity | now apply cut_later].
Qed.

Lemma parse_float_loop_length (s : string) (res frac div : Q) (h i : bool) :
  (String.length (rest_of (parse_float_loop s res frac div h i)) <= String.length s)%nat.
Proof.
  revert res frac div h i. induction s as [|c r IH]; intros; cbn [parse_float_loop];
    [cbn; lia|].
  destruct (is_digit c).
  - destruct i; cbn [String.length];
      match goal with |- context [parse_float_loop r ?a ?b ?d ?e ?f] =>
        specialize (IH a b d e f) end; lia.
  - destruct (Ascii.eqb c "." && negb i)%bool; cbn [String.length].
    + specialize (IH res frac div h true). lia.
    + cbn. lia.
Qed.

Lemma sign_split_cut (s s' : string) :
  cut s s' ->
  fst (sign_split s) = fst (sign_split s') /\
  cut (snd (sign_split s)) (snd (sign_split s')).
Proof.
  destruct 1 as [t b Ht | c r r' Hc].
  - destruct (ends_line_cases t Ht) as [-> | [-> | ->]]; cbn; split; trivial;
      now apply cut_here.
  - each_char c; cbn; (split; [reflexivity|]); try assumption; now apply cut_later.
Qed.

Lemma sign_split_length (s : string) :
  (String.length (snd (sign_split s)) <= String.length s)%nat.
Proof.
  destruct s as [|c r]; [cbn; lia|]. each_char c; cbn; lia.
Qed.

Lemma parse_float_cut (s s' : string) :
  cut s s' ->
  match parse_float s, parse_float s' with
  | Some (v, e), Some (v', e') => v = v' /\ cut e e'
  | None, None => True
  | _, _ => False
  end.
Proof.
  intro H. rewrite !parse_float_sign.
  destruct (sign_split_cut _ _ (skip_whitespace_cut _ _ H)) as [Hn Hs].
  destruct (sign_split (skip_whitespace s)) as [neg s1].
  destruct (sign_split (skip_whitespace s')) as [neg' s1'].
  cbn [fst snd] in *. subst neg'.
  destruct (parse_float_loop_cut s1 s1' 0 0 10 false false Hs) as [Hr Hc].
  destruct (parse_float_loop s1 0 0 10 false false) as [[[a b] d] e].
  destruct (parse_float_loop s1' 0 0 10 false false) as [[[a' b'] d'] e'].
  unfold read_of, rest_of in *. cbn [fst snd] in *.
  injection Hr as -> -> ->. destruct d'; cbn [negb]; auto.
Qed.

Lemma parse_float_length (s : string) (v : Q) (e : string) :
  parse_float s = Some (v, e) -> (String.length e <= String.length s)%nat.
Proof.
  rewrite parse_float_sign.
  pose proof (skip_whitespace_length s) as H1.
  pose proof (sign_split_length (skip_whitespace s)) as H2.
  destruct (sign_split (skip_whitespace s)) as [neg s1]. cbn [snd] in H2.
  pose proof (parse_float_loop_length s1 0 0 10 false false) as H3.
  destruct (parse_float_loop s1 0 0 10 false false) as [[[a b] d] r].
  unfold rest_of in H3. cbn [snd] in H3.
  destruct d; cbn [negb]; [|discriminate].
  intro E. injection E as _ <-. lia.
Qed.

(** The parameter loop reads the same from a line and from the line cut
    at a terminator, with any fuel that covers the text. *)
Lemma parse_parameters_loop_cut (n n' : nat) (p p' : string) (c : gcode_cmd_t) :
  cut p p' -> (String.length p <= n)%nat -> (String.length p' <= n')%nat ->
  parse_parameters_loop n p c = parse_parameters_loop n' p' c.
Proof.
  revert n' p p' c. induction n as [|n IH]; intros n' p p' c Hc Hn Hn'.
  - apply cut_length in Hc. lia.
  - pose proof (skip_whitespace_cut _ _ Hc) as Hq.
    pose proof (skip_whitespace_length p) as Lq.
    pose proof (skip_whitespace_length p') as Lq'.
    cbn [parse_parameters_loop].
    destruct n' as [|n'].
    + assert (p' = EmptyString) by (destruct p'; [reflexivity | cbn in Hn'; lia]).
      subst p'. cbn [skip_whitespace parse_parameters_loop] in *.
      inversion Hq as [t b Ht E1 E2|]; subst.
      destruct (ends_line_cases t Ht) as [-> | [-> | ->]]; reflexivity.
    + cbn [parse_parameters_loop].
      remember (skip_whitespace p) as q eqn:Eq.
      remember (skip_whitespace p') as q' eqn:Eq'.
      destruct Hq as [t b Ht | ch r r' Hr].
      * destruct (ends_line_cases t Ht) as [-> | [-> | ->]]; reflexivity.
      * cbn [String.length] in Lq, Lq'.
        destruct (Ascii.eqb ch "010" || Ascii.eqb ch "013" || Ascii.eqb ch ";")%bool;
          [reflexivity|].
        pose proof (parse_float_cut r r' Hr) as Hf.
        pose proof (parse_float_length r) as Le.
        pose proof (parse_float_length r') as Le'.
        destruct (parse_float r) as [[v e]|]; destruct (parse_float r') as [[v' e']|];
          try contradiction.
        -- destruct Hf as [<- He].
           specialize (Le _ _ eq_refl). specialize (Le' _ _ eq_refl).
           apply IH; [exact He | lia | lia].
        -- destruct (Ascii.eqb (cmd c) "G" && Z.eqb (code c) 28)%bool;
             (apply IH; [exact Hr | lia | lia]).
Qed.

Lemma parse_parameters_cut (line line' : string) (c : gcode_cmd_t) :
  cut line line' -> parse_parameters line c = parse_parameters line' c.
Proof.
  intro Hc. unfold parse_parameters. f_equal.
  pose proof (skip_whitespace_cut _ _ Hc) as Hq.
  pose proof (skip_whitespace_length line) as Lq.
  pose proof (skip_whitespace_length line') as Lq'.
  remember (skip_whitespace line) as q eqn:Eq.
  remember (skip_whitespace line') as q' eqn:Eq'.
  destruct Hq as [t b Ht | ch r r' Hr].
  - assert (E : (Ascii.eqb t "G" || Ascii.eqb t "g" || Ascii.eqb t "M" || Ascii.eqb t "m")%bool
                = false)
      by (destruct (ends_line_cases t Ht) as [-> | [-> | ->]]; reflexivity).
    rewrite E.
    apply parse_parameters_loop_cut; [now apply cut_here | exact Lq | cbn; lia].
  - cbn [String.length] in Lq, Lq'.
    destruct (Ascii.eqb ch "G" || Ascii.eqb ch "g" || Ascii.eqb ch "M" || Ascii.eqb ch "m")%bool.
    + pose proof (parse_code_length r 0) as L1. pose proof (parse_code_length r' 0) as L1'.
      apply parse_parameters_loop_cut; [now apply parse_code_cut | lia | lia].
    + apply parse_parameters_loop_cut; [now apply cut_later | cbn; lia | cbn; lia].
Qed.

Lemma parse_command_cut (line line' : string) (c : gcode_cmd_t) :
  cut line line' -> parse_command line c = parse_command line' c.
Proof.
  intro Hc. unfold parse_command.
  pose proof (skip_whitespace_cut _ _ Hc) as Hq.
  remember (skip_whitespace line) as q eqn:Eq.
  remember (skip_whitespace line') as q' eqn:Eq'.
  destruct Hq as [t b Ht | ch r r' Hr].
  - destruct (ends_line_cases t Ht) as [-> | [-> | ->]]; reflexivity.
  - destruct (negb (Ascii.eqb (toupper ch) "G") && negb (Ascii.eqb (toupper ch) "M"))%bool;
      [reflexivity|].
    destruct (parse_code_cut r r' 0 Hr) as [Hk _].
    destruct (parse_code r 0) as [k e]. destruct (parse_code r' 0) as [k' e'].
    cbn [fst] in Hk. now subst k'.
Qed.

(** A line and the line cut at a terminator parse alike, but that a line
    holding only a comment is told from a blank one. *)
Lemma gcode_parse_line_cut (line line' : string) :
  cut line line' ->
  gcode_parse_line line = gcode_parse_line line' \/
  (gcode_parse_line line = (GCODE_ERR_COMMENT, gcode_cmd_clear) /\
   gcode_parse_line line' = (GCODE_ERR_EMPTY, gcode_cmd_clear)).
Proof.
  intro Hc. unfold gcode_parse_line.
  pose proof (skip_whitespace_cut _ _ Hc) as Hq.
  destruct (skip_whitespace line) as [|ch r] eqn:E; [inversion Hq|].
  destruct (skip_whitespace line') as [|ch' r'] eqn:E'.
  - inversion Hq as [t b Ht|]; subst.
    destruct (ends_line_cases ch Ht) as [-> | [-> | ->]]; cbn; auto.
  - inversion Hq as [|c0 r0 r0' Hr]; subst. left.
    destruct (Ascii.eqb ch' "010" || Ascii.eqb ch' "013")%bool; [reflexivity|].
    destruct (Ascii.eqb ch' ";"); [reflexivity|].
    rewrite (parse_command_cut _ _ gcode_cmd_clear Hq).
    destruct (parse_command (String ch' r') gcode_cmd_clear) as [ret c].
    destruct (negb (Z.eqb ret GCODE_OK)); [reflexivity|].
    destruct (negb (is_supported_gcode (cmd c) (code c))); [reflexivity|].
    now apply parse_parameters_cut.
Qed.

(** X20.  A line is read up to its first [;], line feed or carriage
    return: what follows it changes neither the state nor the answer. *)
Theorem line_is_read_up_to_its_terminator (B : Type) (K : backend B)
    (a b : string) (t : ascii) (st : state B) :
  ends_line t = true ->
  gcode_process K (a ++ String t b) st = gcode_process K a st.
Proof.
  intro Ht. unfold gcode_process.
  destruct (gcode_parse_line_cut _ _ (cut_app a b t Ht)) as [-> | [-> ->]]; reflexivity.
Qed.

Lemma line_is_read_up_to_its_terminator_witness :
  gcode_process weak_backend "G1 X10 ; and G28 after it" (gcode_initial, tt)
    = gcode_process weak_backend "G1 X10 " (gcode_initial, tt).
Proof.
  apply (line_is_read_up_to_its_terminator unit weak_backend "G1 X10 " " and G28 after it"
           ";"%char (gcode_initial, tt)).
  reflexivity.
Defined.

(** ** The answers *)

Lemma store_param_command (c : gcode_cmd_t) (ch : ascii) (v : Q) :
  cmd (store_param c ch v) = cmd c /\ code (store_param c ch v) = code c.
Proof.
  unfold store_param.
  repeat match goal with |- context [if ?b then _ else _] => destruct b end;
    split; reflexivity.
Qed.

Lemma parse_parameters_loop_command (n : nat) (p : string) (c : gcode_cmd_t) :
  cmd (parse_parameters_loop n p c) = cmd c /\
  code (parse_parameters_loop n p c) = code c.
Proof.
  revert p c. induction n as [|n IH]; intros p c; [split; reflexivity|].
  cbn [parse_parameters_loop].
  destruct (skip_whitespace p) as [|ch r]; [split; reflexivity|].
  destruct (Ascii.eqb ch "010" || Ascii.eqb ch "013" || Ascii.eqb ch ";")%bool;
    [split; reflexivity|].
  destruct (parse_float r) as [[v e]|].
  - destruct (IH e (store_param c (toupper ch) v)) as [-> ->]. apply store_param_command.
  - destruct (Ascii.eqb (cmd c) "G" && Z.eqb (code c) 28)%bool.
    + destruct (IH r (store_param c (toupper ch) 0)) as [-> ->]. apply store_param_command.
    + apply IH.
Qed.

Lemma parse_command_result (line : string) (c : gcode_cmd_t) :
  fst (parse_command line c) = GCODE_OK \/ fst (parse_command line c) = GCODE_ERR_INVALID.
Proof.
  unfold parse_command.
  destruct (negb (Ascii.eqb _ "G") && negb (Ascii.eqb _ "M"))%bool; [now right|].
  destruct (parse_code _ 0). now left.
Qed.

(** What [gcode_parse_line] can return, and what it has checked when it
    returns [GCODE_OK]. *)
Lemma gcode_parse_line_result (line : string) :
  (fst (gcode_parse_line line) = GCODE_OK /\
   is_supported_gcode (cmd (snd (gcode_parse_line line)))
                      (code (snd (gcode_parse_line line))) = true) \/
  fst (gcode_parse_line line) = GCODE_ERR_EMPTY \/
  fst (gcode_parse_line line) = GCODE_ERR_COMMENT \/
  fst (gcode_parse_line line) = GCODE_ERR_INVALID \/
  fst (gcode_parse_line line) = GCODE_ERR_UNKNOWN.
Proof.
  unfold gcode_parse_line.
  destruct (skip_whitespace line) as [|ch r]; [auto|].
  destruct (Ascii.eqb ch "010" || Ascii.eqb ch "013")%bool; [auto|].
  destruct (Ascii.eqb ch ";"); [auto|].
  pose proof (parse_command_result (String ch r) gcode_cmd_clear) as Hr.
  destruct (parse_command (String ch r) gcode_cmd_clear) as [ret c]. cbn [fst] in Hr.
  destruct Hr as [-> | ->]; [|do 3 right; left; reflexivity].
  cbn [negb Z.eqb GCODE_OK].
  destruct (is_supported_gcode (cmd c) (code c)) eqn:E; cbn [negb];
    [|do 4 right; reflexivity].
  left. unfold parse_parameters. cbn [fst snd]. split; [reflexivity|].
  match goal with |- context [parse_parameters_loop ?n ?p ?c] =>
    destruct (parse_parameters_loop_command n p c) as [-> ->] end.
  exact E.
Qed.

(** Every handler of [gcode_execute] returns 0. *)
Lemma execute_g0_g1_ok (B : Type) (K : backend B) (c : gcode_cmd_t) (st : state B) :
  fst (execute_g0_g1 K c st) = 0%Z.
Proof.
  unfold execute_g0_g1. destruct st as [g b].
  destruct (g0_g1_target K c (g, b)) as [[[tx ty] tz] te].
  now destruct (g0_g1_move K c (g, b)).
Qed.

Lemma execute_g28_ok (B : Type) (K : backend B) (c : gcode_cmd_t) (st : state B)
    (r : Z * state B) :
  execute_g28 K c st = Some r -> fst r = 0%Z.
Proof.
  unfold execute_g28. destruct st as [g b].
  destruct (toolhead_home K b _) as [[rc b']|]; [|discriminate].
  now intros [= <-].
Qed.

Lemma execute_m104_ok (B : Type) (K : backend B) (c : gcode_cmd_t) (st : state B) :
  fst (execute_m104 K c st) = 0%Z.
Proof. unfold execute_m104. now destruct st. Qed.

Lemma execute_m109_ok (B : Type) (K : backend B) (c : gcode_cmd_t) (st : state B) :
  fst (execute_m109 K c st) = 0%Z.
Proof.
  unfold execute_m109. destruct st as [g b]. now destruct (heater_is_at_target K _ _).
Qed.

Lemma execute_m106_ok (B : Type) (K : backend B) (c : gcode_cmd_t) (st : state B) :
  fst (execute_m106 K c st) = 0%Z.
Proof. unfold execute_m106. now destruct st. Qed.

(** X21.  The answers to a line.  [gcode_process] answers [ok], or [ok]
    after the report of M114 with the state as it was, or refuses the
    line as unknown or invalid with the state as it was; [error: parse
    error] and [error: execution failed] are never sent.  It gives no
    answer only when the line parsed as a G28 and the [toolhead_home] it
    called did not return: every other line is answered. *)
Theorem every_line_gets_one_of_three_answers (B : Type) (K : backend B)
    (line : string) (st : state B) :
  match gcode_process K line st with
  | Some (st', out) => answered B st st' out
  | None =>
      fst (gcode_parse_line line) = GCODE_OK /\
      cmd (snd (gcode_parse_line line)) = "G"%char /\
      code (snd (gcode_parse_line line)) = 28%Z /\
      execute_g28 K (snd (gcode_parse_line line)) st = None /\
      exists axes_mask, toolhead_home K (snd st) axes_mask = None
  end.
Proof.
  unfold gcode_process, answered.
  destruct (gcode_parse_line_result line) as [[Hok Hsup] | H].
  - destruct (gcode_parse_line line) as [ret c]. cbn [fst snd] in *. subst ret.
    cbn [Z.eqb GCODE_OK]. unfold gcode_execute, is_supported_gcode in *.
    destruct (Ascii.eqb (cmd c) "G") eqn:EG.
    + destruct (Z.eqb (code c) 0 || Z.eqb (code c) 1)%bool eqn:E01.
      { rewrite execute_g0_g1_ok. cbn. auto. }
      destruct (Z.eqb (code c) 28) eqn:EC.
      { destruct (execute_g28 K c st) as [r|] eqn:E28.
        - rewrite (execute_g28_ok B K c st r E28). cbn. auto.
        - apply Ascii.eqb_eq in EG. apply Z.eqb_eq in EC.
          repeat split; trivial.
          unfold execute_g28 in E28. destruct st as [g b]. cbn [snd].
          match type of E28 with context [toolhead_home K b ?m] =>
            exists m; destruct (toolhead_home K b m) as [[rc b']|] end;
            [discriminate | reflexivity]. }
      destruct (Z.eqb (code c) 90); [cbn; auto|].
      destruct (Z.eqb (code c) 91); [cbn; auto|].
      discriminate.
    + destruct (Ascii.eqb (cmd c) "M"); [|discriminate].
      destruct (Z.eqb (code c) 104); [rewrite execute_m104_ok; cbn; auto|].
      destruct (Z.eqb (code c) 109); [rewrite execute_m109_ok; cbn; auto|].
      destruct (Z.eqb (code c) 106); [rewrite execute_m106_ok; cbn; auto|].
      destruct (Z.eqb (code c) 107); [cbn; auto|].
      destruct (Z.eqb (code c) 114); [|discriminate].
      unfold execute_m114.
      destruct (toolhead_get_position K (fst st) (snd st)) as [[[px py] pz] pe].
      cbn. right. left. split; [reflexivity|]. eexists. reflexivity.
  - destruct (gcode_parse_line line) as [ret c]. cbn [fst] in H.
    destruct H as [-> | [-> | [-> | ->]]]; cbn; auto 6.
Qed.

End GcodeFacts.

(* ================================================================== *)
(** * Properties of the linked firmware *)
(* ================================================================== *)

Module FirmwareFacts.
Import Trapq Toolhead Firmware Bench PlannerCases.
Local Open Scope string_scope.

Section OnAnyHardware.

Variable HW : Type.
Variable timer_read_time : HW -> Z * HW.
Variable gpio_in_read : HW -> Z -> bool.
Variable stepper_is_moving : HW -> Endstop.stepper_id_t -> bool.
Variable stepper_stop : HW -> Endstop.stepper_id_t -> HW.
Variable hw_timer_callback : nat -> Z -> HW -> Z * HW.

(** C4 on the code.  On the firmware as [main] boots it, [toolhead_home]
    does not return, on any hardware and for any selection of axes: the
    model's run is out of fuel for every amount of fuel.  The endstops are
    never latched, and the loop compares [s_print_time] with a deadline
    30 s past the same [s_print_time] without anything advancing it, so
    neither [TOOLHEAD_ERR_HOMING] is returned nor homing mode left. *)
Theorem homing_without_trigger_never_returns (h : HW) (turns : nat) (axes_mask : Z) :
  toolhead_home timer_read_time gpio_in_read stepper_is_moving stepper_stop
                hw_timer_callback turns axes_mask (sys (boot h)) = None.
Proof.
  unfold toolhead_home.
  destruct (toolhead_wait_moves timer_read_time gpio_in_read stepper_is_moving
              stepper_stop hw_timer_callback turns (sys (boot h)))
    as [sys1|] eqn:Hw; [|reflexivity].
  assert (Hq0 : HomingProps.quiet HW gpio_in_read (HomingProps.es_of HW (sys (boot h)))).
  { intro id. split; [intro r|]; reflexivity. }
  destruct (ToolheadFacts.toolhead_wait_moves_frame HW timer_read_time gpio_in_read
              stepper_is_moving stepper_stop hw_timer_callback turns _ _ Hq0 Hw) as [He Ht].
  rewrite ToolheadFacts.home_wait_loop_never_ends; [reflexivity | | | ].
  - unfold home_start, HomingProps.es_of, upd_th, upd_es, for_axes.
    cbn [Sched.world Sched.set_world es].
    unfold HomingProps.es_of in He. rewrite He.
    destruct (has_axis axes_mask AXIS_X_MASK), (has_axis axes_mask AXIS_Y_MASK),
             (has_axis axes_mask AXIS_Z_MASK);
      intros [| |]; (split; [intro r|]); reflexivity.
  - unfold home_start, sys_th, upd_th, upd_es, for_axes in *.
    cbn [Sched.world Sched.set_world th] in *. rewrite Ht.
    destruct (has_axis axes_mask AXIS_X_MASK), (has_axis axes_mask AXIS_Y_MASK),
             (has_axis axes_mask AXIS_Z_MASK); vm_compute; reflexivity.
  - unfold home_start, sys_th, upd_th, upd_es, for_axes in *.
    cbn [Sched.world Sched.set_world th] in *. rewrite Ht.
    destruct (has_axis axes_mask AXIS_X_MASK), (has_axis axes_mask AXIS_Y_MASK),
             (has_axis axes_mask AXIS_Z_MASK); vm_compute; reflexivity.
Qed.

End OnAnyHardware.

(** [toolhead_move] answers [TOOLHEAD_ERR_QUEUE] for a planner without a
    queue and in no other state: the exit after the retry is dead code,
    [lookahead_flush] having emptied the ring. *)
Lemma queue_error_means_no_queue (st : toolhead) (p : option coord) (speed : float) :
  fst (toolhead_move st p speed) = TOOLHEAD_ERR_QUEUE
  <-> (exists end_pos, p = Some end_pos) /\ s_p_trapq st = None.
Proof.
  unfold toolhead_move. split.
  - destruct p as [end_pos|]; [|discriminate].
    destruct (s_p_trapq st) as [tq|]; [|intros _; split; [now exists end_pos | reflexivity]].
    destruct (calc_move_distance (s_commanded_pos st) end_pos <? MIN_MOVE_DISTANCE)%float;
      [discriminate|].
    match goal with |- context [if ?c then (TOOLHEAD_ERR_LIMIT, st) else _] =>
      destruct c end; [discriminate|].
    match goal with |- context [lookahead_push st ?m] => set (move := m) end.
    destruct (lookahead_push st move) as [st1|].
    + match goal with |- context [if ?c then _ else _] => destruct c end; discriminate.
    + destruct (lookahead_push (lookahead_flush (lookahead_process st)) move)
        as [st2|] eqn:Hretry.
      * match goal with |- context [if ?c then _ else _] => destruct c end; discriminate.
      * exfalso. revert Hretry. apply ToolheadFacts.lookahead_push_room.
        destruct (ToolheadFacts.lookahead_flush_empties (lookahead_process st)) as [-> _].
        unfold LOOKAHEAD_SIZE. lia.
  - intros [[end_pos ->] ->]. reflexivity.
Qed.

(** The statics [s_pos_x] .. [s_pos_e] of gcode.c after [execute_g0_g1]
    are the target handed to [toolhead_move], and the return value is 0:
    neither depends on what [toolhead_move] returned. *)
Lemma execute_g0_g1_stores_the_target (B : Type) (K : Gcode.backend B)
    (p_cmd : Gcode.gcode_cmd_t) (st : Gcode.state B) :
  let r := Gcode.execute_g0_g1 K p_cmd st in
  fst r = 0%Z /\
  Gcode.toolhead_get_position Gcode.weak_backend (fst (snd r)) tt
    = Gcode.g0_g1_target K p_cmd st /\
  snd (snd r) = snd (Gcode.g0_g1_move K p_cmd st).
Proof.
  cbv zeta. unfold Gcode.execute_g0_g1. destruct st as [g b].
  destruct (Gcode.g0_g1_target K p_cmd (g, b)) as [[[tx ty] tz] te].
  destruct (Gcode.g0_g1_move K p_cmd (g, b)) as [rc b'].
  repeat split.
Qed.

(** C2 on the code.  Neither file keeps the commanded position back when
    the motion is not carried out.
    - toolhead.c.  [toolhead_move] answers [TOOLHEAD_ERR_QUEUE] only for
      a planner that has no queue at all, never for a full one.  The 38th
      of 38 moves of 2.5 mm drains twelve moves into a pool with eight
      free slots: it answers [TOOLHEAD_OK] and advances the commanded
      position from 92.5 to 95, the moves from 80 to 90 were handed to
      [trapq_append] and are in no queue (the last queued segment starts
      at 77.5), and the ring holds the two moves from 90 to 95.
    - gcode.c.  [execute_g0_g1] returns 0 and leaves the target in
      [s_pos_x] .. [s_pos_e], which is what gcode.c's own
      [toolhead_get_position] hands to M114, for every implementation of
      [toolhead_move] and whatever it returned. *)
Theorem commanded_position_advances_though_motion_is_lost :
  (forall (st : toolhead) (p : option coord) (speed : float),
     fst (toolhead_move st p speed) = TOOLHEAD_ERR_QUEUE
     <-> (exists end_pos, p = Some end_pos) /\ s_p_trapq st = None) /\
  (let r := toolhead_move after_37_moves (Some (mk_coord 95 0 0 0)) 100 in
   free_slots after_37_moves = 8%nat /\
   toolhead_get_position after_37_moves = mk_coord 92.5 0 0 0 /\
   fst r = TOOLHEAD_OK /\
   toolhead_get_position (snd r) = mk_coord 95 0 0 0 /\
   map (fun m => (x (la_start_pos m), x (la_end_pos m))) (skipn 32 (emitted (snd r)))
     = [(80, 82.5); (82.5, 85); (85, 87.5); (87.5, 90)]%float /\
   List.length (queued (snd r)) = 32%nat /\
   map (fun m => x (start_pos m)) (skipn 31 (queued (snd r))) = [77.5%float] /\
   map (fun m => (x (la_start_pos m), x (la_end_pos m))) (waiting (snd r))
     = [(90, 92.5); (92.5, 95)]%float) /\
  (forall (B : Type) (K : Gcode.backend B) (p_cmd : Gcode.gcode_cmd_t)
          (st : Gcode.state B),
     let r := Gcode.execute_g0_g1 K p_cmd st in
     fst r = 0%Z /\
     Gcode.toolhead_get_position Gcode.weak_backend (fst (snd r)) tt
       = Gcode.g0_g1_target K p_cmd st /\
     snd (snd r) = snd (Gcode.g0_g1_move K p_cmd st)).
Proof.
  split; [exact queue_error_means_no_queue|].
  split; [|exact execute_g0_g1_stores_the_target].
  vm_compute. repeat split; reflexivity.
Qed.

(** C3 on the code.  [M109 S200] with the hotend at about 79 degrees: the
    target is set to 200, the line is answered [ok] at once, and the
    heater is not at its target in the state the command returns in. *)
Lemma m109_returns_before_target_is_reached :
  let st := state_after ["M109 S200"%string] in
  option_map snd (session ["M109 S200"%string] power_on) = Some [Gcode.Line "ok"] /\
  Heater.heater_get_target (heat (snd st)) Heater.HEATER_HOTEND = 200%Q /\
  Qred (Heater.current_temp (Heater.state_of (heat (snd st)) Heater.HEATER_HOTEND))
    = (635 # 8)%Q /\
  fst (Gcode.heater_is_at_target bench (snd st) Heater.HEATER_HOTEND) = false.
Proof. vm_compute. repeat split; reflexivity. Qed.


End FirmwareFacts.
